(** * unstuck: planner, orderer, applier and executor

    A shallow embedding of the Go packages [pkg/types], [pkg/planner] and
    [pkg/applier] of sozercan/unstuck, with the properties of the plan
    generation engine and of the run loop stated over it.

    Conventions of the embedding.
    - A Go [string] is a byte string: Rocq's [string] (a list of [ascii]).
      [<] on strings is the bytewise lexicographic order, as in Go.
    - A Go [int] (and [EscalationLevel], declared [type EscalationLevel int])
      is a [Z]. The counters of the run loop are bounded by the length of a
      slice, so no wrap-around is involved.
    - A Go [error] is [option string]: [None] is [nil], [Some msg] carries the
      text of [err.Error()].
    - The string-backed enums ([ActionType], [RiskLevel], [TargetType]) stay
      strings, so that values outside the declared constants exist in the
      model as they do in the code.
    - A Go map that is only read and written by key is a [gmap]; a map
      whose iteration order reaches the result (the owner edges of
      [TopologicalSort]) is the list of its entries in the order the [range]
      loop visits them.
    - The cluster behind [kube.Client] is an abstract state; every client
      call takes the state and returns the next one with its result.
    - Wall-clock fields ([ExecutedAt], [Duration], [StartTime], [EndTime],
      [DiagnosedAt], deletion timestamps) and the text written by the logging
      helpers are not modelled. *)

From Stdlib Require Import ZArith Ascii String List Lia Bool Permutation.
From stdpp Require Import base numbers list strings gmap fin_maps pretty sorting.

Local Open Scope string_scope.
Local Open Scope Z_scope.

(** ** Go's [strings] package, on byte strings *)

Module strings.

(** One byte of [strings.ToLower]: the letters A-Z move to a-z. Kinds are
    ASCII identifiers; bytes outside A-Z are left as they are. *)
Definition lowerByte (c : ascii) : ascii :=
  let n := nat_of_ascii c in
  if ((65 <=? n) && (n <=? 90))%nat then ascii_of_nat (n + 32) else c.

Fixpoint ToLower (s : string) : string :=
  match s with
  | EmptyString => EmptyString
  | String c r => String (lowerByte c) (ToLower r)
  end.

Definition HasSuffix (s suffix : string) : bool :=
  let n := String.length s in
  let k := String.length suffix in
  (k <=? n)%nat && String.eqb (substring (n - k) k s) suffix.

(** [strings.Contains s substr]: [substr] occurs in [s]. *)
Fixpoint Contains (s substr : string) : bool :=
  String.prefix substr s
  || match s with
     | EmptyString => false
     | String _ r => Contains r substr
     end.

(** [strings.Split s sep] for the one-byte separator [sep]: the pieces of
    [s] between the occurrences of [sep], one more piece than there are
    occurrences. *)
Fixpoint Split (s : string) (sep : ascii) : list string :=
  match s with
  | EmptyString => [EmptyString]
  | String c r =>
      if Ascii.eqb c sep then EmptyString :: Split r sep
      else match Split r sep with
           | p :: ps => String c p :: ps
           | [] => [String c EmptyString]
           end
  end.

End strings.

(** ** Go's [fmt] verbs used by the planner *)

Module fmt.

(** [%d] of a non-negative number. *)
Definition d (n : nat) : string := pretty n.

(** [%03d]: decimal, padded with zeros on the left to three digits. *)
Definition d03 (n : nat) : string :=
  let s := pretty n in
  match String.length s with
  | 0%nat => "000" +:+ s
  | 1%nat => "00" +:+ s
  | 2%nat => "0" +:+ s
  | _ => s
  end.

(** The double quote character, for the rendered commands. *)
Definition dq : string := String (ascii_of_nat 34) EmptyString.

End fmt.

(** A Go function that returns [(value, error)] with exactly one of them
    set. *)
Inductive Result (A : Type) : Type :=
| Ok (a : A)
| Err (msg : string).
Arguments Ok {A} a.
Arguments Err {A} msg.

(** ** pkg/types *)

Module types.

(** [types.ResourceRef] *)
Record ResourceRef := mkResourceRef {
  ref_Kind : string;
  ref_APIVersion : string;
  ref_Namespace : string;
  ref_Name : string
}.

(** [ResourceRef.String] *)
Definition ResourceRef_String (r : ResourceRef) : string :=
  if negb (String.eqb (ref_Namespace r) EmptyString)
  then ref_Kind r +:+ "/" +:+ ref_Namespace r +:+ "/" +:+ ref_Name r
  else ref_Kind r +:+ "/" +:+ ref_Name r.

(** [metav1.OwnerReference], the fields the detector fills in. *)
Record OwnerReference := mkOwnerReference {
  own_Kind : string;
  own_Name : string;
  own_UID : string
}.

(** [types.Blocker]: an embedded [ResourceRef] and the blocker's metadata. *)
Record Blocker := mkBlocker {
  blk_ResourceRef : ResourceRef;
  blk_Finalizers : list string;
  blk_Terminating : bool;
  blk_OwnerReferences : list OwnerReference
}.

Record DiscoveryFailure := mkDiscoveryFailure {
  df_GroupVersion : string;
  df_Resource : string;
  df_Error : string
}.

Record ControllerStatus := mkControllerStatus {
  ctrl_Name : string;
  ctrl_Namespace : string;
  ctrl_Available : bool;
  ctrl_Ready : bool;
  ctrl_Message : string
}.

(** [types.TargetType] is a string type with three declared constants. *)
Definition TargetType := string.
Definition TargetTypeNamespace : TargetType := "namespace".
Definition TargetTypeCRD : TargetType := "crd".
Definition TargetTypeResource : TargetType := "resource".

(** [types.DiagnosisReport] *)
Record DiagnosisReport := mkDiagnosisReport {
  diag_Target : ResourceRef;
  diag_TargetType : TargetType;
  diag_Status : string;
  diag_RootCause : string;
  diag_Finalizers : list string;
  diag_Blockers : list Blocker;
  diag_DiscoveryFailures : list DiscoveryFailure;
  diag_Controllers : list ControllerStatus;
  diag_InstanceCount : Z;
  diag_Recommendations : list string
}.

Definition IsHealthy (r : DiagnosisReport) : bool :=
  String.eqb (diag_Status r) "Active"
  || String.eqb (diag_Status r) "Bound"
  || String.eqb (diag_Status r) EmptyString.

Definition IsTerminating (r : DiagnosisReport) : bool :=
  String.eqb (diag_Status r) "Terminating".

Definition HasDiscoveryFailures (r : DiagnosisReport) : bool :=
  (0 <? length (diag_DiscoveryFailures r))%nat.

(** [types.ActionType] *)
Definition ActionType := string.
Definition ActionInspect : ActionType := "inspect".
Definition ActionList : ActionType := "list".
Definition ActionPatch : ActionType := "patch".
Definition ActionDelete : ActionType := "delete".
Definition ActionFinalize : ActionType := "finalize".
Definition ActionWait : ActionType := "wait".

(** [types.RiskLevel] *)
Definition RiskLevel := string.
Definition RiskNone : RiskLevel := "none".
Definition RiskLow : RiskLevel := "low".
Definition RiskMedium : RiskLevel := "medium".
Definition RiskHigh : RiskLevel := "high".
Definition RiskCritical : RiskLevel := "critical".

(** [types.EscalationLevel], an [int]. *)
Definition EscalationLevel := Z.
Definition EscalationInfo : EscalationLevel := 0.
Definition EscalationClean : EscalationLevel := 1.
Definition EscalationFinalizer : EscalationLevel := 2.
Definition EscalationCRD : EscalationLevel := 3.
Definition EscalationForce : EscalationLevel := 4.

(** [EscalationLevel.RequiresForce] *)
Definition RequiresForce (e : EscalationLevel) : bool := EscalationCRD <=? e.

(** [types.Action] *)
Record Action := mkAction {
  act_ID : string;
  act_Type : ActionType;
  act_EscalationLevel : EscalationLevel;
  act_Description : string;
  act_Target : ResourceRef;
  act_Operation : string;
  act_Command : string;
  act_Risk : RiskLevel;
  act_RequiresForce : bool;
  act_ExpectedResult : string;
  act_DependsOn : list string
}.

(** [types.Plan] *)
Record Plan := mkPlan {
  plan_Target : ResourceRef;
  plan_RiskLevel : RiskLevel;
  plan_MaxEscalation : EscalationLevel;
  plan_Actions : list Action;
  plan_Commands : list string
}.

End types.
Import types.

(** ** pkg/planner *)

Module planner.

(** *** Risk classifier *)

(** The [ranks] table of [compareRisk]; a level that is not a key of the
    table has rank 0. *)
Definition riskRank (r : RiskLevel) : Z :=
  if String.eqb r RiskNone then 0
  else if String.eqb r RiskLow then 1
  else if String.eqb r RiskMedium then 2
  else if String.eqb r RiskHigh then 3
  else if String.eqb r RiskCritical then 4
  else 0.

Definition compareRisk (a b : RiskLevel) : Z :=
  let ra := riskRank a in
  let rb := riskRank b in
  if ra <? rb then -1
  else if rb <? ra then 1
  else 0.

Definition CalculateRiskLevel (actions : list Action) : RiskLevel :=
  match actions with
  | [] => RiskNone
  | _ =>
      fold_left
        (fun maxRisk action =>
           if 0 <? compareRisk (act_Risk action) maxRisk
           then act_Risk action else maxRisk)
        actions RiskNone
  end.

Definition GenerateCommands (actions : list Action) : list string :=
  List.filter (fun c => negb (String.eqb c EmptyString))
              (List.map act_Command actions).

Definition RiskLevelFromEscalation (level : EscalationLevel) : RiskLevel :=
  if level =? EscalationInfo then RiskNone
  else if level =? EscalationClean then RiskLow
  else if level =? EscalationFinalizer then RiskMedium
  else if level =? EscalationCRD then RiskHigh
  else if level =? EscalationForce then RiskCritical
  else RiskNone.

Definition FilterActionsByMaxLevel (actions : list Action)
    (maxLevel : EscalationLevel) : list Action :=
  List.filter (fun a => act_EscalationLevel a <=? maxLevel) actions.

Definition HasForceActions (actions : list Action) : bool :=
  existsb act_RequiresForce actions.

(** *** Dependency ordering *)

(** The [case] lists of [resourcePriority], in the order of the [switch]. *)
Definition leafKinds : list string :=
  ["pod"; "configmap"; "secret"; "service"; "endpoint"; "endpoints"].
Definition controllerKinds : list string :=
  ["deployment"; "statefulset"; "daemonset"; "replicaset"; "job"; "cronjob"].
Definition customKinds : list string :=
  ["certificate"; "issuer"; "clusterissuer"].

Definition caseOf (k : string) (labels : list string) : bool :=
  existsb (String.eqb k) labels.

Definition resourcePriority (kind : string) : Z :=
  let k := strings.ToLower kind in
  if caseOf k leafKinds then 10
  else if caseOf k controllerKinds then 20
  else if caseOf k customKinds then 30
  else if caseOf k ["customresourcedefinition"] then 100
  else if caseOf k ["namespace"] then 200
  else 50.

Definition resourceKey (ref : ResourceRef) : string :=
  if negb (String.eqb (ref_Namespace ref) EmptyString)
  then ref_Kind ref +:+ "/" +:+ ref_Namespace ref +:+ "/" +:+ ref_Name ref
  else ref_Kind ref +:+ "/" +:+ ref_Name ref.

(** [sort.SliceStable]: the comparison below is a lexicographic order on
    (level, priority, name), for which every stable sort returns the same
    slice; it is written here as a stable insertion sort. An element is moved
    past the elements that are strictly smaller and no further, so equal
    elements keep their input order. The properties of [Plan] below rest only
    on the result being a permutation of the input. *)
Fixpoint insertStable {A} (less : A -> A -> bool) (x : A) (l : list A) : list A :=
  match l with
  | [] => [x]
  | y :: r => if less y x then y :: insertStable less x r else x :: y :: r
  end.

Definition SliceStable {A} (less : A -> A -> bool) (l : list A) : list A :=
  List.fold_right (insertStable less) [] l.

(** The [less] closure of [OrderByDependencies]. *)
Definition actionLess (a b : Action) : bool :=
  if negb (act_EscalationLevel a =? act_EscalationLevel b)
  then act_EscalationLevel a <? act_EscalationLevel b
  else
    let pi := resourcePriority (ref_Kind (act_Target a)) in
    let pj := resourcePriority (ref_Kind (act_Target b)) in
    if negb (pi =? pj) then pi <? pj
    else String.ltb (ref_Name (act_Target a)) (ref_Name (act_Target b)).

(** [OrderByDependencies]. The [actionMap] the function fills first is never
    read, so it is left out. *)
Definition OrderByDependencies (actions : list Action) : list Action :=
  match actions with
  | [] => actions
  | _ => SliceStable actionLess actions
  end.

(** *** The escalation state machine *)

Record Planner := mkPlanner {
  maxEscalation : EscalationLevel;
  allowForce : bool
}.

Definition hasAvailableController (diagnosis : DiagnosisReport) : bool :=
  existsb (fun ctrl => ctrl_Available ctrl && ctrl_Ready ctrl)
          (diag_Controllers diagnosis).

(** The merge patch that nulls [metadata.finalizers], as the commands
    render it. *)
Definition finalizersNullPatch : string :=
  "{" +:+ fmt.dq +:+ "metadata" +:+ fmt.dq +:+ ":{" +:+ fmt.dq
  +:+ "finalizers" +:+ fmt.dq +:+ ":null}}".

Definition generatePatchCommand (target : ResourceRef) : string :=
  let kind :=
    if String.eqb (ref_Kind target) EmptyString then "resource"
    else ref_Kind target in
  let cmd := "kubectl patch " +:+ kind +:+ " " +:+ ref_Name target in
  let cmd :=
    if negb (String.eqb (ref_Namespace target) EmptyString)
    then cmd +:+ " -n " +:+ ref_Namespace target else cmd in
  cmd +:+ " -p '" +:+ finalizersNullPatch +:+ "' --type=merge".

Definition generateCRDPatchCommand (crdName : string) : string :=
  "kubectl patch crd " +:+ crdName +:+ " -p '" +:+ finalizersNullPatch
  +:+ "' --type=merge".

Definition generateForceFinalize (namespaceName : string) : string :=
  "kubectl get namespace " +:+ namespaceName
  +:+ " -o json | jq '.spec.finalizers = []' | kubectl replace --raw "
  +:+ fmt.dq +:+ "/api/v1/namespaces/" +:+ namespaceName +:+ "/finalize"
  +:+ fmt.dq +:+ " -f -".

Section PlannerOps.

(** [%q] of [fmt.Sprintf] (Go's [strconv.Quote]); it only shapes the text
    of a description. *)
Variable Quote : string -> string.

Definition infoActions (diagnosis : DiagnosisReport) : list Action :=
  [ {| act_ID := EmptyString;
       act_Type := ActionInspect;
       act_EscalationLevel := EscalationInfo;
       act_Description :=
         "Inspect " +:+ diag_TargetType diagnosis +:+ " "
         +:+ Quote (ref_Name (diag_Target diagnosis));
       act_Target := diag_Target diagnosis;
       act_Operation := "inspect";
       act_Command := EmptyString;
       act_Risk := RiskNone;
       act_RequiresForce := false;
       act_ExpectedResult := "Gather current state information";
       act_DependsOn := [] |} ]
  ++ (if (0 <? length (diag_Blockers diagnosis))%nat then
        [ {| act_ID := EmptyString;
             act_Type := ActionList;
             act_EscalationLevel := EscalationInfo;
             act_Description :=
               "List " +:+ fmt.d (length (diag_Blockers diagnosis))
               +:+ " blocking resources";
             act_Target := diag_Target diagnosis;
             act_Operation := "list-blockers";
             act_Command := EmptyString;
             act_Risk := RiskNone;
             act_RequiresForce := false;
             act_ExpectedResult := "Enumerate resources preventing deletion";
             act_DependsOn := [] |} ]
      else []).

Definition cleanPathActions (diagnosis : DiagnosisReport) : list Action :=
  [ {| act_ID := EmptyString;
       act_Type := ActionWait;
       act_EscalationLevel := EscalationClean;
       act_Description := "Wait for controller to process finalizers";
       act_Target := diag_Target diagnosis;
       act_Operation := "wait-controller";
       act_Command := EmptyString;
       act_Risk := RiskLow;
       act_RequiresForce := false;
       act_ExpectedResult := "Controller removes finalizers naturally";
       act_DependsOn := [] |} ].

Definition finalizerRemovalAction (blocker : Blocker) (namespace : string)
    : Action :=
  let ns :=
    if String.eqb (ref_Namespace (blk_ResourceRef blocker)) EmptyString
    then namespace else ref_Namespace (blk_ResourceRef blocker) in
  let target :=
    {| ref_Kind := ref_Kind (blk_ResourceRef blocker);
       ref_APIVersion := ref_APIVersion (blk_ResourceRef blocker);
       ref_Namespace := ns;
       ref_Name := ref_Name (blk_ResourceRef blocker) |} in
  {| act_ID := EmptyString;
     act_Type := ActionPatch;
     act_EscalationLevel := EscalationFinalizer;
     act_Description := "Remove finalizers from " +:+ ResourceRef_String target;
     act_Target := target;
     act_Operation := "remove-finalizers";
     act_Command := generatePatchCommand target;
     act_Risk := RiskMedium;
     act_RequiresForce := false;
     act_ExpectedResult := "Finalizers removed, object deletion proceeds";
     act_DependsOn := [] |}.

Definition crdFinalizerAction (target : ResourceRef) : Action :=
  {| act_ID := EmptyString;
     act_Type := ActionPatch;
     act_EscalationLevel := EscalationCRD;
     act_Description := "Remove cleanup finalizer from CRD " +:+ ref_Name target;
     act_Target :=
       {| ref_Kind := "CustomResourceDefinition";
          ref_APIVersion := "apiextensions.k8s.io/v1";
          ref_Namespace := EmptyString;
          ref_Name := ref_Name target |};
     act_Operation := "remove-crd-finalizer";
     act_Command := generateCRDPatchCommand (ref_Name target);
     act_Risk := RiskHigh;
     act_RequiresForce := true;
     act_ExpectedResult :=
       "CRD cleanup finalizer removed, CR data may be orphaned";
     act_DependsOn := [] |}.

Definition forceFinalize (namespaceName : string) : Action :=
  {| act_ID := EmptyString;
     act_Type := ActionFinalize;
     act_EscalationLevel := EscalationForce;
     act_Description := "Force-finalize namespace " +:+ namespaceName;
     act_Target :=
       {| ref_Kind := "Namespace";
          ref_APIVersion := "v1";
          ref_Namespace := EmptyString;
          ref_Name := namespaceName |};
     act_Operation := "force-finalize";
     act_Command := generateForceFinalize namespaceName;
     act_Risk := RiskCritical;
     act_RequiresForce := true;
     act_ExpectedResult := "Namespace deleted, remaining resources abandoned";
     act_DependsOn := [] |}.

(** The actions [Plan] accumulates before ordering, level by level. *)
Definition levelActions (p : Planner) (diagnosis : DiagnosisReport)
    : list Action :=
  infoActions diagnosis
  ++ (if (EscalationClean <=? maxEscalation p)
         && hasAvailableController diagnosis
      then cleanPathActions diagnosis else [])
  ++ (if EscalationFinalizer <=? maxEscalation p
      then List.map
             (fun blocker =>
                finalizerRemovalAction blocker
                  (ref_Namespace (diag_Target diagnosis)))
             (diag_Blockers diagnosis)
      else [])
  ++ (if (EscalationCRD <=? maxEscalation p) && allowForce p
         && String.eqb (diag_TargetType diagnosis) TargetTypeCRD
      then [crdFinalizerAction (diag_Target diagnosis)] else [])
  ++ (if (EscalationForce <=? maxEscalation p) && allowForce p
         && (String.eqb (diag_TargetType diagnosis) TargetTypeNamespace
             && HasDiscoveryFailures diagnosis)
      then [forceFinalize (ref_Name (diag_Target diagnosis))] else []).

Definition setID (a : Action) (id : string) : Action :=
  {| act_ID := id;
     act_Type := act_Type a;
     act_EscalationLevel := act_EscalationLevel a;
     act_Description := act_Description a;
     act_Target := act_Target a;
     act_Operation := act_Operation a;
     act_Command := act_Command a;
     act_Risk := act_Risk a;
     act_RequiresForce := act_RequiresForce a;
     act_ExpectedResult := act_ExpectedResult a;
     act_DependsOn := act_DependsOn a |}.

(** The loop [orderedActions[i].ID = Sprintf("action-%03d", i+1)]. *)
Definition assignIDs (orderedActions : list Action) : list Action :=
  imap (fun i a => setID a ("action-" +:+ fmt.d03 (S i))) orderedActions.

(** [Planner.Plan]. The argument is a pointer: [None] is [nil]. On the
    healthy path the plan is returned as its literal built it, with the
    fields the literal does not name at their zero values. *)
Definition Plan (p : Planner) (diagnosis : option DiagnosisReport)
    : Result types.Plan :=
  match diagnosis with
  | None => Err "diagnosis report is nil"
  | Some diagnosis =>
      let plan :=
        {| plan_Target := diag_Target diagnosis;
           plan_RiskLevel := EmptyString;
           plan_MaxEscalation := maxEscalation p;
           plan_Actions := [];
           plan_Commands := [] |} in
      if IsHealthy diagnosis then Ok plan
      else
        let actions := levelActions p diagnosis in
        let orderedActions := assignIDs (OrderByDependencies actions) in
        Ok {| plan_Target := plan_Target plan;
              plan_RiskLevel := CalculateRiskLevel orderedActions;
              plan_MaxEscalation := plan_MaxEscalation plan;
              plan_Actions := orderedActions;
              plan_Commands := GenerateCommands orderedActions |}
  end.

End PlannerOps.

End planner.
Import planner.

(** ** pkg/applier *)

Module applier.

(** A Go [error]: [None] is [nil]. *)
Definition error := option string.

(** [schema.GroupVersionResource] *)
Record GroupVersionResource := mkGVR {
  gvr_Group : string;
  gvr_Version : string;
  gvr_Resource : string
}.

(** What the executor reads of a [corev1.Namespace]. *)
Record NamespaceObj := mkNamespaceObj {
  ns_Finalizers : list string;
  ns_SpecFinalizers : list string;
  ns_DeletionTimestamp : option string;
  ns_Phase : string
}.

(** What the executor reads of a [CustomResourceDefinition]. *)
Record CRDObj := mkCRDObj {
  crd_Finalizers : list string;
  crd_DeletionTimestamp : option string
}.

(** What the executor reads of an [unstructured.Unstructured]: the results
    of [NestedStringSlice] and [NestedString] under [metadata]. *)
Record DynamicObj := mkDynamicObj {
  obj_finalizers : list string;
  obj_deletionTimestamp : string
}.

(** [kube.Client]: the typed, API-extensions and dynamic clients, as
    functions of the cluster state. Every call is a round trip that may
    change the cluster and may fail. *)
Record Client (Cluster : Type) := mkClient {
  Namespaces_Get : string -> Cluster -> Result NamespaceObj * Cluster;
  Namespaces_Patch : string -> Cluster -> error * Cluster;
  Namespaces_Delete : string -> Cluster -> error * Cluster;
  Namespaces_Finalize : string -> NamespaceObj -> Cluster -> error * Cluster;
  CRDs_Get : string -> Cluster -> Result CRDObj * Cluster;
  CRDs_Patch : string -> Cluster -> error * Cluster;
  CRDs_Delete : string -> Cluster -> error * Cluster;
  Dynamic_Get :
    GroupVersionResource -> string -> string -> Cluster
    -> Result DynamicObj * Cluster;
  Dynamic_Patch :
    GroupVersionResource -> string -> string -> Cluster -> error * Cluster;
  Dynamic_Delete :
    GroupVersionResource -> string -> string -> Cluster -> error * Cluster
}.
Arguments Namespaces_Get {Cluster}.
Arguments Namespaces_Patch {Cluster}.
Arguments Namespaces_Delete {Cluster}.
Arguments Namespaces_Finalize {Cluster}.
Arguments CRDs_Get {Cluster}.
Arguments CRDs_Patch {Cluster}.
Arguments CRDs_Delete {Cluster}.
Arguments Dynamic_Get {Cluster}.
Arguments Dynamic_Patch {Cluster}.
Arguments Dynamic_Delete {Cluster}.

(** *** GVR resolution *)

Definition pluralize (kind : string) : string :=
  let lower := strings.ToLower kind in
  if String.eqb lower "endpoints" then "endpoints"
  else if String.eqb lower "ingress" then "ingresses"
  else if String.eqb lower "networkpolicy" then "networkpolicies"
  else if String.eqb lower "podsecuritypolicy" then "podsecuritypolicies"
  else if String.eqb lower "resourcequota" then "resourcequotas"
  else if String.eqb lower "limitrange" then "limitranges"
  else if strings.HasSuffix lower "s" then lower +:+ "es"
  else if strings.HasSuffix lower "y"
       then substring 0 (String.length lower - 1) lower +:+ "ies"
  else lower +:+ "s".

(** The API version [resolveGVR] splits. *)
Definition gvOf (target : ResourceRef) : string :=
  if String.eqb (ref_APIVersion target) EmptyString then "v1"
  else ref_APIVersion target.

(** [parts[i]]. An index out of range panics in Go; [resolveGVR_indices]
    below shows that the two indices [resolveGVR] uses are in range, so the
    default is never returned. *)
Definition index (parts : list string) (i : nat) : string :=
  nth i parts EmptyString.

(** [Executor.resolveGVR] *)
Definition resolveGVR (target : ResourceRef) : GroupVersionResource * error :=
  let gv := gvOf target in
  let parts := strings.Split gv "/"%char in
  let '(group, version) :=
    if (length parts =? 1)%nat then (EmptyString, index parts 0)
    else (index parts 0, index parts 1) in
  let resource := pluralize (ref_Kind target) in
  ({| gvr_Group := group; gvr_Version := version; gvr_Resource := resource |},
   None).

(** *** Executor *)

(** The state map [Snapshot] returns; [snap_phase] is present for
    namespaces only. *)
Record SnapshotState := mkSnapshotState {
  snap_finalizers : list string;
  snap_deletionTimestamp : option string;
  snap_phase : option string
}.

Section Executor.

Context {Cluster : Type} (client : Client Cluster).

Definition patchNamespace (name : string) (c : Cluster) : error * Cluster :=
  Namespaces_Patch client name c.

Definition patchCRD (name : string) (c : Cluster) : error * Cluster :=
  CRDs_Patch client name c.

Definition patchDynamicResource (target : ResourceRef) (c : Cluster)
    : error * Cluster :=
  let '(gvr, err) := resolveGVR target in
  match err with
  | Some e => (Some ("failed to resolve GVR: " +:+ e), c)
  | None => Dynamic_Patch client gvr (ref_Namespace target) (ref_Name target) c
  end.

Definition executePatch (action : Action) (c : Cluster) : error * Cluster :=
  let target := act_Target action in
  if String.eqb (ref_Kind target) "Namespace"
  then patchNamespace (ref_Name target) c
  else if String.eqb (ref_Kind target) "CustomResourceDefinition"
  then patchCRD (ref_Name target) c
  else patchDynamicResource target c.

Definition executeDelete (action : Action) (c : Cluster) : error * Cluster :=
  let target := act_Target action in
  if String.eqb (ref_Kind target) "Namespace"
  then Namespaces_Delete client (ref_Name target) c
  else if String.eqb (ref_Kind target) "CustomResourceDefinition"
  then CRDs_Delete client (ref_Name target) c
  else
    let '(gvr, err) := resolveGVR target in
    match err with
    | Some e => (Some ("failed to resolve GVR: " +:+ e), c)
    | None =>
        Dynamic_Delete client gvr (ref_Namespace target) (ref_Name target) c
    end.

Definition executeFinalize (action : Action) (c : Cluster) : error * Cluster :=
  let target := act_Target action in
  if negb (String.eqb (ref_Kind target) "Namespace")
  then (Some ("finalize action only supports Namespace, got: "
              +:+ ref_Kind target), c)
  else
    match Namespaces_Get client (ref_Name target) c with
    | (Err e, c1) => (Some ("failed to get namespace: " +:+ e), c1)
    | (Ok ns, c1) =>
        let ns' :=
          {| ns_Finalizers := ns_Finalizers ns;
             ns_SpecFinalizers := [];
             ns_DeletionTimestamp := ns_DeletionTimestamp ns;
             ns_Phase := ns_Phase ns |} in
        Namespaces_Finalize client (ref_Name target) ns' c1
    end.

Definition executeWait (action : Action) (c : Cluster) : error * Cluster :=
  (None, c).

(** [Executor.Execute] *)
Definition Execute (action : Action) (c : Cluster) : error * Cluster :=
  if String.eqb (act_Type action) ActionInspect then (None, c)
  else if String.eqb (act_Type action) ActionList then (None, c)
  else if String.eqb (act_Type action) ActionPatch then executePatch action c
  else if String.eqb (act_Type action) ActionDelete then executeDelete action c
  else if String.eqb (act_Type action) ActionFinalize
  then executeFinalize action c
  else if String.eqb (act_Type action) ActionWait then executeWait action c
  else (Some ("unknown action type: " +:+ act_Type action), c).

Definition verifyNoFinalizers (target : ResourceRef) (c : Cluster)
    : (bool * error) * Cluster :=
  if String.eqb (ref_Kind target) "Namespace" then
    match Namespaces_Get client (ref_Name target) c with
    | (Err e, c1) => ((false, Some e), c1)
    | (Ok ns, c1) => (((length (ns_Finalizers ns) =? 0)%nat, None), c1)
    end
  else if String.eqb (ref_Kind target) "CustomResourceDefinition" then
    match CRDs_Get client (ref_Name target) c with
    | (Err e, c1) => ((false, Some e), c1)
    | (Ok crd, c1) => (((length (crd_Finalizers crd) =? 0)%nat, None), c1)
    end
  else
    let '(gvr, err) := resolveGVR target in
    match err with
    | Some e => ((false, Some e), c)
    | None =>
        match Dynamic_Get client gvr (ref_Namespace target) (ref_Name target) c
        with
        | (Err e, c1) => ((false, Some e), c1)
        | (Ok obj, c1) => (((length (obj_finalizers obj) =? 0)%nat, None), c1)
        end
    end.

Definition verifyDeleted (target : ResourceRef) (c : Cluster)
    : (bool * error) * Cluster :=
  if String.eqb (ref_Kind target) "Namespace" then
    match Namespaces_Get client (ref_Name target) c with
    | (Err e, c1) =>
        if strings.Contains e "not found" then ((true, None), c1)
        else ((false, Some e), c1)
    | (Ok _, c1) => ((false, None), c1)
    end
  else if String.eqb (ref_Kind target) "CustomResourceDefinition" then
    match CRDs_Get client (ref_Name target) c with
    | (Err e, c1) =>
        if strings.Contains e "not found" then ((true, None), c1)
        else ((false, Some e), c1)
    | (Ok _, c1) => ((false, None), c1)
    end
  else
    let '(gvr, err) := resolveGVR target in
    match err with
    | Some _ => ((true, None), c)
    | None =>
        match Dynamic_Get client gvr (ref_Namespace target) (ref_Name target) c
        with
        | (Err e, c1) =>
            if strings.Contains e "not found" then ((true, None), c1)
            else ((false, Some e), c1)
        | (Ok _, c1) => ((false, None), c1)
        end
    end.

Definition verifyNamespaceCleared (name : string) (c : Cluster)
    : (bool * error) * Cluster :=
  match Namespaces_Get client name c with
  | (Err e, c1) =>
      if strings.Contains e "not found" then ((true, None), c1)
      else ((false, Some e), c1)
  | (Ok ns, c1) => ((negb (String.eqb (ns_Phase ns) "Terminating"), None), c1)
  end.

(** [Executor.Verify] *)
Definition Verify (action : Action) (c : Cluster) : (bool * error) * Cluster :=
  if String.eqb (act_Type action) ActionInspect
     || String.eqb (act_Type action) ActionList
     || String.eqb (act_Type action) ActionWait
  then ((true, None), c)
  else if String.eqb (act_Type action) ActionPatch
  then verifyNoFinalizers (act_Target action) c
  else if String.eqb (act_Type action) ActionDelete
  then verifyDeleted (act_Target action) c
  else if String.eqb (act_Type action) ActionFinalize
  then verifyNamespaceCleared (ref_Name (act_Target action)) c
  else ((false,
         Some ("unknown action type for verification: " +:+ act_Type action)),
        c).

(** [Executor.Snapshot] *)
Definition Snapshot (target : ResourceRef) (c : Cluster)
    : Result SnapshotState * Cluster :=
  if String.eqb (ref_Kind target) "Namespace" then
    match Namespaces_Get client (ref_Name target) c with
    | (Err e, c1) => (Err e, c1)
    | (Ok ns, c1) =>
        (Ok {| snap_finalizers := ns_Finalizers ns;
               snap_deletionTimestamp := ns_DeletionTimestamp ns;
               snap_phase := Some (ns_Phase ns) |}, c1)
    end
  else if String.eqb (ref_Kind target) "CustomResourceDefinition" then
    match CRDs_Get client (ref_Name target) c with
    | (Err e, c1) => (Err e, c1)
    | (Ok crd, c1) =>
        (Ok {| snap_finalizers := crd_Finalizers crd;
               snap_deletionTimestamp := crd_DeletionTimestamp crd;
               snap_phase := None |}, c1)
    end
  else
    let '(gvr, err) := resolveGVR target in
    match err with
    | Some e => (Err e, c)
    | None =>
        match Dynamic_Get client gvr (ref_Namespace target) (ref_Name target) c
        with
        | (Err e, c1) => (Err e, c1)
        | (Ok obj, c1) =>
            (Ok {| snap_finalizers := obj_finalizers obj;
                   snap_deletionTimestamp := Some (obj_deletionTimestamp obj);
                   snap_phase := None |}, c1)
        end
    end.

End Executor.

(** *** Applier *)

(** [types.ActionResult] *)
Record ActionResult := mkActionResult {
  ar_Action : Action;
  ar_Success : bool;
  ar_Error : string;
  ar_Before : option SnapshotState;
  ar_After : option SnapshotState
}.

(** [types.ApplyResult] *)
Record ApplyResult := mkApplyResult {
  res_TotalActions : Z;
  res_Succeeded : Z;
  res_Failed : Z;
  res_Skipped : Z;
  res_Actions : list ActionResult;
  res_ExitCode : Z
}.

(** The applier's options. *)
Record Applier := mkApplier {
  dryRun : bool;
  continueOnError : bool;
  autoConfirm : bool;
  verbose : bool
}.

(** What one [fmt.Scanln(&response)] leaves behind: the token stored in
    [response] and the error it returned. *)
Record ScanResult := mkScanResult {
  scan_response : string;
  scan_err : error
}.

(** [Scanln] on an exhausted standard input. *)
Definition scanEOF : ScanResult :=
  {| scan_response := EmptyString; scan_err := Some "EOF" |}.

(** The calls the run loop makes on its collaborators, in order. The log is
    ghost state: it records that a call was made and changes no result. *)
Inductive Call :=
| CallConfirm (action : Action)
| CallSnapshot (target : ResourceRef)
| CallExecute (action : Action)
| CallVerify (action : Action).

(** Everything outside the applier that a run reads or changes. *)
Record World (Cluster : Type) := mkWorld {
  cluster : Cluster;
  stdin : list ScanResult;
  calls : list Call
}.
Arguments mkWorld {Cluster}.
Arguments cluster {Cluster}.
Arguments stdin {Cluster}.
Arguments calls {Cluster}.

(** [Applier.calculateExitCode] *)
Definition calculateExitCode (result : ApplyResult) : Z :=
  if (res_Failed result =? 0) && (res_Skipped result =? 0) then 0
  else if res_Succeeded result =? 0 then 1
  else 2.

(** The answers [confirm] accepts. *)
Definition isYes (response : string) : bool :=
  String.eqb response "y" || String.eqb response "Y"
  || String.eqb response "yes" || String.eqb response "YES".

(** How an iteration of the loop ends: [continue] and the end of the body
    both go on to the next action, [break] leaves the loop. *)
Inductive Control := Next | Break.

Section Apply.

Context {Cluster : Type} (client : Client Cluster).

Definition logCall (call : Call) (w : World Cluster) : World Cluster :=
  {| cluster := cluster w; stdin := stdin w; calls := calls w ++ [call] |}.

Definition setCluster (c : Cluster) (w : World Cluster) : World Cluster :=
  {| cluster := c; stdin := stdin w; calls := calls w |}.

(** [Applier.confirm]: one line is read from standard input. *)
Definition confirm (action : Action) (w : World Cluster)
    : (bool * error) * World Cluster :=
  let '(scan, rest) :=
    match stdin w with
    | [] => (scanEOF, [])
    | scan :: rest => (scan, rest)
    end in
  let w' :=
    {| cluster := cluster w; stdin := rest;
       calls := calls w ++ [CallConfirm action] |} in
  match scan_err scan with
  | Some msg =>
      if negb (String.eqb msg "unexpected newline") then ((false, None), w')
      else ((isYes (scan_response scan), None), w')
  | None => ((isYes (scan_response scan), None), w')
  end.

Definition withOutcome (ar : ActionResult) (success : bool) (err : string)
    : ActionResult :=
  {| ar_Action := ar_Action ar; ar_Success := success; ar_Error := err;
     ar_Before := ar_Before ar; ar_After := ar_After ar |}.

Definition withBefore (ar : ActionResult) (s : option SnapshotState)
    : ActionResult :=
  {| ar_Action := ar_Action ar; ar_Success := ar_Success ar;
     ar_Error := ar_Error ar; ar_Before := s; ar_After := ar_After ar |}.

Definition withAfter (ar : ActionResult) (s : option SnapshotState)
    : ActionResult :=
  {| ar_Action := ar_Action ar; ar_Success := ar_Success ar;
     ar_Error := ar_Error ar; ar_Before := ar_Before ar; ar_After := s |}.

Definition countSucceeded (r : ApplyResult) : ApplyResult :=
  {| res_TotalActions := res_TotalActions r;
     res_Succeeded := res_Succeeded r + 1;
     res_Failed := res_Failed r; res_Skipped := res_Skipped r;
     res_Actions := res_Actions r; res_ExitCode := res_ExitCode r |}.

Definition countFailed (r : ApplyResult) : ApplyResult :=
  {| res_TotalActions := res_TotalActions r;
     res_Succeeded := res_Succeeded r;
     res_Failed := res_Failed r + 1; res_Skipped := res_Skipped r;
     res_Actions := res_Actions r; res_ExitCode := res_ExitCode r |}.

Definition countSkipped (r : ApplyResult) : ApplyResult :=
  {| res_TotalActions := res_TotalActions r;
     res_Succeeded := res_Succeeded r;
     res_Failed := res_Failed r; res_Skipped := res_Skipped r + 1;
     res_Actions := res_Actions r; res_ExitCode := res_ExitCode r |}.

Definition appendResult (r : ApplyResult) (ar : ActionResult) : ApplyResult :=
  {| res_TotalActions := res_TotalActions r;
     res_Succeeded := res_Succeeded r;
     res_Failed := res_Failed r; res_Skipped := res_Skipped r;
     res_Actions := res_Actions r ++ [ar]; res_ExitCode := res_ExitCode r |}.

(** [a.executor.Snapshot] with its error dropped, as the loop calls it. *)
Definition takeSnapshot (target : ResourceRef) (w : World Cluster)
    : option SnapshotState * World Cluster :=
  let '(r, c) := Snapshot client target (cluster w) in
  (match r with Ok s => Some s | Err _ => None end,
   setCluster c (logCall (CallSnapshot target) w)).

(** "Capture before state": only a verbose live run takes the snapshot. *)
Definition captureBefore (a : Applier) (action : Action) (ar : ActionResult)
    (w : World Cluster) : ActionResult * World Cluster :=
  if verbose a && negb (dryRun a) then
    let '(before, w1) := takeSnapshot (act_Target action) w in
    (withBefore ar before, w1)
  else (ar, w).

(** "Capture after state", on the live path after [Verify]. *)
Definition captureAfter (a : Applier) (action : Action) (ar : ActionResult)
    (w : World Cluster) : ActionResult * World Cluster :=
  if verbose a then
    let '(after, w1) := takeSnapshot (act_Target action) w in
    (withAfter ar after, w1)
  else (ar, w).

(** The loop body from "Capture before state" to its end: the action is
    confirmed or needs no confirmation. *)
Definition runAction (a : Applier) (action : Action) (ar : ActionResult)
    (result : ApplyResult) (w : World Cluster)
    : (ApplyResult * World Cluster) * Control :=
  let '(ar, w) := captureBefore a action ar w in
  if dryRun a then
    let ar := withOutcome ar true (ar_Error ar) in
    ((appendResult (countSucceeded result) ar, w), Next)
  else
    let '(err, c1) := Execute client action (cluster w) in
    let w := setCluster c1 (logCall (CallExecute action) w) in
    match err with
    | Some e =>
        let ar := withOutcome ar false e in
        let result := countFailed result in
        if negb (continueOnError a)
        then ((appendResult result ar, w), Break)
        else ((appendResult result ar, w), Next)
    | None =>
        let '((verified, verifyErr), c2) := Verify client action (cluster w) in
        let w := setCluster c2 (logCall (CallVerify action) w) in
        let '(ar, result) :=
          match verifyErr with
          | Some e =>
              (withOutcome ar false ("verification failed: " +:+ e),
               countFailed result)
          | None =>
              if negb verified
              then (withOutcome ar false "post-condition not met",
                    countFailed result)
              else (withOutcome ar true (ar_Error ar), countSucceeded result)
          end in
        let '(ar, w) := captureAfter a action ar w in
        ((appendResult result ar, w), Next)
    end.

(** The guard of the confirmation prompt. *)
Definition needsConfirm (a : Applier) (action : Action) : bool :=
  act_RequiresForce action && negb (dryRun a) && negb (autoConfirm a).

(** The [ActionResult] an iteration starts from. *)
Definition newActionResult (action : Action) : ActionResult :=
  {| ar_Action := action; ar_Success := false; ar_Error := EmptyString;
     ar_Before := None; ar_After := None |}.

(** One iteration of the loop of [Apply]. *)
Definition applyAction (a : Applier) (action : Action)
    (result : ApplyResult) (w : World Cluster)
    : (ApplyResult * World Cluster) * Control :=
  let ar := newActionResult action in
  if needsConfirm a action then
    let '((confirmed, err), w) := confirm action w in
    match err with
    | Some e =>
        let ar := withOutcome ar false ("confirmation error: " +:+ e) in
        let result := appendResult (countFailed result) ar in
        if negb (continueOnError a) then ((result, w), Break)
        else ((result, w), Next)
    | None =>
        if negb confirmed then
          let ar := withOutcome ar false "skipped by user" in
          ((appendResult (countSkipped result) ar, w), Next)
        else runAction a action ar result w
    end
  else runAction a action ar result w.

(** The [for ... range plan.Actions] loop. *)
Fixpoint applyLoop (a : Applier) (actions : list Action)
    (result : ApplyResult) (w : World Cluster) : ApplyResult * World Cluster :=
  match actions with
  | [] => (result, w)
  | action :: rest =>
      match applyAction a action result w with
      | ((result', w'), Break) => (result', w')
      | ((result', w'), Next) => applyLoop a rest result' w'
      end
  end.

(** [Applier.Apply]. The plan is a pointer: [None] is [nil]. *)
Definition Apply (a : Applier) (plan : option types.Plan) (w : World Cluster)
    : Result ApplyResult * World Cluster :=
  match plan with
  | None => (Err "plan cannot be nil", w)
  | Some plan =>
      let result :=
        {| res_TotalActions := Z.of_nat (length (plan_Actions plan));
           res_Succeeded := 0; res_Failed := 0; res_Skipped := 0;
           res_Actions := []; res_ExitCode := 0 |} in
      let '(result, w) := applyLoop a (plan_Actions plan) result w in
      (Ok {| res_TotalActions := res_TotalActions result;
             res_Succeeded := res_Succeeded result;
             res_Failed := res_Failed result;
             res_Skipped := res_Skipped result;
             res_Actions := res_Actions result;
             res_ExitCode := calculateExitCode result |}, w)
  end.

End Apply.

End applier.
Import applier.

(** ** pkg/planner: topological ordering *)

Module topo.

(** [sort.Strings]: ascending bytewise order. Equal strings are the same
    value, so every sorting algorithm returns the same slice. *)
Definition sortStrings (l : list string) : list string :=
  SliceStable String.ltb l.

(** The [ownerRefs] argument, a [map[string][]string], as its entries in the
    order the [range] loop of [TopologicalSort] visits them. Go leaves that
    order unspecified, and the loop reads the in-degree map it is writing, so
    the order is part of the input. *)
Definition OwnerRefs := list (string * list string).

(** [m[k]] on a Go map: the zero value when the key is absent. *)
Definition degreeOf (inDegree : gmap string Z) (key : string) : Z :=
  default 0 (inDegree !! key).

Definition dependentsOf (dependents : gmap string (list string))
    (key : string) : list string :=
  default [] (dependents !! key).

Definition isSeen (seen : gmap string bool) (key : string) : bool :=
  default false (seen !! key).

(** First loop: every action's key enters the in-degree map at 0. *)
Definition initInDegree (actions : list Action) : gmap string Z :=
  fold_left
    (fun inDegree action =>
       let key := resourceKey (act_Target action) in
       match inDegree !! key with
       | Some _ => inDegree
       | None => <[key := 0]> inDegree
       end)
    actions ∅.

(** Second loop: for each owner of [key] that is in the in-degree map,
    [inDegree[key]++] and [key] joins the owner's dependents. *)
Definition addOwners (key : string) (owners : list string)
    (st : gmap string Z * gmap string (list string))
    : gmap string Z * gmap string (list string) :=
  fold_left
    (fun '(inDegree, dependents) owner =>
       match inDegree !! owner with
       | Some _ =>
           (<[key := degreeOf inDegree key + 1]> inDegree,
            <[owner := (dependentsOf dependents owner ++ [key])%list]> dependents)
       | None => (inDegree, dependents)
       end)
    owners st.

Definition buildGraph (actions : list Action) (ownerRefs : OwnerRefs)
    : gmap string Z * gmap string (list string) :=
  fold_left (fun st '(key, owners) => addOwners key owners st)
            ownerRefs (initInDegree actions, ∅).

(** The keys of in-degree zero, sorted. *)
Definition readyKeys (inDegree : gmap string Z) : list string :=
  sortStrings
    (List.map fst
       (List.filter (fun '(_, degree) => degree =? 0) (map_to_list inDegree))).

(** The inner loop of Kahn's algorithm over [dependents[current]]. *)
Definition release (deps : list string)
    (st : gmap string Z * list string) : gmap string Z * list string :=
  fold_left
    (fun '(inDegree, queue) dep =>
       let degree := degreeOf inDegree dep - 1 in
       let inDegree := <[dep := degree]> inDegree in
       if degree =? 0 then (inDegree, (queue ++ [dep])%list)
       else (inDegree, queue))
    deps st.

(** The loop [for len(queue) > 0]. [fuel] bounds the number of iterations;
    [None] means the bound was reached with the queue not yet empty. *)
Fixpoint kahn (fuel : nat) (dependents : gmap string (list string))
    (queue : list string) (inDegree : gmap string Z)
    (sortedKeys : list string) : option (list string) :=
  match queue with
  | [] => Some sortedKeys
  | current :: queue =>
      match fuel with
      | O => None
      | S fuel =>
          let sortedKeys := (sortedKeys ++ [current])%list in
          let '(inDegree, queue) :=
            release (dependentsOf dependents current) (inDegree, queue) in
          kahn fuel dependents (sortStrings queue) inDegree sortedKeys
      end
  end.

(** The sum of the positive in-degrees. Each iteration of the loop of
    [kahn] takes one key off the queue, and a key is put on the queue only
    when a positive in-degree drops to zero. *)
Definition pending (inDegree : gmap string Z) : nat :=
  map_fold (fun _ degree acc => (Z.to_nat degree + acc)%nat) 0%nat inDegree.

Definition kahnFuel (queue : list string) (inDegree : gmap string Z) : nat :=
  (length queue + pending inDegree)%nat.

(** The keys in the order Kahn's algorithm emits them (owners first). *)
Definition kahnKeys (actions : list Action) (ownerRefs : OwnerRefs)
    : option (list string) :=
  let '(inDegree, dependents) := buildGraph actions ownerRefs in
  let queue := readyKeys inDegree in
  kahn (kahnFuel queue inDegree) dependents queue inDegree [].

Definition buildActionMap (actions : list Action) : gmap string Action :=
  fold_left
    (fun actionMap action =>
       <[resourceKey (act_Target action) := action]> actionMap)
    actions ∅.

(** One step of "Map sorted keys back to actions". *)
Definition pickStep (actionMap : gmap string Action)
    (st : list Action * gmap string bool) (key : string)
    : list Action * gmap string bool :=
  let '(result, seen) := st in
  match actionMap !! key with
  | Some action =>
      if negb (isSeen seen key)
      then ((result ++ [action])%list, <[key := true]> seen)
      else (result, seen)
  | None => (result, seen)
  end.

Definition pickSorted (actionMap : gmap string Action)
    (sortedKeys : list string) : list Action * gmap string bool :=
  fold_left (pickStep actionMap) sortedKeys ([], ∅).

(** "Add any actions not in the sorted list". *)
Definition addUnseen (actions : list Action) (seen : gmap string bool)
    : list Action :=
  List.filter (fun action => negb (isSeen seen (resourceKey (act_Target action))))
              actions.

(** [TopologicalSort]. [None] stands for a run of the Kahn loop that does
    not end within [kahnFuel]; [TopologicalSort_total] shows there is none. *)
Definition TopologicalSort (actions : list Action) (ownerRefs : OwnerRefs)
    : option (list Action) :=
  match actions with
  | [] => Some actions
  | _ =>
      match ownerRefs with
      | [] => Some (OrderByDependencies actions)
      | _ =>
          match kahnKeys actions ownerRefs with
          | None => None
          | Some sortedKeys =>
              let sortedKeys := rev sortedKeys in
              let '(result, seen) :=
                pickSorted (buildActionMap actions) sortedKeys in
              Some (result ++ addUnseen actions seen)%list
          end
      end
  end.

End topo.
Import topo.

(** * Sample inputs, and the notions the statements use *)

(** A namespace stuck behind a discovery failure, with one blocker and a
    controller that is up: every level has something to emit. *)
Definition stuckNamespace : DiagnosisReport :=
  {| diag_Target := mkResourceRef "Namespace" "v1" EmptyString "cert-manager";
     diag_TargetType := TargetTypeNamespace;
     diag_Status := "Terminating";
     diag_RootCause := EmptyString;
     diag_Finalizers := ["kubernetes"];
     diag_Blockers :=
       [ mkBlocker
           (mkResourceRef "Certificate" "cert-manager.io/v1" EmptyString "web")
           ["finalizer.cert-manager.io"] true [] ];
     diag_DiscoveryFailures :=
       [ mkDiscoveryFailure "metrics.k8s.io/v1beta1" EmptyString
                            "the server is currently unable to handle the request" ];
     diag_Controllers :=
       [ mkControllerStatus "cert-manager" "cert-manager" true true EmptyString ];
     diag_InstanceCount := 0;
     diag_Recommendations := [] |}.

(** A healthy namespace, as [TestPlanner_Plan_HealthyNamespace] builds it. *)
Definition activeNamespace : DiagnosisReport :=
  {| diag_Target := mkResourceRef "Namespace" "v1" EmptyString "default";
     diag_TargetType := TargetTypeNamespace;
     diag_Status := "Active";
     diag_RootCause := EmptyString;
     diag_Finalizers := [];
     diag_Blockers := [];
     diag_DiscoveryFailures := [];
     diag_Controllers := [];
     diag_InstanceCount := 0;
     diag_Recommendations := [] |}.

(** A cluster in which every read and write succeeds at once and no object
    carries a finalizer. *)
Definition quietClient : Client unit :=
  {| Namespaces_Get := fun _ c => (Ok (mkNamespaceObj [] [] None "Active"), c);
     Namespaces_Patch := fun _ c => (None, c);
     Namespaces_Delete := fun _ c => (None, c);
     Namespaces_Finalize := fun _ _ c => (None, c);
     CRDs_Get := fun _ c => (Ok (mkCRDObj [] None), c);
     CRDs_Patch := fun _ c => (None, c);
     CRDs_Delete := fun _ c => (None, c);
     Dynamic_Get := fun _ _ _ c => (Ok (mkDynamicObj [] EmptyString), c);
     Dynamic_Patch := fun _ _ _ c => (None, c);
     Dynamic_Delete := fun _ _ _ c => (None, c) |}.

(** A cluster whose finalizers never go away: writes succeed, and every
    object read back still carries one. *)
Definition stubbornClient : Client unit :=
  {| Namespaces_Get :=
       fun _ c => (Ok (mkNamespaceObj ["kubernetes"] ["kubernetes"] None
                                      "Terminating"), c);
     Namespaces_Patch := fun _ c => (None, c);
     Namespaces_Delete := fun _ c => (None, c);
     Namespaces_Finalize := fun _ _ c => (None, c);
     CRDs_Get := fun _ c => (Ok (mkCRDObj ["cleanup"] None), c);
     CRDs_Patch := fun _ c => (None, c);
     CRDs_Delete := fun _ c => (None, c);
     Dynamic_Get := fun _ _ _ c => (Ok (mkDynamicObj ["keep"] EmptyString), c);
     Dynamic_Patch := fun _ _ _ c => (None, c);
     Dynamic_Delete := fun _ _ _ c => (None, c) |}.

(** A plan with no action, as [Plan] returns it for a healthy target. *)
Definition emptyPlan : types.Plan :=
  {| plan_Target := mkResourceRef "Namespace" "v1" EmptyString "default";
     plan_RiskLevel := EmptyString;
     plan_MaxEscalation := EscalationFinalizer;
     plan_Actions := [];
     plan_Commands := [] |}.

(** The world before a run: the lines waiting on standard input, and no
    call made yet. *)
Definition freshWorld (input : list ScanResult) : World unit :=
  {| cluster := tt; stdin := input; calls := [] |}.

(** What a dry run records for an action. *)
Definition dryRunResult (action : Action) : ActionResult :=
  withOutcome (newActionResult action) true EmptyString.

(** A plan with one read-only action and one force-gated finalize. *)
Definition forcePlan : types.Plan :=
  {| plan_Target := mkResourceRef "Namespace" "v1" EmptyString "cert-manager";
     plan_RiskLevel := RiskCritical;
     plan_MaxEscalation := EscalationForce;
     plan_Actions :=
       [ setID (hd (forceFinalize "x") (infoActions (fun s => s) stuckNamespace))
               "action-001";
         setID (forceFinalize "cert-manager") "action-002" ];
     plan_Commands := [generateForceFinalize "cert-manager"] |}.

(** What the loop records for an action the operator declined. *)
Definition declined (action : Action) : ActionResult :=
  withOutcome (newActionResult action) false "skipped by user".

(** A plan of two level-2 patches. *)
Definition patchPlan : types.Plan :=
  {| plan_Target := mkResourceRef "Namespace" "v1" EmptyString "cert-manager";
     plan_RiskLevel := RiskMedium;
     plan_MaxEscalation := EscalationFinalizer;
     plan_Actions :=
       [ setID (finalizerRemovalAction
                  (mkBlocker (mkResourceRef "Pod" "v1" "cert-manager" "a")
                             ["keep"] true []) "cert-manager") "action-001";
         setID (finalizerRemovalAction
                  (mkBlocker (mkResourceRef "Pod" "v1" "cert-manager" "b")
                             ["keep"] true []) "cert-manager") "action-002" ];
     plan_Commands := [] |}.

(** "Appears in the edge map", in the words of the specification: the key
    is the key of an entry or among the owners of one. *)
Definition appearsIn (ownerRefs : OwnerRefs) (key : string) : bool :=
  existsb
    (fun '(k, owners) => String.eqb k key || existsb (String.eqb key) owners)
    ownerRefs.

(** The actions whose key never appears in the edge map, in input order:
    the tail the specification expects. *)
Definition unmapped (ownerRefs : OwnerRefs) (actions : list Action)
    : list Action :=
  List.filter
    (fun a => negb (appearsIn ownerRefs (resourceKey (act_Target a))))
    actions.

(** The level-2 patch of a pod, with its ID. *)
Definition podPatch (id name : string) : Action :=
  setID (finalizerRemovalAction
           (mkBlocker (mkResourceRef "Pod" "v1" EmptyString name)
                      ["keep"] true []) EmptyString) id.

(** Three pods; with [aOwnedByB], pod c is in no edge. *)
Definition threePods : list Action :=
  [podPatch "action-001" "a"; podPatch "action-002" "b";
   podPatch "action-003" "c"].

(** The only edge: pod a is owned by pod b. *)
Definition aOwnedByB : OwnerRefs := [("Pod/a", ["Pod/b"])].

(** Under the comparison [less], [a] may stand before [b]: [b] is not below
    [a]. *)
Definition notAfter {A : Type} (less : A -> A -> bool) (a b : A) : Prop :=
  less b a = false.

(** [a] and [b] have the same rank: neither is below the other. *)
Definition sameRank {A : Type} (less : A -> A -> bool) (a b : A) : bool :=
  negb (less a b) && negb (less b a).

(** What the planner fixes for an action by its level. *)
Definition byLevel (a : Action) : Prop :=
  0 <= act_EscalationLevel a <= 4
  /\ act_Risk a = RiskLevelFromEscalation (act_EscalationLevel a)
  /\ act_RequiresForce a = RequiresForce (act_EscalationLevel a)
  /\ String.eqb (act_Command a) EmptyString = (act_EscalationLevel a <? 2)
  /\ (act_EscalationLevel a = 0 ->
      act_Type a = ActionInspect \/ act_Type a = ActionList)
  /\ (act_EscalationLevel a = 1 -> act_Type a = ActionWait)
  /\ (act_EscalationLevel a = 2 \/ act_EscalationLevel a = 3 ->
      act_Type a = ActionPatch)
  /\ (act_EscalationLevel a = 4 -> act_Type a = ActionFinalize).

(** What one iteration of the run loop does to the result: it appends one
    [ActionResult] for its action and moves exactly one counter by one; only
    a failure can end the loop, and only with [continueOnError] off. *)
Definition stepOutcome (a : Applier) (action : Action)
    (result result' : ApplyResult) (ctl : Control) : Prop :=
  exists ar,
    res_Actions result' = (res_Actions result ++ [ar])%list
    /\ ar_Action ar = action
    /\ res_TotalActions result' = res_TotalActions result
    /\ ((ar_Success ar = true
         /\ res_Succeeded result' = res_Succeeded result + 1
         /\ res_Failed result' = res_Failed result
         /\ res_Skipped result' = res_Skipped result
         /\ ctl = Next)
        \/ (ar_Success ar = false
            /\ res_Succeeded result' = res_Succeeded result
            /\ res_Failed result' = res_Failed result + 1
            /\ res_Skipped result' = res_Skipped result
            /\ (ctl = Break -> continueOnError a = false))
        \/ (ar_Success ar = false
            /\ res_Succeeded result' = res_Succeeded result
            /\ res_Failed result' = res_Failed result
            /\ res_Skipped result' = res_Skipped result + 1
            /\ ctl = Next)).

(** A call that is not the confirmation prompt. *)
Definition notConfirm (c : Call) : Prop :=
  match c with
  | CallConfirm _ => False
  | _ => True
  end.

(** From [w] to [w'] nothing was read from standard input and no prompt was
    shown: the input is as it was and the calls added are executor calls. *)
Definition noPrompt {Cluster : Type} (w w' : World Cluster) : Prop :=
  stdin w' = stdin w
  /\ exists added, calls w' = (calls w ++ added)%list
                   /\ Forall notConfirm added.

(** The action types [Execute] and [Verify] treat as read-only. *)
Definition readOnlyType (t : ActionType) : bool :=
  String.eqb t ActionInspect || String.eqb t ActionList
  || String.eqb t ActionWait.

(** A plan of the two read-only actions every diagnosis starts with. *)
Definition inspectPlan : types.Plan :=
  {| plan_Target := diag_Target stuckNamespace;
     plan_RiskLevel := RiskNone;
     plan_MaxEscalation := EscalationInfo;
     plan_Actions := assignIDs (infoActions (fun s => s) stuckNamespace);
     plan_Commands := [] |}.

(** ** pkg/planner: the counting helpers of the risk classifier *)

(** [CountActionsByLevel]. [counts[k]++] on a key that is absent writes 1. *)
Definition CountActionsByLevel (actions : list Action)
    : gmap EscalationLevel Z :=
  fold_left
    (fun counts action =>
       <[act_EscalationLevel action :=
           default 0 (counts !! act_EscalationLevel action) + 1]> counts)
    actions ∅.

(** [SummaryByRisk] *)
Definition SummaryByRisk (actions : list Action) : gmap RiskLevel Z :=
  fold_left
    (fun summary action =>
       <[act_Risk action := default 0 (summary !! act_Risk action) + 1]>
         summary)
    actions ∅.

(** The sum of the counts of a map. *)
Definition total {K : Type} `{Countable K} (counts : gmap K Z) : Z :=
  map_fold (fun _ v acc => v + acc) 0 counts.

(** How often [k] stands among the dependents of the owners [os]. *)
Definition sumOcc (dependents : gmap string (list string)) (k : string)
    (os : list string) : nat :=
  fold_right
    (fun o acc => (count_occ string_dec (dependentsOf dependents o) k + acc)%nat)
    0%nat os.

(** [x] stands before [y] in [l]. *)
Definition precedes {A : Type} (l : list A) (x y : A) : Prop :=
  exists l1 l2 l3, l = (l1 ++ x :: l2 ++ y :: l3)%list.

(** The action a key stands for, as a list. *)
Definition pick (actionMap : gmap string Action) (key : string)
    : list Action :=
  match actionMap !! key with Some action => [action] | None => [] end.

(** What holds at the head of the loop of Kahn's algorithm, with [done] the
    keys emitted so far: no key is emitted or queued twice; emitted and queued
    keys have in-degree zero; an in-degree is at least the number of times
    its key is listed under owners not yet emitted; and every emitted key
    follows the owners it is listed under. *)
Definition kahnInv (dependents : gmap string (list string))
    (queue : list string) (inDegree : gmap string Z) (done : list string)
    : Prop :=
  List.NoDup (done ++ queue)
  /\ (forall k, List.In k (done ++ queue) -> degreeOf inDegree k = 0)
  /\ (forall k os, List.NoDup os ->
                   (forall o, List.In o os -> ~ List.In o done) ->
                   Z.of_nat (sumOcc dependents k os) <= degreeOf inDegree k)
  /\ (forall k o, List.In k done ->
                  List.In k (dependentsOf dependents o) ->
                  precedes done o k).

(** What the second loop of [TopologicalSort] keeps: an in-degree is at
    least the number of times its key is listed under any distinct owners. *)
Definition graphInv (st : gmap string Z * gmap string (list string)) : Prop :=
  forall k os, List.NoDup os ->
               Z.of_nat (sumOcc (snd st) k os) <= degreeOf (fst st) k.

(** A cluster client whose calls on the write path of the planner's actions
    succeed: patches, and the get and finalize of a namespace. *)
Definition obliging {Cluster : Type} (client : Client Cluster) : Prop :=
  (forall name c, exists ns c',
      Namespaces_Get client name c = (Ok ns, c'))
  /\ (forall name c, fst (Namespaces_Patch client name c) = None)
  /\ (forall name ns c, fst (Namespaces_Finalize client name ns c) = None)
  /\ (forall name c, fst (CRDs_Patch client name c) = None)
  /\ (forall gvr ns name c, fst (Dynamic_Patch client gvr ns name c) = None).

(** The actions [Execute] has a case for that does not fail on its own:
    read-only ones, patches, and the finalize of a namespace. *)
Definition executable (a : Action) : Prop :=
  readOnlyType (act_Type a) = true
  \/ act_Type a = ActionPatch
  \/ (act_Type a = ActionFinalize
      /\ ref_Kind (act_Target a) = "Namespace").

(** Kind, namespace and name of a reference hold no slash. *)
Definition slashFree (ref : ResourceRef) : Prop :=
  strings.Contains (ref_Kind ref) "/" = false
  /\ strings.Contains (ref_Namespace ref) "/" = false
  /\ strings.Contains (ref_Name ref) "/" = false.

(** * Properties of the planner *)

Section OrderingFacts.

Context {A : Type} (less : A -> A -> bool).

Lemma insertStable_Permutation (x : A) (l : list A) :
  Permutation (insertStable less x l) (x :: l).
Proof.
  induction l as [|y r IH]; simpl; [reflexivity|].
  destruct (less y x); [|reflexivity].
  rewrite IH. apply perm_swap.
Qed.

Lemma SliceStable_Permutation (l : list A) :
  Permutation (SliceStable less l) l.
Proof.
  induction l as [|x r IH]; simpl; [reflexivity|].
  rewrite insertStable_Permutation. now apply perm_skip.
Qed.

End OrderingFacts.

Lemma OrderByDependencies_Permutation (actions : list Action) :
  Permutation (OrderByDependencies actions) actions.
Proof.
  destruct actions as [|a r]; [reflexivity|].
  apply SliceStable_Permutation.
Qed.

(** Assigning IDs touches the [ID] field only. *)
Lemma imap_setID_Forall (P : Action -> Prop) (mk : nat -> string)
    (l : list Action) :
  (forall a id, P a -> P (setID a id)) ->
  Forall P l -> Forall P (imap (fun i a => setID a (mk i)) l).
Proof.
  intros Hset H. revert mk.
  induction H as [|a r Ha Hr IH]; intros mk; simpl; constructor.
  - now apply Hset.
  - apply (IH (fun i => mk (S i))).
Qed.

Lemma assignIDs_Forall (P : Action -> Prop) (l : list Action) :
  (forall a id, P a -> P (setID a id)) ->
  Forall P l -> Forall P (assignIDs l).
Proof.
  intros Hset H. unfold assignIDs.
  apply (imap_setID_Forall P (fun i => "action-" +:+ fmt.d03 (S i)) l Hset H).
Qed.

Section PlanFacts.

Variable Quote : string -> string.

(** What [Plan] returns for a diagnosis that is not healthy. *)
Lemma Plan_unhealthy (p : Planner) (d : DiagnosisReport) :
  IsHealthy d = false ->
  exists plan,
    Plan Quote p (Some d) = Ok plan /\
    plan_Actions plan
    = assignIDs (OrderByDependencies (levelActions Quote p d)).
Proof.
  intros Hh. unfold Plan. rewrite Hh. eexists. split; reflexivity.
Qed.

Lemma Plan_healthy (p : Planner) (d : DiagnosisReport) :
  IsHealthy d = true ->
  Plan Quote p (Some d)
  = Ok {| plan_Target := diag_Target d;
          plan_RiskLevel := EmptyString;
          plan_MaxEscalation := maxEscalation p;
          plan_Actions := [];
          plan_Commands := [] |}.
Proof. intros Hh. unfold Plan. now rewrite Hh. Qed.

(** A property of the escalation level that holds of every action the levels
    emit holds of every action of the plan. *)
Lemma Plan_actions_Forall (P : EscalationLevel -> Prop) (p : Planner)
    (d : DiagnosisReport) :
  Forall (fun a => P (act_EscalationLevel a)) (levelActions Quote p d) ->
  exists plan,
    Plan Quote p (Some d) = Ok plan /\
    Forall (fun a => P (act_EscalationLevel a)) (plan_Actions plan).
Proof.
  intros H. destruct (IsHealthy d) eqn:Hh.
  - eexists. split; [now apply Plan_healthy|]. constructor.
  - destruct (Plan_unhealthy p d Hh) as (plan & Hp & Ha).
    exists plan. split; [exact Hp|]. rewrite Ha.
    apply assignIDs_Forall; [intros a id Hx; exact Hx|].
    eapply Permutation_Forall; [|exact H].
    symmetry. apply OrderByDependencies_Permutation.
Qed.

Lemma infoActions_level (d : DiagnosisReport) :
  Forall (fun a => act_EscalationLevel a = EscalationInfo)
         (infoActions Quote d).
Proof.
  unfold infoActions. apply Forall_app. split.
  - repeat constructor.
  - destruct (0 <? length (diag_Blockers d))%nat; repeat constructor.
Qed.

Lemma cleanPathActions_level (d : DiagnosisReport) :
  Forall (fun a => act_EscalationLevel a = EscalationClean)
         (cleanPathActions d).
Proof. repeat constructor. Qed.

Lemma finalizerRemoval_level (ns : string) (bs : list Blocker) :
  Forall (fun a => act_EscalationLevel a = EscalationFinalizer)
         (List.map (fun b => finalizerRemovalAction b ns) bs).
Proof.
  induction bs as [|b r IH]; simpl; constructor; [reflexivity|exact IH].
Qed.

(** Each level's actions, with the gate that let them in. *)
Lemma levelActions_gates (p : Planner) (d : DiagnosisReport) :
  Forall (fun a =>
            act_EscalationLevel a = EscalationInfo
            \/ (act_EscalationLevel a = EscalationClean
                /\ EscalationClean <= maxEscalation p)
            \/ (act_EscalationLevel a = EscalationFinalizer
                /\ EscalationFinalizer <= maxEscalation p)
            \/ (act_EscalationLevel a = EscalationCRD
                /\ EscalationCRD <= maxEscalation p /\ allowForce p = true)
            \/ (act_EscalationLevel a = EscalationForce
                /\ EscalationForce <= maxEscalation p /\ allowForce p = true))
         (levelActions Quote p d).
Proof.
  unfold levelActions.
  apply Forall_app; split; [|apply Forall_app; split;
    [|apply Forall_app; split; [|apply Forall_app; split]]].
  - eapply Forall_impl; [apply infoActions_level|].
    intros a Ha. now left.
  - destruct (EscalationClean <=? maxEscalation p) eqn:E;
      [|constructor].
    destruct (hasAvailableController d); [|constructor].
    apply Z.leb_le in E.
    eapply Forall_impl; [apply cleanPathActions_level|].
    intros a Ha. right; left. now split.
  - destruct (EscalationFinalizer <=? maxEscalation p) eqn:E;
      [|constructor].
    apply Z.leb_le in E.
    eapply Forall_impl; [apply finalizerRemoval_level|].
    intros a Ha. right; right; left. now split.
  - destruct (EscalationCRD <=? maxEscalation p) eqn:E; [|constructor].
    destruct (allowForce p) eqn:F; [|constructor].
    destruct (String.eqb _ _); [|constructor].
    apply Z.leb_le in E. constructor; [|constructor].
    right; right; right; left. now repeat split.
  - destruct (EscalationForce <=? maxEscalation p) eqn:E; [|constructor].
    destruct (allowForce p) eqn:F; [|constructor].
    destruct (_ && _); [|constructor].
    apply Z.leb_le in E. constructor; [|constructor].
    right; right; right; right. now repeat split.
Qed.

Lemma levelActions_no_force (p : Planner) (d : DiagnosisReport) :
  allowForce p = false ->
  Forall (fun a => act_EscalationLevel a < EscalationCRD)
         (levelActions Quote p d).
Proof.
  intros Hf. eapply Forall_impl; [apply levelActions_gates|].
  unfold EscalationInfo, EscalationClean, EscalationFinalizer, EscalationCRD,
    EscalationForce.
  intros a [H|[[H _]|[[H _]|[(_ & _ & H)|(_ & _ & H)]]]];
    try congruence; lia.
Qed.

Lemma levelActions_le_ceiling (p : Planner) (d : DiagnosisReport) :
  0 <= maxEscalation p ->
  Forall (fun a => act_EscalationLevel a <= maxEscalation p)
         (levelActions Quote p d).
Proof.
  intros H0. eapply Forall_impl; [apply levelActions_gates|].
  unfold EscalationInfo.
  intros a [H|[[H G]|[[H G]|[(H & G & _)|(H & G & _)]]]]; lia.
Qed.

End PlanFacts.

(** ** Plan generation: force gating, healthy targets, the ceiling *)

(** C1. Force gating: with [allowForce = false], [Plan] returns a plan, and
    no action of it has an escalation level of 3 ([EscalationCRD]) or more,
    whatever [maxEscalation] is. *)
Theorem C1_force_gating (Quote : string -> string) (p : Planner)
    (d : DiagnosisReport) :
  allowForce p = false ->
  exists plan,
    Plan Quote p (Some d) = Ok plan /\
    Forall (fun a => act_EscalationLevel a < EscalationCRD) (plan_Actions plan) /\
    List.filter (fun a => RequiresForce (act_EscalationLevel a))
                (plan_Actions plan) = [].
Proof.
  intros Hf.
  destruct (Plan_actions_Forall Quote (fun l => l < EscalationCRD) p d
              (levelActions_no_force Quote p d Hf)) as (plan & Hp & Hall).
  exists plan. split; [exact Hp|]. split; [exact Hall|].
  induction Hall as [|a r Ha Hr IH]; [reflexivity|].
  simpl. unfold RequiresForce at 1.
  destruct (EscalationCRD <=? act_EscalationLevel a) eqn:E.
  - apply Z.leb_le in E. lia.
  - exact IH.
Qed.

(** C1 at a ceiling of 4 with force off, on the stuck namespace. *)
Lemma C1_force_gating_witness :
  exists plan,
    Plan (fun s => s) (mkPlanner EscalationForce false) (Some stuckNamespace)
    = Ok plan /\
    Forall (fun a => act_EscalationLevel a < EscalationCRD) (plan_Actions plan) /\
    List.filter (fun a => RequiresForce (act_EscalationLevel a))
                (plan_Actions plan) = [].
Proof.
  apply (C1_force_gating (fun s => s) (mkPlanner EscalationForce false)
           stuckNamespace).
  reflexivity.
Defined.

(** C2. Healthy short-circuit, as the code has it: for a status of
    "Active", "Bound" or the empty string [Plan] returns a plan with no
    action and no command, and the plan's risk level is the zero value of
    [RiskLevel], the empty string, which is not [RiskNone] ("none"): the
    early return leaves the field as the literal built it. *)
Theorem C2_healthy_plan (Quote : string -> string) (p : Planner)
    (d : DiagnosisReport) :
  diag_Status d = "Active" \/ diag_Status d = "Bound"
  \/ diag_Status d = EmptyString ->
  exists plan,
    Plan Quote p (Some d) = Ok plan /\
    plan_Actions plan = [] /\
    plan_Commands plan = [] /\
    plan_RiskLevel plan = EmptyString /\
    plan_RiskLevel plan <> RiskNone /\
    CalculateRiskLevel (plan_Actions plan) = RiskNone.
Proof.
  intros Hs.
  assert (Hh : IsHealthy d = true).
  { unfold IsHealthy. destruct Hs as [->|[->| ->]]; reflexivity. }
  eexists. split; [apply (Plan_healthy Quote p d Hh)|].
  simpl. repeat split. discriminate.
Qed.

(** C2 on the active namespace. *)
Lemma C2_healthy_plan_witness :
  exists plan,
    Plan (fun s => s) (mkPlanner EscalationFinalizer false)
         (Some activeNamespace) = Ok plan /\
    plan_Actions plan = [] /\
    plan_Commands plan = [] /\
    plan_RiskLevel plan = EmptyString /\
    plan_RiskLevel plan <> RiskNone /\
    CalculateRiskLevel (plan_Actions plan) = RiskNone.
Proof.
  apply (C2_healthy_plan (fun s => s) (mkPlanner EscalationFinalizer false)
           activeNamespace).
  left. reflexivity.
Defined.




(** ** The resource priority table *)

Lemma caseOf_In (k : string) (labels : list string) :
  caseOf k labels = true <-> List.In k labels.
Proof.
  unfold caseOf. rewrite existsb_exists. split.
  - intros (x & Hx & E). apply String.eqb_eq in E. now subst.
  - intros H. exists k. split; [exact H|apply String.eqb_refl].
Qed.

Lemma caseOf_not_In (k : string) (labels : list string) :
  ~ List.In k labels -> caseOf k labels = false.
Proof.
  intros H. destruct (caseOf k labels) eqn:E; [|reflexivity].
  apply caseOf_In in E. contradiction.
Qed.

(** C7, as stated, fails at the kind "endpoint": it is in none of the
    lists the specification gives, and its priority is 10, not 50. *)
Lemma C7_counterexample :
  ~ (forall kind : string,
       ~ List.In (strings.ToLower kind)
           ["pod"; "configmap"; "secret"; "service"; "endpoints";
            "deployment"; "statefulset"; "daemonset"; "replicaset"; "job";
            "cronjob"; "certificate"; "issuer"; "clusterissuer";
            "customresourcedefinition"; "namespace"] ->
       resourcePriority kind = 50).
Proof.
  intros H. specialize (H "endpoint").
  assert (Hp : resourcePriority "endpoint" = 10) by reflexivity.
  rewrite Hp in H. discriminate H.
  simpl. intros Hin.
  repeat (destruct Hin as [Hin|Hin]; [discriminate Hin|]).
  exact Hin.
Qed.

(** C7. [resourcePriority] is a fixed table on the lower-cased kind: pod,
    configmap, secret, service, endpoint and endpoints map to 10;
    deployment, statefulset, daemonset, replicaset, job and cronjob to 20;
    certificate, issuer and clusterissuer to 30; customresourcedefinition to
    100; namespace to 200; every other kind to 50. Two kinds that differ in
    letter case only have the same priority. *)
Theorem C7_resourcePriority_table (kind : string) :
  let k := strings.ToLower kind in
  (List.In k ["pod"; "configmap"; "secret"; "service"; "endpoint";
              "endpoints"] ->
   resourcePriority kind = 10)
  /\ (List.In k ["deployment"; "statefulset"; "daemonset"; "replicaset";
                 "job"; "cronjob"] ->
      resourcePriority kind = 20)
  /\ (List.In k ["certificate"; "issuer"; "clusterissuer"] ->
      resourcePriority kind = 30)
  /\ (k = "customresourcedefinition" -> resourcePriority kind = 100)
  /\ (k = "namespace" -> resourcePriority kind = 200)
  /\ (~ List.In k ["pod"; "configmap"; "secret"; "service"; "endpoint";
                   "endpoints"; "deployment"; "statefulset"; "daemonset";
                   "replicaset"; "job"; "cronjob"; "certificate"; "issuer";
                   "clusterissuer"; "customresourcedefinition";
                   "namespace"] ->
      resourcePriority kind = 50)
  /\ (forall kind' : string,
        strings.ToLower kind' = strings.ToLower kind ->
        resourcePriority kind' = resourcePriority kind).
Proof.
  intros k. unfold resourcePriority. fold k.
  repeat split.
  - intros H. change (List.In k leafKinds) in H.
    apply caseOf_In in H. now rewrite H.
  - intros H. simpl in H.
    repeat (destruct H as [H|H]; [rewrite <- H; reflexivity|]).
    contradiction.
  - intros H. simpl in H.
    repeat (destruct H as [H|H]; [rewrite <- H; reflexivity|]).
    contradiction.
  - intros ->. reflexivity.
  - intros ->. reflexivity.
  - intros H.
    change (~ List.In k (leafKinds ++ controllerKinds ++ customKinds
                         ++ ["customresourcedefinition"; "namespace"])) in H.
    rewrite !in_app_iff in H.
    rewrite (caseOf_not_In k leafKinds) by tauto.
    rewrite (caseOf_not_In k controllerKinds) by tauto.
    rewrite (caseOf_not_In k customKinds) by tauto.
    rewrite (caseOf_not_In k ["customresourcedefinition"])
      by (simpl in *; tauto).
    rewrite (caseOf_not_In k ["namespace"]) by (simpl in *; tauto).
    reflexivity.
  - intros kind' E. now rewrite E.
Qed.

(** * Properties of the run loop *)

(** ** The exit code *)

Lemma calculateExitCode_spec (r : ApplyResult) :
  (calculateExitCode r = 0 <-> res_Failed r = 0 /\ res_Skipped r = 0)
  /\ (calculateExitCode r = 1 <->
      res_Succeeded r = 0 /\ ~ (res_Failed r = 0 /\ res_Skipped r = 0))
  /\ (calculateExitCode r = 2 <->
      res_Succeeded r <> 0 /\ ~ (res_Failed r = 0 /\ res_Skipped r = 0)).
Proof.
  unfold calculateExitCode.
  destruct (res_Failed r =? 0) eqn:F; destruct (res_Skipped r =? 0) eqn:K;
    destruct (res_Succeeded r =? 0) eqn:S; simpl;
    rewrite ?Z.eqb_eq, ?Z.eqb_neq in *; intuition lia.
Qed.

(** C4, as stated, contradicts itself on the empty plan: there
    [succeeded = 0], and the exit code is 0, not 1. *)
Lemma C4_counterexample :
  ~ (forall (Cluster : Type) (client : Client Cluster) (a : Applier)
            (plan : types.Plan) (w w' : World Cluster) (r : ApplyResult),
       Apply client a (Some plan) w = (Ok r, w') ->
       (res_ExitCode r = 1 <-> res_Succeeded r = 0)).
Proof.
  intros H.
  specialize (H unit quietClient (mkApplier false false false false)
                emptyPlan (freshWorld []) _ _ eq_refl).
  simpl in H. destruct H as [_ H]. specialize (H eq_refl). discriminate H.
Qed.

(** C4. The exit code [Apply] computes is 0 iff [failed = 0] and
    [skipped = 0]; it is 1 iff [succeeded = 0] and not both of [failed] and
    [skipped] are 0; otherwise it is 2. An empty plan yields zero totals and
    exit code 0. *)
Theorem C4_exit_code {Cluster : Type} (client : Client Cluster) (a : Applier)
    (plan : types.Plan) (w : World Cluster) :
  exists (r : ApplyResult) (w' : World Cluster),
    Apply client a (Some plan) w = (Ok r, w')
    /\ (res_ExitCode r = 0 <-> res_Failed r = 0 /\ res_Skipped r = 0)
    /\ (res_ExitCode r = 1 <->
        res_Succeeded r = 0 /\ ~ (res_Failed r = 0 /\ res_Skipped r = 0))
    /\ (res_ExitCode r = 2 <->
        res_Succeeded r <> 0 /\ ~ (res_Failed r = 0 /\ res_Skipped r = 0))
    /\ (plan_Actions plan = [] ->
        res_TotalActions r = 0 /\ res_Succeeded r = 0 /\ res_Failed r = 0
        /\ res_Skipped r = 0 /\ res_Actions r = [] /\ res_ExitCode r = 0).
Proof.
  unfold Apply.
  destruct (applyLoop client a (plan_Actions plan) _ w) as [res w'] eqn:E.
  eexists. eexists. split; [reflexivity|]. simpl.
  destruct (calculateExitCode_spec res) as (H0 & H1 & H2).
  split; [exact H0|]. split; [exact H1|]. split; [exact H2|].
  intros Hnil. rewrite Hnil in E. simpl in E. inversion E. subst res.
  repeat split.
Qed.

(** ** Dry run *)

Section RunLoopFacts.

Context {Cluster : Type} (client : Client Cluster).

Lemma applyAction_dryRun (a : Applier) (action : Action)
    (result : ApplyResult) (w : World Cluster) :
  dryRun a = true ->
  applyAction client a action result w
  = ((appendResult (countSucceeded result) (dryRunResult action), w), Next).
Proof.
  intros Hd. unfold applyAction, needsConfirm. rewrite Hd. simpl.
  rewrite andb_false_r. simpl.
  unfold runAction, captureBefore. rewrite Hd. simpl.
  rewrite andb_false_r. reflexivity.
Qed.

Lemma applyLoop_dryRun (a : Applier) (actions : list Action)
    (result : ApplyResult) (w : World Cluster) :
  dryRun a = true ->
  applyLoop client a actions result w
  = ({| res_TotalActions := res_TotalActions result;
        res_Succeeded := res_Succeeded result + Z.of_nat (length actions);
        res_Failed := res_Failed result;
        res_Skipped := res_Skipped result;
        res_Actions := res_Actions result ++ List.map dryRunResult actions;
        res_ExitCode := res_ExitCode result |}, w).
Proof.
  intros Hd. revert result.
  induction actions as [|action rest IH]; intros result.
  - simpl. rewrite Z.add_0_r, app_nil_r. now destruct result.
  - cbn [applyLoop]. rewrite (applyAction_dryRun a action result w Hd).
    rewrite IH. cbn [appendResult countSucceeded res_TotalActions
      res_Succeeded res_Failed res_Skipped res_Actions res_ExitCode
      List.map length].
    f_equal. f_equal; [lia|]. now rewrite <- app_assoc.
Qed.

(** [runAction] never touches the skipped counter. *)
Lemma runAction_skipped (a : Applier) (action : Action) (ar : ActionResult)
    (result : ApplyResult) (w : World Cluster) :
  res_Skipped (fst (fst (runAction client a action ar result w)))
  = res_Skipped result.
Proof.
  unfold runAction.
  destruct (captureBefore client a action ar w) as [ar1 w1].
  destruct (dryRun a); [reflexivity|].
  destruct (Execute client action (cluster w1)) as [[e|] c1].
  - destruct (negb (continueOnError a)); reflexivity.
  - cbn [cluster setCluster].
    destruct (Verify client action c1) as [[verified [e|]] c2].
    + destruct (captureAfter client a action _ _) as [ar2 w2]. reflexivity.
    + destruct verified; cbn [negb];
        destruct (captureAfter client a action _ _) as [ar2 w2]; reflexivity.
Qed.

(** [confirm] returns no error, whatever it reads. *)
Lemma confirm_no_error (action : Action) (w : World Cluster) :
  snd (fst (confirm action w)) = None.
Proof.
  unfold confirm. destruct (stdin w) as [|scan rest]; simpl.
  - reflexivity.
  - destruct (scan_err scan) as [msg|]; [|reflexivity].
    destruct (negb (String.eqb msg "unexpected newline")); reflexivity.
Qed.

End RunLoopFacts.

(** C6. Dry-run purity: with [dryRun = true] every action of the plan is
    recorded as succeeded ([succeeded = totalActions], [failed = 0],
    [skipped = 0]), and the run makes no call at all on the executor or on
    the prompt: the world comes back as it was, call log included. *)
Theorem C6_dry_run_purity {Cluster : Type} (client : Client Cluster)
    (a : Applier) (plan : types.Plan) (w : World Cluster) :
  dryRun a = true ->
  exists r : ApplyResult,
    Apply client a (Some plan) w = (Ok r, w)
    /\ res_TotalActions r = Z.of_nat (length (plan_Actions plan))
    /\ res_Succeeded r = res_TotalActions r
    /\ res_Failed r = 0
    /\ res_Skipped r = 0
    /\ res_Actions r = List.map dryRunResult (plan_Actions plan)
    /\ res_ExitCode r = 0.
Proof.
  intros Hd. unfold Apply. rewrite (applyLoop_dryRun client a _ _ w Hd).
  eexists. split; [reflexivity|]. simpl. repeat split.
Qed.

(** C6 on a verbose dry run of a plan with a force-gated action. *)
Lemma C6_dry_run_purity_witness :
  exists r : ApplyResult,
    Apply stubbornClient (mkApplier true false false true) (Some forcePlan)
          (freshWorld [])
    = (Ok r, freshWorld [])
    /\ res_TotalActions r = Z.of_nat (length (plan_Actions forcePlan))
    /\ res_Succeeded r = res_TotalActions r
    /\ res_Failed r = 0
    /\ res_Skipped r = 0
    /\ res_Actions r = List.map dryRunResult (plan_Actions forcePlan)
    /\ res_ExitCode r = 0.
Proof.
  apply (C6_dry_run_purity stubbornClient (mkApplier true false false true)
           forcePlan (freshWorld [])).
  reflexivity.
Defined.

(** ** Confirmation *)

(** C5. For a force-gated action of a live run without auto-confirm, every
    outcome of the prompt that is not an accepted answer is a decline: a read
    error, the end of the input and any other answer make [confirm] return
    [(false, nil)]; [confirm] returns no error at all. A decline records the
    action as skipped, leaves [failed] alone, calls nothing on the executor,
    and the loop goes on with the next action. No other path of the loop
    body increments [skipped]. *)
Theorem C5_decline_is_skip {Cluster : Type} (client : Client Cluster)
    (a : Applier) (action : Action) (result : ApplyResult)
    (w : World Cluster) :
  let confirmed := fst (fst (confirm action w)) in
  let w1 := snd (confirm action w) in
  snd (fst (confirm action w)) = None
  /\ cluster w1 = cluster w
  /\ calls w1 = (calls w ++ [CallConfirm action])%list
  /\ (forall scan rest msg,
        stdin w = scan :: rest -> scan_err scan = Some msg ->
        msg <> "unexpected newline" -> confirmed = false)
  /\ (stdin w = [] -> confirmed = false)
  /\ (forall scan rest,
        stdin w = scan :: rest -> isYes (scan_response scan) = false ->
        confirmed = false)
  /\ (needsConfirm a action = true -> confirmed = false ->
      applyAction client a action result w
      = ((appendResult (countSkipped result) (declined action), w1), Next)
      /\ res_Skipped (appendResult (countSkipped result) (declined action))
         = res_Skipped result + 1
      /\ res_Failed (appendResult (countSkipped result) (declined action))
         = res_Failed result
      /\ forall rest,
           applyLoop client a (action :: rest) result w
           = applyLoop client a rest
               (appendResult (countSkipped result) (declined action)) w1)
  /\ res_Skipped (fst (fst (applyAction client a action result w)))
     = res_Skipped result
       + (if needsConfirm a action && negb confirmed then 1 else 0).
Proof.
  intros confirmed w1.
  assert (Herr := confirm_no_error action w).
  split; [exact Herr|].
  split; [subst w1; unfold confirm; destruct (stdin w) as [|s r]; simpl;
          [reflexivity|];
          destruct (scan_err s) as [m|]; [|reflexivity];
          destruct (negb (String.eqb m "unexpected newline")); reflexivity|].
  split; [subst w1; unfold confirm; destruct (stdin w) as [|s r]; simpl;
          [reflexivity|];
          destruct (scan_err s) as [m|]; [|reflexivity];
          destruct (negb (String.eqb m "unexpected newline")); reflexivity|].
  split.
  { intros scan rest msg Hin Hmsg Hne. subst confirmed. unfold confirm.
    rewrite Hin, Hmsg.
    destruct (String.eqb msg "unexpected newline") eqn:E.
    - apply String.eqb_eq in E. contradiction.
    - reflexivity. }
  split.
  { intros Hin. subst confirmed. unfold confirm. now rewrite Hin. }
  split.
  { intros scan rest Hin Hno. subst confirmed. unfold confirm. rewrite Hin.
    destruct (scan_err scan) as [m|]; [|exact Hno].
    destruct (negb (String.eqb m "unexpected newline")); [reflexivity|].
    exact Hno. }
  assert (Hstep :
    needsConfirm a action = true -> confirmed = false ->
    applyAction client a action result w
    = ((appendResult (countSkipped result) (declined action), w1), Next)).
  { intros Hneed Hno. unfold applyAction. rewrite Hneed.
    subst confirmed w1.
    destruct (confirm action w) as [[cf err] w'] eqn:Ec.
    simpl in Herr, Hno. subst err cf. reflexivity. }
  split.
  { intros Hneed Hno. split; [now apply Hstep|].
    split; [reflexivity|]. split; [reflexivity|].
    intros rest. cbn [applyLoop]. now rewrite (Hstep Hneed Hno). }
  destruct (needsConfirm a action) eqn:Hneed; cbn [andb].
  - destruct confirmed eqn:Hc; cbn [negb].
    + unfold applyAction. rewrite Hneed.
      subst confirmed.
      destruct (confirm action w) as [[cf err] w'] eqn:Ec.
      simpl in Herr, Hc. subst err cf. cbn [negb].
      rewrite runAction_skipped. lia.
    + rewrite (Hstep eq_refl eq_refl). reflexivity.
  - unfold applyAction. rewrite Hneed. rewrite runAction_skipped. lia.
Qed.

(** ** Verification failures and the early stop *)

Section EarlyStop.

Context {Cluster : Type} (client : Client Cluster).






End EarlyStop.


(** Two patches behind a cluster that keeps its finalizers: both fail their
    post-condition, and the second is still attempted although
    [continueOnError] is off. *)
Example verification_failures_do_not_stop :
  let r := fst (Apply stubbornClient (mkApplier false false false false)
                      (Some patchPlan) (freshWorld [])) in
  match r with
  | Ok r =>
      res_Failed r = 2 /\ res_Succeeded r = 0 /\ res_ExitCode r = 1
      /\ List.map ar_Error (res_Actions r)
         = ["post-condition not met"; "post-condition not met"]
  | Err _ => False
  end.
Proof. vm_compute. repeat split. Qed.

(** ** GVR resolution never fails *)

Lemma Split_nonempty (s : string) (sep : ascii) :
  (1 <= length (strings.Split s sep))%nat.
Proof.
  induction s as [|c r IH]; simpl; [lia|].
  destruct (Ascii.eqb c sep); simpl; [lia|].
  destruct (strings.Split r sep); simpl; lia.
Qed.

Lemma resolveGVR_ok (target : ResourceRef) :
  resolveGVR target = (fst (resolveGVR target), None).
Proof.
  unfold resolveGVR.
  destruct (length (strings.Split (gvOf target) "/") =? 1)%nat; reflexivity.
Qed.

(** C10. [resolveGVR] is total and never fails: for every [ResourceRef],
    empty kind or API version included, the two indices it takes into the
    split API version are in range and it returns a coordinate with a nil
    error. So the guards on its error are dead: the generic patch and delete
    go straight to the dynamic client, and [verifyDeleted],
    [verifyNoFinalizers] and [Snapshot] decide by the dynamic [Get] alone. *)
Theorem C10_resolveGVR_total {Cluster : Type} (client : Client Cluster)
    (target : ResourceRef) (c : Cluster) :
  let gvr := fst (resolveGVR target) in
  let parts := strings.Split (gvOf target) "/" in
  let generic :=
    String.eqb (ref_Kind target) "Namespace" = false
    /\ String.eqb (ref_Kind target) "CustomResourceDefinition" = false in
  let ns := ref_Namespace target in
  let name := ref_Name target in
  snd (resolveGVR target) = None
  /\ (1 <= length parts)%nat
  /\ ((length parts =? 1)%nat = false -> (2 <= length parts)%nat)
  /\ patchDynamicResource client target c = Dynamic_Patch client gvr ns name c
  /\ (generic ->
      forall action, act_Target action = target ->
        executePatch client action c = Dynamic_Patch client gvr ns name c
        /\ executeDelete client action c = Dynamic_Delete client gvr ns name c)
  /\ (generic ->
      verifyDeleted client target c
      = match Dynamic_Get client gvr ns name c with
        | (Err e, c1) =>
            if strings.Contains e "not found" then ((true, None), c1)
            else ((false, Some e), c1)
        | (Ok _, c1) => ((false, None), c1)
        end)
  /\ (generic ->
      verifyNoFinalizers client target c
      = match Dynamic_Get client gvr ns name c with
        | (Err e, c1) => ((false, Some e), c1)
        | (Ok obj, c1) => (((length (obj_finalizers obj) =? 0)%nat, None), c1)
        end)
  /\ (generic ->
      Snapshot client target c
      = match Dynamic_Get client gvr ns name c with
        | (Err e, c1) => (Err e, c1)
        | (Ok obj, c1) =>
            (Ok {| snap_finalizers := obj_finalizers obj;
                   snap_deletionTimestamp := Some (obj_deletionTimestamp obj);
                   snap_phase := None |}, c1)
        end).
Proof.
  intros gvr parts generic ns name.
  assert (Hok := resolveGVR_ok target). fold gvr in Hok.
  assert (Hlen := Split_nonempty (gvOf target) "/"). fold parts in Hlen.
  split; [now rewrite Hok|].
  split; [exact Hlen|].
  split; [intros H; apply Nat.eqb_neq in H; lia|].
  split; [unfold patchDynamicResource; now rewrite Hok|].
  split.
  { intros [Hn Hc] action Ht.
    unfold executePatch, executeDelete, patchDynamicResource.
    rewrite Ht. cbv zeta. rewrite Hn, Hc, Hok. split; reflexivity. }
  split.
  { intros [Hn Hc]. unfold verifyDeleted. now rewrite Hn, Hc, Hok. }
  split.
  { intros [Hn Hc]. unfold verifyNoFinalizers. now rewrite Hn, Hc, Hok. }
  intros [Hn Hc]. unfold Snapshot. now rewrite Hn, Hc, Hok.
Qed.

(** * Properties of the topological ordering *)

(** ** The Kahn loop ends *)

Lemma pending_add_comm (z1 z2 : Z) (y : nat) :
  (Z.to_nat z1 + (Z.to_nat z2 + y) = Z.to_nat z2 + (Z.to_nat z1 + y))%nat.
Proof. lia. Qed.

(** Writing one in-degree moves [pending] by the difference of the positive
    parts. *)
Lemma pending_insert (inDegree : gmap string Z) (key : string) (v : Z) :
  (pending (<[key := v]> inDegree) + Z.to_nat (degreeOf inDegree key)
   = pending inDegree + Z.to_nat v)%nat.
Proof.
  unfold pending, degreeOf.
  destruct (inDegree !! key) as [u|] eqn:E; simpl.
  - rewrite <- (insert_delete_eq inDegree key v).
    rewrite map_fold_insert_L;
      [|intros; apply pending_add_comm|apply lookup_delete_eq].
    rewrite (map_fold_delete_L _ _ key u inDegree);
      [|intros; apply pending_add_comm|exact E].
    lia.
  - rewrite map_fold_insert_L;
      [|intros; apply pending_add_comm|exact E].
    lia.
Qed.

Lemma sortStrings_Permutation (l : list string) :
  Permutation (sortStrings l) l.
Proof. apply SliceStable_Permutation. Qed.

(** One pass over the dependents of a key: what the queue gains, the
    pending in-degrees lose; nothing leaves the queue. *)
Lemma release_measure (deps : list string) (inDegree : gmap string Z)
    (queue : list string) :
  let st := release deps (inDegree, queue) in
  (length (snd st) + pending (fst st) <= length queue + pending inDegree)%nat
  /\ (forall k, List.In k queue -> List.In k (snd st)).
Proof.
  revert inDegree queue.
  induction deps as [|dep rest IH]; intros inDegree queue; simpl.
  - split; [lia|auto].
  - set (degree := degreeOf inDegree dep - 1).
    assert (Hp := pending_insert inDegree dep degree).
    destruct (degree =? 0) eqn:E.
    + destruct (IH (<[dep := degree]> inDegree) (queue ++ [dep])%list)
        as [Hm Hin].
      split.
      * apply Z.eqb_eq in E. rewrite length_app in Hm. simpl in Hm.
        subst degree. lia.
      * intros k Hk. apply Hin. apply in_or_app. now left.
    + destruct (IH (<[dep := degree]> inDegree) queue) as [Hm Hin].
      split; [|exact Hin].
      subst degree. lia.
Qed.

(** With fuel for the queue and the pending in-degrees, the loop runs to
    the empty queue, and every key that was emitted or queued is in its
    output. *)
Lemma kahn_terminates (dependents : gmap string (list string)) (fuel : nat) :
  forall (queue : list string) (inDegree : gmap string Z)
         (sortedKeys : list string),
    (length queue + pending inDegree <= fuel)%nat ->
    exists keys,
      kahn fuel dependents queue inDegree sortedKeys = Some keys
      /\ (forall k, List.In k sortedKeys \/ List.In k queue -> List.In k keys).
Proof.
  induction fuel as [|fuel IH]; intros queue inDegree sortedKeys Hfuel.
  - destruct queue as [|current queue]; [|simpl in Hfuel; lia].
    exists sortedKeys. split; [reflexivity|]. intros k [Hk|[]]. exact Hk.
  - destruct queue as [|current queue].
    + exists sortedKeys. split; [reflexivity|]. intros k [Hk|[]]. exact Hk.
    + cbn [kahn].
      destruct (release_measure (dependentsOf dependents current)
                  inDegree queue) as [Hm Hin].
      destruct (release (dependentsOf dependents current) (inDegree, queue))
        as [inDegree' queue'] eqn:Er.
      simpl in Hm, Hin.
      assert (Hperm := sortStrings_Permutation queue').
      destruct (IH (sortStrings queue') inDegree'
                  (sortedKeys ++ [current])%list) as (keys & Hk & Hall).
      { rewrite (Permutation_length Hperm). simpl in Hfuel. lia. }
      exists keys. split; [exact Hk|].
      intros k [Hin1|[->|Hin2]]; apply Hall.
      * left. apply in_or_app. now left.
      * left. apply in_or_app. right. now left.
      * right. apply (Permutation_in k (Permutation_sym Hperm)).
        now apply Hin.
Qed.

(** ** In-degrees of the keys the edge map does not list *)

Lemma initInDegree_fold_keeps (actions : list Action) (m : gmap string Z)
    (key : string) (v : Z) :
  m !! key = Some v ->
  fold_left
    (fun inDegree action =>
       let key := resourceKey (act_Target action) in
       match inDegree !! key with
       | Some _ => inDegree
       | None => <[key := 0]> inDegree
       end) actions m !! key = Some v.
Proof.
  revert m. induction actions as [|a rest IH]; intros m Hm; simpl; [exact Hm|].
  apply IH.
  destruct (m !! resourceKey (act_Target a)) as [u|] eqn:E; [exact Hm|].
  destruct (decide (resourceKey (act_Target a) = key)) as [Heq|Hne].
  - rewrite Heq in E. congruence.
  - now rewrite lookup_insert_ne.
Qed.

Lemma initInDegree_fold_zero (actions : list Action) (m : gmap string Z)
    (a : Action) :
  (forall k v, m !! k = Some v -> v = 0) ->
  List.In a actions ->
  fold_left
    (fun inDegree action =>
       let key := resourceKey (act_Target action) in
       match inDegree !! key with
       | Some _ => inDegree
       | None => <[key := 0]> inDegree
       end) actions m !! resourceKey (act_Target a) = Some 0.
Proof.
  revert m. induction actions as [|a0 rest IH]; intros m Hz Hin; [destruct Hin|].
  simpl. destruct Hin as [->|Hin].
  - apply initInDegree_fold_keeps.
    destruct (m !! resourceKey (act_Target a)) as [u|] eqn:E.
    + now rewrite (Hz _ _ E) in E.
    + apply lookup_insert_eq.
  - apply IH; [|exact Hin].
    destruct (m !! resourceKey (act_Target a0)) as [u|] eqn:E; [exact Hz|].
    intros k v Hk.
    destruct (decide (resourceKey (act_Target a0) = k)) as [Heq|Hne].
    + rewrite Heq in Hk. rewrite lookup_insert_eq in Hk. congruence.
    + rewrite lookup_insert_ne in Hk by exact Hne. now apply (Hz k).
Qed.

Lemma initInDegree_zero (actions : list Action) (a : Action) :
  List.In a actions ->
  initInDegree actions !! resourceKey (act_Target a) = Some 0.
Proof.
  apply initInDegree_fold_zero. intros k v Hk.
  rewrite lookup_empty in Hk. discriminate Hk.
Qed.

(** The owners of [key] change the in-degree of [key] alone. *)
Lemma addOwners_other (key : string) (owners : list string)
    (st : gmap string Z * gmap string (list string)) (k : string) :
  k <> key -> fst (addOwners key owners st) !! k = fst st !! k.
Proof.
  intros Hne. unfold addOwners. revert st.
  induction owners as [|owner rest IH]; intros [inDegree dependents];
    [reflexivity|].
  simpl. destruct (inDegree !! owner); rewrite IH; [|reflexivity].
  simpl. apply lookup_insert_ne. congruence.
Qed.

Lemma buildGraph_fold_other (ownerRefs : OwnerRefs)
    (st : gmap string Z * gmap string (list string)) (k : string) :
  ~ List.In k (List.map fst ownerRefs) ->
  fst (fold_left (fun st '(key, owners) => addOwners key owners st)
                 ownerRefs st) !! k
  = fst st !! k.
Proof.
  revert st. induction ownerRefs as [|[key owners] rest IH]; intros st Hk;
    [reflexivity|].
  simpl in *. rewrite IH by tauto.
  apply addOwners_other. intros ->. tauto.
Qed.

(** An action whose key has no entry in the edge map is a node of in-degree
    zero. *)
Lemma buildGraph_unlisted (actions : list Action) (ownerRefs : OwnerRefs)
    (a : Action) :
  List.In a actions ->
  ~ List.In (resourceKey (act_Target a)) (List.map fst ownerRefs) ->
  fst (buildGraph actions ownerRefs) !! resourceKey (act_Target a) = Some 0.
Proof.
  intros Hin Hk. unfold buildGraph.
  rewrite buildGraph_fold_other by exact Hk.
  simpl. now apply initInDegree_zero.
Qed.

Lemma readyKeys_In (inDegree : gmap string Z) (k : string) :
  inDegree !! k = Some 0 -> List.In k (readyKeys inDegree).
Proof.
  intros Hk. unfold readyKeys.
  apply (Permutation_in k (Permutation_sym (sortStrings_Permutation _))).
  apply in_map_iff. exists (k, 0). split; [reflexivity|].
  apply filter_In. split; [|reflexivity].
  apply list_elem_of_In. now apply elem_of_map_to_list.
Qed.

(** Kahn's algorithm runs to the end within [kahnFuel], and emits every
    key of in-degree zero. *)
Lemma kahnKeys_total (actions : list Action) (ownerRefs : OwnerRefs) :
  exists sortedKeys,
    kahnKeys actions ownerRefs = Some sortedKeys
    /\ (forall k, fst (buildGraph actions ownerRefs) !! k = Some 0 ->
                  List.In k sortedKeys).
Proof.
  unfold kahnKeys.
  destruct (buildGraph actions ownerRefs) as [inDegree dependents].
  destruct (kahn_terminates dependents
              (kahnFuel (readyKeys inDegree) inDegree)
              (readyKeys inDegree) inDegree [])
    as (keys & Hk & Hall); [unfold kahnFuel; lia|].
  exists keys. split; [exact Hk|].
  intros k Hz. apply Hall. right. now apply readyKeys_In.
Qed.

(** ** Mapping the keys back to actions *)

Lemma buildActionMap_fold (actions : list Action) (m : gmap string Action) :
  let m' :=
    fold_left
      (fun actionMap action =>
         <[resourceKey (act_Target action) := action]> actionMap)
      actions m in
  (forall a, List.In a actions ->
             is_Some (m' !! resourceKey (act_Target a)))
  /\ (forall k, is_Some (m !! k) -> is_Some (m' !! k))
  /\ (forall k b, m' !! k = Some b ->
                  m !! k = Some b
                  \/ (List.In b actions /\ resourceKey (act_Target b) = k)).
Proof.
  revert m. induction actions as [|a0 rest IH]; intros m; simpl.
  - split; [intros a []|]. split; [auto|]. intros k b Hk. now left.
  - destruct (IH (<[resourceKey (act_Target a0) := a0]> m))
      as (H1 & H2 & H3).
    split; [|split].
    + intros a [->|Hin]; [|now apply H1].
      apply H2. rewrite lookup_insert_eq. now eexists.
    + intros k Hk. apply H2.
      destruct (decide (resourceKey (act_Target a0) = k)) as [Heq|Hne].
      * rewrite Heq, lookup_insert_eq. now eexists.
      * now rewrite lookup_insert_ne.
    + intros k b Hk. destruct (H3 k b Hk) as [Hm|[Hin Hkey]].
      * destruct (decide (resourceKey (act_Target a0) = k)) as [Heq|Hne].
        -- rewrite Heq, lookup_insert_eq in Hm. inversion Hm. subst b.
           right. split; [now left|exact Heq].
        -- rewrite lookup_insert_ne in Hm by exact Hne. now left.
      * right. split; [now right|exact Hkey].
Qed.

Lemma buildActionMap_Some (actions : list Action) (a : Action) :
  List.In a actions ->
  is_Some (buildActionMap actions !! resourceKey (act_Target a)).
Proof. apply (buildActionMap_fold actions ∅). Qed.

Lemma buildActionMap_key (actions : list Action) (k : string) (b : Action) :
  buildActionMap actions !! k = Some b ->
  List.In b actions /\ resourceKey (act_Target b) = k.
Proof.
  intros Hk.
  destruct (proj2 (proj2 (buildActionMap_fold actions ∅)) k b Hk) as [H|H];
    [|exact H].
  rewrite lookup_empty in H. discriminate H.
Qed.

Lemma isSeen_insert (seen : gmap string bool) (key k : string) :
  isSeen (<[key := true]> seen) k = true <-> k = key \/ isSeen seen k = true.
Proof.
  unfold isSeen. destruct (decide (key = k)) as [->|Hne].
  - rewrite lookup_insert_eq. simpl. tauto.
  - rewrite lookup_insert_ne by exact Hne. split; [tauto|].
    intros [->|H]; [contradiction|exact H].
Qed.

(** The loop over the sorted keys marks as seen exactly the keys it met
    that name an action, and the actions it appends are the actions of those
    keys. *)
Lemma pickSorted_fold (actionMap : gmap string Action) (keys : list string) :
  forall (result0 : list Action) (seen0 : gmap string bool),
    let st := fold_left (pickStep actionMap) keys (result0, seen0) in
    (forall k, isSeen (snd st) k = true <->
               isSeen seen0 k = true
               \/ (List.In k keys /\ is_Some (actionMap !! k)))
    /\ (forall b, List.In b (fst st) ->
                  List.In b result0
                  \/ exists k, List.In k keys /\ actionMap !! k = Some b)
    /\ ((forall k b, isSeen seen0 k = true -> actionMap !! k = Some b ->
                     List.In b result0) ->
        forall k b, isSeen (snd st) k = true -> actionMap !! k = Some b ->
                    List.In b (fst st)).
Proof.
  induction keys as [|key rest IH]; intros result0 seen0; simpl.
  - split; [intros k; split; [now left|intros [H|[[] _]]; exact H]|].
    split; [intros b Hb; now left|auto].
  - destruct (actionMap !! key) as [action|] eqn:Ea.
    + destruct (isSeen seen0 key) eqn:Es; cbn [negb].
      * destruct (IH result0 seen0) as (H1 & H2 & H3).
        split; [|split].
        -- intros k. rewrite H1. split.
           ++ intros [H|[Hin Hs]]; [now left|right; split; [now right|exact Hs]].
           ++ intros [H|[[->|Hin] Hs]]; [now left| now left |right; now split].
        -- intros b Hb. destruct (H2 b Hb) as [H|(k & Hin & Hk)];
             [now left|right; exists k; split; [now right|exact Hk]].
        -- exact H3.
      * destruct (IH (result0 ++ [action])%list (<[key := true]> seen0))
          as (H1 & H2 & H3).
        split; [|split].
        -- intros k. rewrite H1, isSeen_insert. split.
           ++ intros [[->|H]|[Hin Hs]].
              ** right. split; [now left|rewrite Ea; now eexists].
              ** now left.
              ** right. split; [now right|exact Hs].
           ++ intros [H|[[->|Hin] Hs]].
              ** left. now right.
              ** left. now left.
              ** right. now split.
        -- intros b Hb. destruct (H2 b Hb) as [H|(k & Hin & Hk)].
           ++ apply in_app_or in H. destruct H as [H|[<-|[]]]; [now left|].
              right. exists key. split; [now left|exact Ea].
           ++ right. exists k. split; [now right|exact Hk].
        -- intros Hinv. apply H3. intros k b Hs Hk.
           apply in_or_app. apply isSeen_insert in Hs.
           destruct Hs as [->|Hs].
           ++ right. rewrite Ea in Hk. inversion Hk. now left.
           ++ left. now apply (Hinv k).
    + destruct (IH result0 seen0) as (H1 & H2 & H3).
      split; [|split].
      * intros k. rewrite H1. split.
        -- intros [H|[Hin Hs]]; [now left|right; split; [now right|exact Hs]].
        -- intros [H|[[->|Hin] Hs]]; [now left| |right; now split].
           rewrite Ea in Hs. destruct Hs as [x Hx]. discriminate Hx.
      * intros b Hb. destruct (H2 b Hb) as [H|(k & Hin & Hk)];
          [now left|right; exists k; split; [now right|exact Hk]].
      * exact H3.
Qed.

(** ** Where the keys outside the edge map end up *)

Example TopologicalSort_threePods :
  option_map (List.map act_ID) (TopologicalSort threePods aOwnedByB)
  = Some ["action-003"; "action-001"; "action-002"].
Proof. vm_compute. reflexivity. Qed.

(** Two actions outside the edge map come out in descending key order, not
    in input order. *)
Example TopologicalSort_unmapped_reordered :
  option_map (List.map act_ID)
    (TopologicalSort [podPatch "action-001" "a"; podPatch "action-002" "b"]
                     [("Deployment/web", ["ReplicaSet/web-1"])])
  = Some ["action-002"; "action-001"].
Proof. vm_compute. reflexivity. Qed.

(** C8, as stated, fails: pod c is in no edge, yet it comes first in the
    returned order, ahead of the two pods of the edge. *)
Lemma C8_counterexample :
  ~ (forall (actions : list Action) (ownerRefs : OwnerRefs)
            (result : list Action),
       ownerRefs <> [] ->
       TopologicalSort actions ownerRefs = Some result ->
       exists front, result = (front ++ unmapped ownerRefs actions)%list).
Proof.
  intros H.
  assert (E : TopologicalSort threePods aOwnedByB
              = Some [podPatch "action-003" "c"; podPatch "action-001" "a";
                      podPatch "action-002" "b"])
    by (vm_compute; reflexivity).
  destruct (H threePods aOwnedByB _ ltac:(discriminate) E) as [front Hf].
  assert (U : unmapped aOwnedByB threePods = [podPatch "action-003" "c"])
    by (vm_compute; reflexivity).
  rewrite U in Hf. apply (f_equal (@last Action)) in Hf.
  rewrite last_snoc in Hf. vm_compute in Hf. discriminate Hf.
Qed.

(** C8. For [TopologicalSort] called with a non-empty owner-edge map, the
    Kahn loop runs to its end, and the returned order is the actions picked
    for the keys the loop emitted, followed by the actions whose key it did
    not emit, these in input order. An action whose key has no entry in the
    edge map is a node of in-degree zero: its key is emitted, so the action
    of that key stands in the sorted part, not at the end. *)
Theorem C8_topological_tail (actions : list Action) (ownerRefs : OwnerRefs) :
  ownerRefs <> [] ->
  exists (sortedKeys : list string) (picked : list Action),
    kahnKeys actions ownerRefs = Some sortedKeys
    /\ TopologicalSort actions ownerRefs
       = Some (picked
               ++ List.filter
                    (fun a =>
                       negb (existsb (String.eqb (resourceKey (act_Target a)))
                                     sortedKeys))
                    actions)%list
    /\ (forall b, List.In b picked ->
                  List.In b actions
                  /\ List.In (resourceKey (act_Target b)) sortedKeys)
    /\ (forall a, List.In a actions ->
                  ~ List.In (resourceKey (act_Target a))
                            (List.map fst ownerRefs) ->
                  List.In (resourceKey (act_Target a)) sortedKeys
                  /\ exists b, List.In b picked
                               /\ resourceKey (act_Target b)
                                  = resourceKey (act_Target a)).
Proof.
  intros Hne.
  destruct (kahnKeys_total actions ownerRefs) as (sortedKeys & Hk & Hzero).
  exists sortedKeys.
  destruct actions as [|a0 rest].
  { exists []. split; [exact Hk|]. split; [reflexivity|].
    split; [intros b []|intros a []]. }
  set (actions := a0 :: rest) in *.
  destruct (pickSorted (buildActionMap actions) (rev sortedKeys))
    as [picked seen] eqn:Ep.
  exists picked.
  destruct (pickSorted_fold (buildActionMap actions) (rev sortedKeys) [] ∅)
    as (Hseen & Hfrom & Hin).
  fold (pickSorted (buildActionMap actions) (rev sortedKeys)) in Hseen,
    Hfrom, Hin.
  rewrite Ep in Hseen, Hfrom, Hin. simpl in Hseen, Hfrom, Hin.
  assert (Hs : forall a, List.In a actions ->
                 (isSeen seen (resourceKey (act_Target a)) = true
                  <-> List.In (resourceKey (act_Target a)) sortedKeys)).
  { intros a Ha. rewrite Hseen. rewrite <- in_rev. split.
    - intros [H|[H _]]; [discriminate H|exact H].
    - intros H. right. split; [exact H|now apply buildActionMap_Some]. }
  split; [exact Hk|]. split; [|split].
  - unfold TopologicalSort. subst actions.
    destruct ownerRefs as [|e refs]; [contradiction|].
    rewrite Hk, Ep. f_equal. f_equal. unfold addUnseen.
    apply filter_ext_in. intros a Ha. f_equal.
    apply eq_true_iff_eq. rewrite (Hs a Ha).
    rewrite existsb_exists. split.
    + intros H. eexists. split; [exact H|apply String.eqb_refl].
    + intros (x & Hx & Ex). apply String.eqb_eq in Ex. now subst.
  - intros b Hb. destruct (Hfrom b Hb) as [[]|(k & Hkin & Hmap)].
    apply buildActionMap_key in Hmap. destruct Hmap as [Hact Hkey].
    split; [exact Hact|]. rewrite Hkey. now apply in_rev.
  - intros a Ha Hun.
    assert (Hz := buildGraph_unlisted actions ownerRefs a Ha Hun).
    apply Hzero in Hz. split; [exact Hz|].
    destruct (buildActionMap_Some actions a Ha) as [b Hb].
    exists b. split.
    + apply (Hin ltac:(intros k b' H; discriminate H)
               (resourceKey (act_Target a)) b); [|exact Hb].
      now apply Hs.
    + now apply buildActionMap_key in Hb.
Qed.

(** C8 on the three pods, pod a owned by pod b. *)
Lemma C8_topological_tail_witness :
  exists (sortedKeys : list string) (picked : list Action),
    kahnKeys threePods aOwnedByB = Some sortedKeys
    /\ TopologicalSort threePods aOwnedByB
       = Some (picked
               ++ List.filter
                    (fun a =>
                       negb (existsb (String.eqb (resourceKey (act_Target a)))
                                     sortedKeys))
                    threePods)%list
    /\ (forall b, List.In b picked ->
                  List.In b threePods
                  /\ List.In (resourceKey (act_Target b)) sortedKeys)
    /\ (forall a, List.In a threePods ->
                  ~ List.In (resourceKey (act_Target a))
                            (List.map fst aOwnedByB) ->
                  List.In (resourceKey (act_Target a)) sortedKeys
                  /\ exists b, List.In b picked
                               /\ resourceKey (act_Target b)
                                  = resourceKey (act_Target a)).
Proof.
  apply (C8_topological_tail threePods aOwnedByB). discriminate.
Defined.

(** [TopologicalSort] returns on every input: the fuel of the Kahn loop is
    never the reason it stops. *)
Lemma TopologicalSort_total (actions : list Action) (ownerRefs : OwnerRefs) :
  is_Some (TopologicalSort actions ownerRefs).
Proof.
  unfold TopologicalSort.
  destruct actions as [|a rest]; [now eexists|].
  destruct ownerRefs as [|e refs]; [now eexists|].
  destruct (kahnKeys_total (a :: rest) (e :: refs)) as (keys & Hk & _).
  rewrite Hk.
  destruct (pickSorted (buildActionMap (a :: rest)) (rev keys)).
  now eexists.
Qed.

(** * The repository's tests, replayed on the embedding *)

(** [TestPluralize] *)
Example test_pluralize :
  List.map pluralize
    ["Pod"; "Service"; "Deployment"; "ConfigMap"; "Secret"; "Namespace";
     "Endpoints"; "Ingress"; "NetworkPolicy"; "PodSecurityPolicy";
     "ResourceQuota"; "LimitRange"; "Certificate"; "Issuer"; "Status";
     "Class"]
  = ["pods"; "services"; "deployments"; "configmaps"; "secrets";
     "namespaces"; "endpoints"; "ingresses"; "networkpolicies";
     "podsecuritypolicies"; "resourcequotas"; "limitranges"; "certificates";
     "issuers"; "statuses"; "classes"].
Proof. vm_compute. reflexivity. Qed.

(** [TestExecutor_ResolveGVR], and two inputs the test leaves out: an empty
    kind with an empty API version, and an API version with two slashes. *)
Example test_resolveGVR :
  List.map resolveGVR
    [ mkResourceRef "Pod" "v1" EmptyString EmptyString;
      mkResourceRef "Certificate" "cert-manager.io/v1" EmptyString EmptyString;
      mkResourceRef "CustomResourceDefinition" "apiextensions.k8s.io/v1"
                    EmptyString EmptyString;
      mkResourceRef "Pod" EmptyString EmptyString EmptyString;
      mkResourceRef EmptyString EmptyString EmptyString EmptyString;
      mkResourceRef "Policy" "a/b/c" EmptyString EmptyString ]
  = [ (mkGVR EmptyString "v1" "pods", None);
      (mkGVR "cert-manager.io" "v1" "certificates", None);
      (mkGVR "apiextensions.k8s.io" "v1" "customresourcedefinitions", None);
      (mkGVR EmptyString "v1" "pods", None);
      (mkGVR EmptyString "v1" "s", None);
      (mkGVR "a" "b" "policies", None) ].
Proof. vm_compute. reflexivity. Qed.

(** [TestResourcePriority] *)
Example test_resourcePriority :
  List.map resourcePriority
    ["Pod"; "ConfigMap"; "Secret"; "Service"; "Deployment"; "StatefulSet";
     "DaemonSet"; "Certificate"; "Issuer"; "CustomResourceDefinition";
     "Namespace"; "UnknownResource"]
  = [10; 10; 10; 10; 20; 20; 20; 30; 30; 100; 200; 50].
Proof. vm_compute. reflexivity. Qed.

(** [TestOrderByDependencies_SortsByResourcePriority] *)
Example test_order_by_priority :
  let at2 kind name :=
    setID (finalizerRemovalAction
             (mkBlocker (mkResourceRef kind "v1" EmptyString name) [] true [])
             EmptyString) kind in
  List.map act_ID
    (OrderByDependencies
       [at2 "Namespace" "a"; at2 "Pod" "b";
        at2 "CustomResourceDefinition" "c"; at2 "Certificate" "d"])
  = ["Pod"; "Certificate"; "CustomResourceDefinition"; "Namespace"].
Proof. vm_compute. reflexivity. Qed.

(** [TestApplier_CalculateExitCode] *)
Example test_calculateExitCode :
  List.map calculateExitCode
    [ mkApplyResult 3 3 0 0 [] 0; mkApplyResult 3 0 3 0 [] 0;
      mkApplyResult 3 0 0 3 [] 0; mkApplyResult 3 1 2 0 [] 0 ]
  = [0; 1; 1; 2].
Proof. vm_compute. reflexivity. Qed.

(** The scenario of [TestPlanner_Plan_TerminatingWithBlockers]: a ceiling
    of 2 on the stuck namespace gives the two level-0 actions, the wait of
    level 1 and one patch, in that order, with IDs in sequence. *)
Example test_plan_levels :
  match Plan (fun s => s) (mkPlanner EscalationFinalizer false)
             (Some stuckNamespace) with
  | Ok plan =>
      List.map (fun a => (act_ID a, act_Type a, act_EscalationLevel a))
               (plan_Actions plan)
      = [ ("action-001", ActionInspect, 0); ("action-002", ActionList, 0);
          ("action-003", ActionWait, 1); ("action-004", ActionPatch, 2) ]
      /\ plan_RiskLevel plan = RiskMedium
      /\ length (plan_Commands plan) = 1%nat
  | Err _ => False
  end.
Proof. vm_compute. repeat split. Qed.

(** * Further properties of the orderer *)

(** ** The order on strings *)

Lemma ascii_compare_refl (c : ascii) : Ascii.compare c c = Eq.
Proof. unfold Ascii.compare. apply N.compare_refl. Qed.

Lemma ascii_compare_Eq (a b : ascii) : Ascii.compare a b = Eq <-> a = b.
Proof.
  split; [apply Ascii.compare_eq_iff|intros ->; apply ascii_compare_refl].
Qed.

Lemma ascii_compare_Lt_trans (a b c : ascii) :
  Ascii.compare a b = Lt -> Ascii.compare b c = Lt -> Ascii.compare a c = Lt.
Proof.
  unfold Ascii.compare. rewrite !N.compare_lt_iff. lia.
Qed.

Lemma string_compare_refl (s : string) : String.compare s s = Eq.
Proof.
  induction s as [|c r IH]; simpl; [reflexivity|].
  now rewrite ascii_compare_refl.
Qed.

Lemma string_compare_Lt_trans (a b c : string) :
  String.compare a b = Lt -> String.compare b c = Lt ->
  String.compare a c = Lt.
Proof.
  revert b c. induction a as [|x a IH]; intros [|y b] [|z c]; simpl;
    try discriminate; try reflexivity.
  destruct (Ascii.compare x y) eqn:Exy; try discriminate.
  - apply ascii_compare_Eq in Exy. subst y.
    destruct (Ascii.compare x z) eqn:Exz; try discriminate; [|reflexivity].
    apply IH.
  - intros _.
    destruct (Ascii.compare y z) eqn:Eyz; try discriminate.
    + apply ascii_compare_Eq in Eyz. subst z. now rewrite Exy.
    + intros _. now rewrite (ascii_compare_Lt_trans x y z Exy Eyz).
Qed.

Lemma string_ltb_irrefl (s : string) : String.ltb s s = false.
Proof. unfold String.ltb. now rewrite string_compare_refl. Qed.

Lemma string_ltb_Lt (a b : string) :
  String.ltb a b = true <-> String.compare a b = Lt.
Proof. unfold String.ltb. destruct (String.compare a b); split; congruence. Qed.

(** If [c] is below [a], then it is below [b] or [b] is below [a]. *)
Lemma string_ltb_split (a b c : string) :
  String.ltb c a = true ->
  String.ltb c b = true \/ String.ltb b a = true.
Proof.
  rewrite !string_ltb_Lt. intros Hca.
  destruct (String.compare c b) eqn:Ecb; [|now left|].
  - apply String.compare_eq_iff in Ecb. subst b. now right.
  - right. rewrite String.compare_antisym in Ecb.
    destruct (String.compare b c) eqn:Ebc; try discriminate.
    now apply (string_compare_Lt_trans b c a).
Qed.

Lemma string_ltb_asym (a b : string) :
  String.ltb a b = true -> String.ltb b a = false.
Proof.
  unfold String.ltb. rewrite (String.compare_antisym a b).
  destruct (String.compare b a); simpl; congruence.
Qed.

(** ** Stable insertion sort under a strict weak order *)

Section StableSort.

Context {A : Type} (less : A -> A -> bool).

Hypothesis less_asym : forall a b, less a b = true -> less b a = false.
Hypothesis less_split :
  forall a b c, less c a = true -> less c b = true \/ less b a = true.

Lemma notAfter_trans (a b c : A) :
  notAfter less a b -> notAfter less b c -> notAfter less a c.
Proof.
  unfold notAfter. intros Hab Hbc.
  destruct (less c a) eqn:E; [|reflexivity].
  destruct (less_split a b c E) as [H|H]; congruence.
Qed.

Lemma insertStable_Forall (P : A -> Prop) (x : A) (l : list A) :
  P x -> Forall P l -> Forall P (insertStable less x l).
Proof.
  intros Hx Hl. eapply Permutation_Forall.
  - symmetry. apply insertStable_Permutation.
  - now constructor.
Qed.

Lemma insertStable_sorted (x : A) (l : list A) :
  StronglySorted (notAfter less) l ->
  StronglySorted (notAfter less) (insertStable less x l).
Proof.
  induction 1 as [|y r Hr IH Hy]; simpl.
  - repeat constructor.
  - destruct (less y x) eqn:E.
    + constructor; [exact IH|].
      apply insertStable_Forall; [|exact Hy].
      now apply less_asym.
    + constructor; [now constructor|].
      constructor; [exact E|].
      eapply Forall_impl; [exact Hy|].
      intros z Hz. now apply (notAfter_trans x y z).
Qed.

Lemma SliceStable_sorted (l : list A) :
  StronglySorted (notAfter less) (SliceStable less l).
Proof.
  induction l as [|x r IH]; simpl; [constructor|].
  now apply insertStable_sorted.
Qed.

(** A sorted slice comes back as it is. *)
Lemma SliceStable_sorted_id (l : list A) :
  StronglySorted (notAfter less) l -> SliceStable less l = l.
Proof.
  induction 1 as [|x r Hr IH Hx]; simpl; [reflexivity|].
  rewrite IH. destruct r as [|y r']; [reflexivity|].
  simpl. inversion Hx as [|? ? Hxy _]; subst.
  unfold notAfter in Hxy. now rewrite Hxy.
Qed.

Lemma SliceStable_idempotent (l : list A) :
  SliceStable less (SliceStable less l) = SliceStable less l.
Proof. apply SliceStable_sorted_id, SliceStable_sorted. Qed.

(** Elements of one rank keep their input order. *)
Lemma insertStable_stable (a x : A) (l : list A) :
  List.filter (sameRank less a) (insertStable less x l)
  = List.filter (sameRank less a) (x :: l).
Proof.
  induction l as [|y r IH]; [reflexivity|].
  cbn [insertStable]. destruct (less y x) eqn:E; [|reflexivity].
  cbn [List.filter]. rewrite IH. cbn [List.filter].
  destruct (sameRank less a x) eqn:Px; destruct (sameRank less a y) eqn:Py;
    try reflexivity.
  unfold sameRank in Px, Py.
  apply andb_prop in Px. apply andb_prop in Py.
  destruct Px as [Hax _]. destruct Py as [_ Hya].
  apply negb_true_iff in Hax. apply negb_true_iff in Hya.
  destruct (less_split x a y E) as [H|H]; congruence.
Qed.

Lemma SliceStable_stable (a : A) (l : list A) :
  List.filter (sameRank less a) (SliceStable less l) = List.filter (sameRank less a) l.
Proof.
  induction l as [|x r IH]; [reflexivity|].
  cbn [SliceStable fold_right]. fold (SliceStable less r).
  rewrite insertStable_stable. cbn [List.filter]. now rewrite IH.
Qed.

End StableSort.

(** ** [actionLess] is a strict weak order *)

Lemma actionLess_asym (a b : Action) :
  actionLess a b = true -> actionLess b a = false.
Proof.
  unfold actionLess.
  destruct (Z.eqb_spec (act_EscalationLevel a) (act_EscalationLevel b)) as [El|Nl];
    destruct (Z.eqb_spec (act_EscalationLevel b) (act_EscalationLevel a));
    try congruence; cbn [negb].
  - destruct (Z.eqb_spec (resourcePriority (ref_Kind (act_Target a)))
                (resourcePriority (ref_Kind (act_Target b)))) as [Ep|Np];
      destruct (Z.eqb_spec (resourcePriority (ref_Kind (act_Target b)))
                  (resourcePriority (ref_Kind (act_Target a))));
      try congruence; cbn [negb].
    + apply string_ltb_asym.
    + rewrite Z.ltb_lt, Z.ltb_ge. lia.
  - rewrite Z.ltb_lt, Z.ltb_ge. lia.
Qed.

Lemma actionLess_split (a b c : Action) :
  actionLess c a = true -> actionLess c b = true \/ actionLess b a = true.
Proof.
  unfold actionLess.
  set (la := act_EscalationLevel a). set (lb := act_EscalationLevel b).
  set (lc := act_EscalationLevel c).
  set (pa := resourcePriority (ref_Kind (act_Target a))).
  set (pb := resourcePriority (ref_Kind (act_Target b))).
  set (pc := resourcePriority (ref_Kind (act_Target c))).
  destruct (Z.eqb_spec lc la); destruct (Z.eqb_spec lc lb);
    destruct (Z.eqb_spec lb la); cbn [negb];
    rewrite ?Z.ltb_lt; try lia; try (intros; lia).
  destruct (Z.eqb_spec pc pa); destruct (Z.eqb_spec pc pb);
    destruct (Z.eqb_spec pb pa); cbn [negb];
    rewrite ?Z.ltb_lt; try lia; try (intros; lia).
  apply string_ltb_split.
Qed.

Lemma notAfter_level (a b : Action) :
  notAfter actionLess a b -> act_EscalationLevel a <= act_EscalationLevel b.
Proof.
  unfold notAfter, actionLess.
  destruct (Z.eqb_spec (act_EscalationLevel b) (act_EscalationLevel a));
    cbn [negb]; [lia|].
  rewrite Z.ltb_ge. lia.
Qed.

Lemma OrderByDependencies_sorted (actions : list Action) :
  StronglySorted (notAfter actionLess) (OrderByDependencies actions).
Proof.
  destruct actions as [|a r]; [constructor|].
  apply SliceStable_sorted; [apply actionLess_asym|apply actionLess_split].
Qed.

Lemma StronglySorted_impl {A : Type} (R S : A -> A -> Prop) (l : list A) :
  (forall a b, R a b -> S a b) -> StronglySorted R l -> StronglySorted S l.
Proof.
  intros HRS. induction 1 as [|x r Hr IH Hx]; constructor; [exact IH|].
  eapply Forall_impl; [exact Hx|]. intros y. apply HRS.
Qed.

(** X1. [OrderByDependencies] loses and invents nothing: its result is a
    permutation of its input, of the same length. *)
Theorem X1_order_permutation (actions : list Action) :
  Permutation (OrderByDependencies actions) actions
  /\ length (OrderByDependencies actions) = length actions.
Proof.
  split; [apply OrderByDependencies_Permutation|].
  apply Permutation_length, OrderByDependencies_Permutation.
Qed.

(** X2. The result of [OrderByDependencies] is sorted: no action is below
    an action that stands before it under the comparison of the sort
    (escalation level, then resource priority, then target name); in
    particular the escalation levels never decrease along the result. *)
Theorem X2_order_sorted (actions : list Action) :
  StronglySorted (fun a b => actionLess b a = false)
                 (OrderByDependencies actions)
  /\ StronglySorted
       (fun a b => act_EscalationLevel a <= act_EscalationLevel b)
       (OrderByDependencies actions).
Proof.
  split; [apply OrderByDependencies_sorted|].
  eapply StronglySorted_impl; [|apply OrderByDependencies_sorted].
  apply notAfter_level.
Qed.

(** X3. Ordering is idempotent: ordering an ordered slice again returns
    it as it is. *)
Theorem X3_order_idempotent (actions : list Action) :
  OrderByDependencies (OrderByDependencies actions)
  = OrderByDependencies actions.
Proof.
  destruct actions as [|a r]; [reflexivity|].
  unfold OrderByDependencies at 1.
  destruct (OrderByDependencies (a :: r)) as [|b r'] eqn:E; [reflexivity|].
  rewrite <- E. unfold OrderByDependencies.
  apply SliceStable_idempotent; [apply actionLess_asym|apply actionLess_split].
Qed.

Lemma string_ltb_antisym (a b : string) :
  String.ltb a b = false -> String.ltb b a = false -> a = b.
Proof.
  unfold String.ltb. rewrite (String.compare_antisym b a).
  destruct (String.compare a b) eqn:E; simpl; try discriminate.
  intros _ _. now apply String.compare_eq_iff.
Qed.

(** Two actions have the same rank exactly when they agree on the three
    keys of the sort. *)
Lemma sameRank_actionLess (a b : Action) :
  sameRank actionLess a b = true
  <-> act_EscalationLevel a = act_EscalationLevel b
      /\ resourcePriority (ref_Kind (act_Target a))
         = resourcePriority (ref_Kind (act_Target b))
      /\ ref_Name (act_Target a) = ref_Name (act_Target b).
Proof.
  unfold sameRank, actionLess.
  rewrite andb_true_iff, !negb_true_iff.
  set (la := act_EscalationLevel a). set (lb := act_EscalationLevel b).
  set (pa := resourcePriority (ref_Kind (act_Target a))).
  set (pb := resourcePriority (ref_Kind (act_Target b))).
  destruct (Z.eqb_spec la lb) as [El|Nl]; destruct (Z.eqb_spec lb la);
    try congruence; cbn [negb].
  - destruct (Z.eqb_spec pa pb) as [Ep|Np]; destruct (Z.eqb_spec pb pa);
      try congruence; cbn [negb].
    + split.
      * intros [H1 H2]. repeat split; try assumption.
        now apply string_ltb_antisym.
      * intros (_ & _ & ->). split; apply string_ltb_irrefl.
    + rewrite !Z.ltb_ge. split; [lia|]. intros (_ & H & _). contradiction.
  - rewrite !Z.ltb_ge. split; [lia|]. intros (H & _). contradiction.
Qed.

(** X4. Ordering is stable: the actions that share the escalation level, the
    resource priority and the target name of an action [a] (the actions of
    the same rank as [a]) stand in the result in the order they had in the
    input. *)
Theorem X4_order_stable (a : Action) (actions : list Action) :
  List.filter (sameRank actionLess a) (OrderByDependencies actions)
  = List.filter (sameRank actionLess a) actions
  /\ (forall b,
        sameRank actionLess a b = true
        <-> act_EscalationLevel a = act_EscalationLevel b
            /\ resourcePriority (ref_Kind (act_Target a))
               = resourcePriority (ref_Kind (act_Target b))
            /\ ref_Name (act_Target a) = ref_Name (act_Target b)).
Proof.
  split; [|apply sameRank_actionLess].
  destruct actions as [|x r]; [reflexivity|].
  apply SliceStable_stable. apply actionLess_split.
Qed.

(** * Further properties of the risk classifier *)

Lemma riskRank_range (r : RiskLevel) : 0 <= riskRank r <= 4.
Proof.
  unfold riskRank.
  repeat match goal with
         | |- context [String.eqb ?a ?b] => destruct (String.eqb a b)
         end; lia.
Qed.

Lemma compareRisk_pos (a b : RiskLevel) :
  (0 <? compareRisk a b) = true <-> riskRank b < riskRank a.
Proof.
  unfold compareRisk.
  destruct (Z.ltb_spec (riskRank a) (riskRank b));
    destruct (Z.ltb_spec (riskRank b) (riskRank a)); simpl;
    split; intros; try discriminate; try lia; reflexivity.
Qed.

(** The loop of [CalculateRiskLevel], from any starting maximum. *)
Lemma CalculateRiskLevel_fold (actions : list Action) (maxRisk : RiskLevel) :
  let r :=
    fold_left
      (fun maxRisk action =>
         if 0 <? compareRisk (act_Risk action) maxRisk
         then act_Risk action else maxRisk)
      actions maxRisk in
  riskRank maxRisk <= riskRank r
  /\ (forall a, List.In a actions -> riskRank (act_Risk a) <= riskRank r)
  /\ (r = maxRisk
      \/ exists a, List.In a actions /\ r = act_Risk a
                   /\ riskRank maxRisk < riskRank (act_Risk a)).
Proof.
  revert maxRisk. induction actions as [|x rest IH]; intros maxRisk; simpl.
  - split; [lia|]. split; [intros a []|now left].
  - destruct (0 <? compareRisk (act_Risk x) maxRisk) eqn:E.
    + apply compareRisk_pos in E.
      destruct (IH (act_Risk x)) as (H1 & H2 & H3).
      split; [lia|]. split.
      * intros a [->|Ha]; [exact H1|now apply H2].
      * right. destruct H3 as [->|(a & Ha & -> & Hlt)].
        -- exists x. split; [now left|]. split; [reflexivity|exact E].
        -- exists a. split; [now right|]. split; [reflexivity|lia].
    + assert (Hle : riskRank (act_Risk x) <= riskRank maxRisk).
      { destruct (Z.lt_ge_cases (riskRank maxRisk) (riskRank (act_Risk x)))
          as [Hlt|Hge]; [|lia].
        apply compareRisk_pos in Hlt. congruence. }
      destruct (IH maxRisk) as (H1 & H2 & H3).
      split; [exact H1|]. split.
      * intros a [->|Ha]; [lia|now apply H2].
      * destruct H3 as [->|(a & Ha & -> & Hlt)]; [now left|].
        right. exists a. split; [now right|]. split; [reflexivity|exact Hlt].
Qed.

Lemma CalculateRiskLevel_spec (actions : list Action) :
  (forall a, List.In a actions ->
             riskRank (act_Risk a) <= riskRank (CalculateRiskLevel actions))
  /\ (CalculateRiskLevel actions = RiskNone
      \/ exists a, List.In a actions
                   /\ CalculateRiskLevel actions = act_Risk a
                   /\ 0 < riskRank (act_Risk a)).
Proof.
  unfold CalculateRiskLevel. destruct actions as [|x rest].
  - split; [intros a []|now left].
  - destruct (CalculateRiskLevel_fold (x :: rest) RiskNone) as (H1 & H2 & H3).
    split; [exact H2|].
    destruct H3 as [H|(a & Ha & Hr & Hlt)]; [now left|].
    right. exists a. split; [exact Ha|]. split; [exact Hr|exact Hlt].
Qed.

(** X5. [CalculateRiskLevel] returns a risk of the highest rank among the
    actions: no action ranks above it, and it is the risk of one of the
    actions, or [RiskNone] when no action ranks above [RiskNone]. *)
Theorem X5_risk_is_maximum (actions : list Action) :
  (forall a, List.In a actions ->
             riskRank (act_Risk a) <= riskRank (CalculateRiskLevel actions))
  /\ (CalculateRiskLevel actions = RiskNone
      \/ exists a, List.In a actions
                   /\ CalculateRiskLevel actions = act_Risk a
                   /\ 0 < riskRank (act_Risk a)).
Proof. apply CalculateRiskLevel_spec. Qed.

Lemma compareRisk_cases (a b : RiskLevel) :
  (compareRisk a b = -1 /\ riskRank a < riskRank b)
  \/ (compareRisk a b = 0 /\ riskRank a = riskRank b)
  \/ (compareRisk a b = 1 /\ riskRank b < riskRank a).
Proof.
  unfold compareRisk.
  destruct (Z.ltb_spec (riskRank a) (riskRank b));
    destruct (Z.ltb_spec (riskRank b) (riskRank a)); lia.
Qed.

(** X6. [compareRisk] is a total preorder on risk levels: swapping the
    arguments negates the result, "below" is transitive, the five declared
    levels are strictly increasing from none to critical, and a level outside
    the five compares equal to [RiskNone]. *)
Theorem X6_compareRisk_order :
  (forall a b, compareRisk a b = - compareRisk b a)
  /\ (forall a b c,
        compareRisk a b = -1 -> compareRisk b c = -1 -> compareRisk a c = -1)
  /\ (forall a b c,
        compareRisk a b = 0 -> compareRisk b c = 0 -> compareRisk a c = 0)
  /\ compareRisk RiskNone RiskLow = -1
  /\ compareRisk RiskLow RiskMedium = -1
  /\ compareRisk RiskMedium RiskHigh = -1
  /\ compareRisk RiskHigh RiskCritical = -1
  /\ (forall r,
        r <> RiskNone -> r <> RiskLow -> r <> RiskMedium -> r <> RiskHigh ->
        r <> RiskCritical -> compareRisk r RiskNone = 0).
Proof.
  split; [|split; [|split]].
  - intros a b.
    destruct (compareRisk_cases a b) as [[E H]|[[E H]|[E H]]];
      destruct (compareRisk_cases b a) as [[E' H']|[[E' H']|[E' H']]]; lia.
  - intros a b c Hab Hbc.
    destruct (compareRisk_cases a b) as [[E H]|[[E H]|[E H]]]; try lia.
    destruct (compareRisk_cases b c) as [[E' H']|[[E' H']|[E' H']]]; try lia.
    destruct (compareRisk_cases a c) as [[E2 H2]|[[E2 H2]|[E2 H2]]]; lia.
  - intros a b c Hab Hbc.
    destruct (compareRisk_cases a b) as [[E H]|[[E H]|[E H]]]; try lia.
    destruct (compareRisk_cases b c) as [[E' H']|[[E' H']|[E' H']]]; try lia.
    destruct (compareRisk_cases a c) as [[E2 H2]|[[E2 H2]|[E2 H2]]]; lia.
  - repeat split; try reflexivity.
    intros r H0 H1 H2 H3 H4.
    assert (Hr : riskRank r = 0).
    { unfold riskRank.
      apply String.eqb_neq in H0, H1, H2, H3, H4.
      now rewrite H0, H1, H2, H3, H4. }
    unfold compareRisk. rewrite Hr. reflexivity.
Qed.

(** * Further properties of the planner *)

Section PlanInvariants.

Variable Quote : string -> string.

(** A property that ID assignment keeps and that holds of every action the
    levels emit holds of every action of a plan. *)
Lemma Plan_Forall (P : Action -> Prop) (p : Planner) (d : DiagnosisReport)
    (plan : types.Plan) :
  (forall a id, P a -> P (setID a id)) ->
  Forall P (levelActions Quote p d) ->
  Plan Quote p (Some d) = Ok plan ->
  Forall P (plan_Actions plan).
Proof.
  intros Hset Hall Hp. destruct (IsHealthy d) eqn:Hh.
  - rewrite (Plan_healthy Quote p d Hh) in Hp. inversion Hp. constructor.
  - destruct (Plan_unhealthy Quote p d Hh) as (plan' & Hp' & Ha).
    rewrite Hp in Hp'. inversion Hp'. subst plan'. rewrite Ha.
    apply assignIDs_Forall; [exact Hset|].
    eapply Permutation_Forall; [|exact Hall].
    symmetry. apply OrderByDependencies_Permutation.
Qed.

Lemma generatePatchCommand_nonempty (target : ResourceRef) :
  String.eqb (generatePatchCommand target) EmptyString = false.
Proof.
  unfold generatePatchCommand.
  destruct (negb (String.eqb (ref_Namespace target) EmptyString));
    reflexivity.
Qed.

Ltac by_level :=
  unfold byLevel; cbn;
  repeat split; try lia; try reflexivity; try discriminate;
  try (intros; discriminate); try (intros [?|?]; discriminate);
  try (now left); try (now right);
  try (intros; now left); try (intros; now right).

Lemma levelActions_byLevel (p : Planner) (d : DiagnosisReport) :
  Forall byLevel (levelActions Quote p d).
Proof.
  unfold levelActions.
  apply Forall_app; split; [|apply Forall_app; split;
    [|apply Forall_app; split; [|apply Forall_app; split]]].
  - unfold infoActions. apply Forall_app. split.
    + constructor; [|constructor]. by_level.
    + destruct (0 <? length (diag_Blockers d))%nat; [|constructor].
      constructor; [|constructor]. by_level.
  - destruct (_ && _); [|constructor].
    constructor; [|constructor]. by_level.
  - destruct (EscalationFinalizer <=? maxEscalation p); [|constructor].
    induction (diag_Blockers d) as [|b r IH]; simpl; constructor;
      [|exact IH].
    unfold byLevel. cbn.
    rewrite generatePatchCommand_nonempty.
    repeat split; try lia; try reflexivity; try discriminate;
      intros; discriminate.
  - destruct (_ && _); [|constructor].
    constructor; [|constructor]. by_level.
  - destruct (_ && _); [|constructor].
    constructor; [|constructor]. by_level.
Qed.

Lemma byLevel_setID (a : Action) (id : string) :
  byLevel a -> byLevel (setID a id).
Proof. intros H. exact H. Qed.

End PlanInvariants.

Section PlanShape.

Variable Quote : string -> string.

Lemma Plan_total (p : Planner) (d : DiagnosisReport) :
  exists plan, Plan Quote p (Some d) = Ok plan.
Proof.
  destruct (IsHealthy d) eqn:Hh.
  - eexists. now apply Plan_healthy.
  - destruct (Plan_unhealthy Quote p d Hh) as (plan & Hp & _). now exists plan.
Qed.

(** The fields of a plan, from its actions. *)
Lemma Plan_fields (p : Planner) (d : DiagnosisReport) (plan : types.Plan) :
  Plan Quote p (Some d) = Ok plan ->
  plan_Target plan = diag_Target d
  /\ plan_MaxEscalation plan = maxEscalation p
  /\ plan_Commands plan = GenerateCommands (plan_Actions plan)
  /\ riskRank (plan_RiskLevel plan)
     = riskRank (CalculateRiskLevel (plan_Actions plan))
  /\ (IsHealthy d = true -> plan_Actions plan = [])
  /\ (IsHealthy d = false ->
      plan_Actions plan
      = assignIDs (OrderByDependencies (levelActions Quote p d))).
Proof.
  intros Hp. unfold Plan in Hp. destruct (IsHealthy d).
  - inversion Hp. cbn. repeat split. intros H. discriminate H.
  - inversion Hp. cbn. repeat split. intros H. discriminate H.
Qed.

Lemma GenerateCommands_byLevel (actions : list Action) :
  Forall byLevel actions ->
  GenerateCommands actions
  = List.map act_Command
      (List.filter (fun a => 2 <=? act_EscalationLevel a) actions)
  /\ Forall (fun c => c <> EmptyString) (GenerateCommands actions).
Proof.
  unfold GenerateCommands.
  induction 1 as [|a r Ha Hr [IH1 IH2]]; [split; [reflexivity|constructor]|].
  destruct Ha as (_ & _ & _ & Hc & _).
  cbn [List.map List.filter]. rewrite Hc.
  destruct (Z.ltb_spec (act_EscalationLevel a) 2) as [Hlt|Hge];
    destruct (Z.leb_spec 2 (act_EscalationLevel a)); try lia; cbn [negb].
  - split; [exact IH1|exact IH2].
  - cbn [List.map]. split; [now rewrite IH1|].
    constructor; [|exact IH2].
    intros E. rewrite E in Hc. cbn in Hc.
    apply Z.ltb_ge in Hge. congruence.
Qed.

End PlanShape.

(** X7. Every action of a plan is fixed by its escalation level: the level
    is between 0 and 4, the risk is the level's risk in the table of
    [RiskLevelFromEscalation], [requiresForce] is set exactly from level 3
    on, the command is empty exactly below level 2, and the type is inspect
    or list at level 0, wait at level 1, patch at levels 2 and 3, finalize at
    level 4. *)
Theorem X7_plan_actions_by_level (Quote : string -> string) (p : Planner)
    (d : DiagnosisReport) :
  exists plan,
    Plan Quote p (Some d) = Ok plan
    /\ Forall
         (fun a =>
            0 <= act_EscalationLevel a <= 4
            /\ act_Risk a = RiskLevelFromEscalation (act_EscalationLevel a)
            /\ act_RequiresForce a = RequiresForce (act_EscalationLevel a)
            /\ String.eqb (act_Command a) EmptyString
               = (act_EscalationLevel a <? 2)
            /\ (act_EscalationLevel a = 0 ->
                act_Type a = ActionInspect \/ act_Type a = ActionList)
            /\ (act_EscalationLevel a = 1 -> act_Type a = ActionWait)
            /\ (act_EscalationLevel a = 2 \/ act_EscalationLevel a = 3 ->
                act_Type a = ActionPatch)
            /\ (act_EscalationLevel a = 4 -> act_Type a = ActionFinalize))
         (plan_Actions plan).
Proof.
  destruct (Plan_total Quote p d) as [plan Hp]. exists plan.
  split; [exact Hp|].
  apply (Plan_Forall Quote byLevel p d plan);
    [apply byLevel_setID|apply levelActions_byLevel|exact Hp].
Qed.

(** X8. The commands of a plan are the commands of its actions of level 2
    and above, in plan order; none of them is empty, and the actions of
    levels 0 and 1 contribute none. *)
Theorem X8_plan_commands (Quote : string -> string) (p : Planner)
    (d : DiagnosisReport) :
  exists plan,
    Plan Quote p (Some d) = Ok plan
    /\ plan_Commands plan
       = List.map act_Command
           (List.filter (fun a => 2 <=? act_EscalationLevel a)
                        (plan_Actions plan))
    /\ Forall (fun c => c <> EmptyString) (plan_Commands plan).
Proof.
  destruct (Plan_total Quote p d) as [plan Hp]. exists plan.
  split; [exact Hp|].
  destruct (Plan_fields Quote p d plan Hp) as (_ & _ & Hc & _).
  rewrite Hc. apply GenerateCommands_byLevel.
  apply (Plan_Forall Quote byLevel p d plan);
    [apply byLevel_setID|apply levelActions_byLevel|exact Hp].
Qed.

Lemma riskRank_fromEscalation (l : EscalationLevel) :
  0 <= l <= 4 -> riskRank (RiskLevelFromEscalation l) = l.
Proof.
  intros H.
  assert (l = 0 \/ l = 1 \/ l = 2 \/ l = 3 \/ l = 4) as [->|[->|[->|[->| ->]]]]
    by lia; reflexivity.
Qed.

(** The levels the planner emits, against its two gates. *)
Lemma levelActions_bounds (Quote : string -> string) (p : Planner)
    (d : DiagnosisReport) :
  Forall (fun a =>
            act_EscalationLevel a <= Z.max 0 (maxEscalation p)
            /\ (allowForce p = false -> act_EscalationLevel a <= 2))
         (levelActions Quote p d).
Proof.
  eapply Forall_impl; [apply levelActions_gates|].
  unfold EscalationInfo, EscalationClean, EscalationFinalizer, EscalationCRD,
    EscalationForce.
  intros a [H|[[H G]|[[H G]|[(H & G & F)|(H & G & F)]]]];
    split; try lia; intros; congruence.
Qed.

(** X9. The risk level a plan publishes is the rank of its highest action
    and stays within the ceiling: every action's escalation level is at most
    the rank of the plan's risk level, that rank is at most the ceiling (or 0
    for a negative ceiling), and at most 2 (medium) when force is off. *)
Theorem X9_plan_risk_bounds (Quote : string -> string) (p : Planner)
    (d : DiagnosisReport) :
  exists plan,
    Plan Quote p (Some d) = Ok plan
    /\ (forall a, List.In a (plan_Actions plan) ->
                  act_EscalationLevel a <= riskRank (plan_RiskLevel plan))
    /\ riskRank (plan_RiskLevel plan) <= Z.max 0 (maxEscalation p)
    /\ (allowForce p = false -> riskRank (plan_RiskLevel plan) <= 2).
Proof.
  destruct (Plan_total Quote p d) as [plan Hp]. exists plan.
  split; [exact Hp|].
  destruct (Plan_fields Quote p d plan Hp) as (_ & _ & _ & Hr & _).
  assert (Hby : Forall byLevel (plan_Actions plan))
    by (apply (Plan_Forall Quote byLevel p d plan);
        [apply byLevel_setID|apply levelActions_byLevel|exact Hp]).
  assert (Hb : Forall (fun a =>
                 act_EscalationLevel a <= Z.max 0 (maxEscalation p)
                 /\ (allowForce p = false -> act_EscalationLevel a <= 2))
                (plan_Actions plan))
    by (apply (Plan_Forall Quote _ p d plan);
        [intros a id H; exact H|apply levelActions_bounds|exact Hp]).
  rewrite Hr.
  destruct (CalculateRiskLevel_spec (plan_Actions plan)) as [Hmax Hone].
  rewrite Forall_forall in Hby, Hb.
  assert (Hrank : forall a, List.In a (plan_Actions plan) ->
            riskRank (act_Risk a) = act_EscalationLevel a).
  { intros a Ha. apply list_elem_of_In in Ha.
    destruct (Hby a Ha) as (Hrange & Hrisk & _).
    rewrite Hrisk. now apply riskRank_fromEscalation. }
  split; [|split].
  - intros a Ha. rewrite <- (Hrank a Ha). now apply Hmax.
  - destruct Hone as [->|(a & Ha & -> & _)]; [cbn; lia|].
    rewrite (Hrank a Ha). apply list_elem_of_In in Ha. now apply Hb.
  - intros Hf. destruct Hone as [->|(a & Ha & -> & _)]; [cbn; lia|].
    rewrite (Hrank a Ha). apply list_elem_of_In in Ha. now apply Hb.
Qed.

(** X10. Filtering a plan at its own ceiling removes nothing: for a ceiling
    of 0 or more, [FilterActionsByMaxLevel] returns the plan's actions as
    they are. *)
Theorem X10_filter_at_ceiling (Quote : string -> string) (p : Planner)
    (d : DiagnosisReport) :
  0 <= maxEscalation p ->
  exists plan,
    Plan Quote p (Some d) = Ok plan
    /\ FilterActionsByMaxLevel (plan_Actions plan) (maxEscalation p)
       = plan_Actions plan.
Proof.
  intros H0. destruct (Plan_total Quote p d) as [plan Hp]. exists plan.
  split; [exact Hp|].
  assert (Hb : Forall (fun a => act_EscalationLevel a <= maxEscalation p)
                (plan_Actions plan)).
  { apply (Plan_Forall Quote _ p d plan);
      [intros a id H; exact H| |exact Hp].
    now apply levelActions_le_ceiling. }
  unfold FilterActionsByMaxLevel.
  induction Hb as [|a r Ha Hr IH]; [reflexivity|].
  cbn [List.filter]. apply Z.leb_le in Ha. rewrite Ha. now rewrite IH.
Qed.

(** X10 at a ceiling of 2, on the stuck namespace. *)
Lemma X10_filter_at_ceiling_witness :
  exists plan,
    Plan (fun s => s) (mkPlanner EscalationFinalizer false)
         (Some stuckNamespace) = Ok plan
    /\ FilterActionsByMaxLevel (plan_Actions plan) EscalationFinalizer
       = plan_Actions plan.
Proof.
  apply (X10_filter_at_ceiling (fun s => s)
           (mkPlanner EscalationFinalizer false) stuckNamespace).
  vm_compute. discriminate.
Defined.

(** An element that nothing in the slice is below stays at the head. *)
Lemma SliceStable_head {A : Type} (less : A -> A -> bool) (x : A)
    (l : list A) :
  Forall (fun y => less y x = false) l ->
  SliceStable less (x :: l) = x :: SliceStable less l.
Proof.
  intros H. cbn [SliceStable fold_right]. fold (SliceStable less l).
  assert (Hs : Forall (fun y => less y x = false) (SliceStable less l)).
  { eapply Permutation_Forall; [|exact H].
    symmetry. apply SliceStable_Permutation. }
  destruct Hs as [|y r Hy _]; [reflexivity|].
  simpl. now rewrite Hy.
Qed.

Section PlanHead.

Variable Quote : string -> string.

(** The inspect action of level 0, before it gets its ID. *)
Lemma levelActions_head (p : Planner) (d : DiagnosisReport) :
  exists inspect others,
    levelActions Quote p d = inspect :: others
    /\ act_Type inspect = ActionInspect
    /\ act_EscalationLevel inspect = EscalationInfo
    /\ act_Target inspect = diag_Target d
    /\ Forall (fun y => actionLess y inspect = false) others.
Proof.
  unfold levelActions, infoActions.
  eexists. eexists. split; [reflexivity|].
  split; [reflexivity|]. split; [reflexivity|]. split; [reflexivity|].
  assert (Hhigh : forall y x,
            0 < act_EscalationLevel y -> act_EscalationLevel x = 0 ->
            actionLess y x = false).
  { intros y x Hy Hx. unfold actionLess. rewrite Hx.
    destruct (Z.eqb_spec (act_EscalationLevel y) 0); [lia|]. cbn [negb].
    apply Z.ltb_ge. lia. }
  apply Forall_app; split; [|apply Forall_app; split;
    [|apply Forall_app; split; [|apply Forall_app; split]]].
  - destruct (0 <? length (diag_Blockers d))%nat; [|constructor].
    constructor; [|constructor].
    unfold actionLess. cbn. rewrite Z.eqb_refl. cbn.
    apply string_ltb_irrefl.
  - destruct (_ && _); [|constructor].
    constructor; [|constructor]. now apply Hhigh.
  - destruct (EscalationFinalizer <=? maxEscalation p); [|constructor].
    induction (diag_Blockers d) as [|b r IH]; simpl; constructor;
      [|exact IH].
    now apply Hhigh.
  - destruct (_ && _); [|constructor].
    constructor; [|constructor]. now apply Hhigh.
  - destruct (_ && _); [|constructor].
    constructor; [|constructor]. now apply Hhigh.
Qed.

End PlanHead.

(** X11. A plan for a target that is not healthy is never empty: its first
    action is the level-0 inspect action of the diagnosed target, with the
    ID "action-001". *)
Theorem X11_plan_starts_with_inspect (Quote : string -> string)
    (p : Planner) (d : DiagnosisReport) :
  IsHealthy d = false ->
  exists plan first rest,
    Plan Quote p (Some d) = Ok plan
    /\ plan_Actions plan = first :: rest
    /\ act_ID first = "action-001"
    /\ act_Type first = ActionInspect
    /\ act_EscalationLevel first = EscalationInfo
    /\ act_Target first = diag_Target d.
Proof.
  intros Hh.
  destruct (Plan_unhealthy Quote p d Hh) as (plan & Hp & Ha).
  destruct (levelActions_head Quote p d)
    as (inspect & others & Hl & Ht & Hlev & Htar & Hless).
  exists plan, (setID inspect "action-001").
  eexists. split; [exact Hp|].
  rewrite Ha, Hl. unfold OrderByDependencies.
  rewrite (SliceStable_head actionLess inspect others Hless).
  split; [reflexivity|]. cbn. repeat split; assumption.
Qed.

(** X11 on the stuck namespace. *)
Lemma X11_plan_starts_with_inspect_witness :
  exists plan first rest,
    Plan (fun s => s) (mkPlanner EscalationForce true) (Some stuckNamespace)
    = Ok plan
    /\ plan_Actions plan = first :: rest
    /\ act_ID first = "action-001"
    /\ act_Type first = ActionInspect
    /\ act_EscalationLevel first = EscalationInfo
    /\ act_Target first = diag_Target stuckNamespace.
Proof.
  apply (X11_plan_starts_with_inspect (fun s => s)
           (mkPlanner EscalationForce true) stuckNamespace).
  reflexivity.
Defined.

(** ** Action IDs *)

(** The decimal numeral of a positive number does not start with a zero. *)
Lemma pretty_N_go_head (x : N) :
  forall s, (0 < x)%N ->
    exists c r, pretty_N_go x s = String c r /\ c <> "0"%char.
Proof.
  induction (N.lt_wf_0 x) as [x _ IH]; intros s Hx.
  rewrite pretty_N_go_step by exact Hx.
  assert (0 < x < 10 \/ 10 <= x)%N as [Hsmall|Hbig] by lia.
  - assert (Hd : (x `div` 10 = 0)%N) by (apply N.div_small; lia).
    rewrite Hd, pretty_N_go_0.
    eexists. eexists. split; [reflexivity|].
    rewrite N.mod_small by lia.
    assert (x = 1 \/ x = 2 \/ x = 3 \/ x = 4 \/ x = 5 \/ x = 6
            \/ x = 7 \/ x = 8 \/ x = 9)%N
      as [->|[->|[->|[->|[->|[->|[->|[->| ->]]]]]]]] by lia;
      discriminate.
  - apply IH.
    + apply N.div_lt; lia.
    + apply N.div_str_pos. lia.
Qed.

(** If a numeral starts with a zero, it is "0". *)
Lemma pretty_nat_leading_zero (n : nat) (r : string) :
  pretty n = String "0"%char r -> r = EmptyString.
Proof.
  unfold pretty, pretty_nat, pretty, pretty_N.
  destruct (decide (N.of_nat n = 0)%N) as [_|Hn].
  - intros H. now inversion H.
  - destruct (pretty_N_go_head (N.of_nat n) EmptyString ltac:(lia))
      as (c & r' & -> & Hc).
    intros H. inversion H. contradiction.
Qed.

Lemma pretty_nat_nonempty (n : nat) : pretty n <> EmptyString.
Proof.
  unfold pretty, pretty_nat, pretty, pretty_N.
  destruct (decide (N.of_nat n = 0)%N) as [_|Hn]; [discriminate|].
  destruct (pretty_N_go_head (N.of_nat n) EmptyString ltac:(lia))
    as (c & r' & -> & Hc).
  discriminate.
Qed.

(** Padding to three digits keeps numerals apart. *)
Lemma d03_inj (n m : nat) : fmt.d03 n = fmt.d03 m -> n = m.
Proof.
  unfold fmt.d03. cbv zeta.
  assert (Hn := pretty_nat_leading_zero n).
  assert (Hm := pretty_nat_leading_zero m).
  assert (Nn := pretty_nat_nonempty n).
  assert (Nm := pretty_nat_nonempty m).
  intros H. apply (inj pretty).
  destruct (pretty n) as [|a1 [|a2 [|a3 r1]]];
    destruct (pretty m) as [|b1 [|b2 [|b3 r2]]];
    try contradiction; cbn in H; inversion H; subst; try reflexivity;
    try (specialize (Hn _ eq_refl); discriminate Hn);
    try (specialize (Hm _ eq_refl); discriminate Hm).
Qed.

Lemma imap_setID_IDs (mk : nat -> string) (l : list Action) :
  List.map act_ID (imap (fun i a => setID a (mk i)) l)
  = List.map mk (seq 0 (length l)).
Proof.
  revert mk. induction l as [|a r IH]; intros mk; [reflexivity|].
  cbn [imap List.map length seq].
  f_equal. rewrite <- seq_shift, map_map.
  apply (IH (fun i => mk (S i))).
Qed.

Lemma NoDup_map_injective {A B : Type} (f : A -> B) (l : list A) :
  (forall x y, f x = f y -> x = y) -> NoDup l -> NoDup (List.map f l).
Proof.
  intros Hinj. induction 1 as [|x r Hx Hr IH]; simpl; constructor;
    [|exact IH].
  rewrite list_elem_of_In, in_map_iff. intros (y & Hy & Hin).
  apply Hinj in Hy. subst y. apply Hx. now apply list_elem_of_In.
Qed.

(** X12. The IDs of a plan are "action-001", "action-002" and so on in plan
    order: the ID of the action at index [i] is "action-" followed by [i+1]
    in decimal, padded with zeros to three digits, and no two actions of a
    plan share an ID. *)
Theorem X12_plan_ids (Quote : string -> string) (p : Planner)
    (d : DiagnosisReport) :
  exists plan,
    Plan Quote p (Some d) = Ok plan
    /\ List.map act_ID (plan_Actions plan)
       = List.map (fun i => "action-" +:+ fmt.d03 (S i))
                  (seq 0 (length (plan_Actions plan)))
    /\ NoDup (List.map act_ID (plan_Actions plan)).
Proof.
  destruct (Plan_total Quote p d) as [plan Hp]. exists plan.
  split; [exact Hp|].
  assert (Hids : List.map act_ID (plan_Actions plan)
                 = List.map (fun i => "action-" +:+ fmt.d03 (S i))
                            (seq 0 (length (plan_Actions plan)))).
  { destruct (Plan_fields Quote p d plan Hp) as (_ & _ & _ & _ & Hh & Hu).
    destruct (IsHealthy d).
    - now rewrite (Hh eq_refl).
    - rewrite (Hu eq_refl). unfold assignIDs.
      rewrite (imap_setID_IDs (fun i => "action-" +:+ fmt.d03 (S i))).
      f_equal. f_equal. unfold assignIDs.
      now rewrite length_imap. }
  split; [exact Hids|]. rewrite Hids.
  apply NoDup_map_injective; [|apply NoDup_ListNoDup, seq_NoDup].
  intros x y H. cbn in H. inversion H as [H'].
  apply d03_inj in H'. lia.
Qed.

(** ** One patch per blocker *)

Lemma Permutation_filter_bool {A : Type} (f : A -> bool) (l l' : list A) :
  Permutation l l' -> Permutation (List.filter f l) (List.filter f l').
Proof.
  induction 1 as [|x l l' H IH|x y l|l l' l'' H1 IH1 H2 IH2]; simpl.
  - constructor.
  - destruct (f x); [now constructor|exact IH].
  - destruct (f x); destruct (f y); try reflexivity. apply perm_swap.
  - now transitivity (List.filter f l').
Qed.

(** Filtering and projecting see through ID assignment when they do not
    read the ID. *)
Lemma imap_setID_filter_map {B : Type} (f : Action -> bool) (g : Action -> B)
    (mk : nat -> string) (l : list Action) :
  (forall a id, f (setID a id) = f a) ->
  (forall a id, g (setID a id) = g a) ->
  List.map g (List.filter f (imap (fun i a => setID a (mk i)) l))
  = List.map g (List.filter f l).
Proof.
  intros Hf Hg. revert mk. induction l as [|a r IH]; intros mk;
    [reflexivity|].
  cbn [imap List.filter]. rewrite Hf.
  destruct (f a); cbn [List.map];
    [rewrite Hg; f_equal|]; apply (IH (fun i => mk (S i))).
Qed.

Lemma filter_level_const (l : EscalationLevel) (k : EscalationLevel)
    (actions : list Action) :
  Forall (fun a => act_EscalationLevel a = l) actions ->
  List.filter (fun a => act_EscalationLevel a =? k) actions
  = if l =? k then actions else [].
Proof.
  induction 1 as [|a r Ha Hr IH]; [now destruct (l =? k)|].
  cbn [List.filter]. rewrite Ha, IH. now destruct (l =? k).
Qed.

Lemma filter_if_nil {A : Type} (f : A -> bool) (c : bool) (l : list A) :
  List.filter f l = [] -> List.filter f (if c then l else []) = [].
Proof. intros H. destruct c; [exact H|reflexivity]. Qed.

Lemma levelActions_patches (Quote : string -> string) (p : Planner)
    (d : DiagnosisReport) :
  List.filter (fun a => act_EscalationLevel a =? EscalationFinalizer)
              (levelActions Quote p d)
  = if EscalationFinalizer <=? maxEscalation p
    then List.map
           (fun blocker =>
              finalizerRemovalAction blocker
                (ref_Namespace (diag_Target d)))
           (diag_Blockers d)
    else [].
Proof.
  unfold levelActions. rewrite !List.filter_app.
  rewrite (filter_level_const EscalationInfo _ _ (infoActions_level Quote d)).
  rewrite (filter_if_nil _ _ (cleanPathActions d)) by reflexivity.
  rewrite (filter_if_nil _ _ [crdFinalizerAction (diag_Target d)])
    by reflexivity.
  rewrite (filter_if_nil _ _ [forceFinalize (ref_Name (diag_Target d))])
    by reflexivity.
  cbn [app]. rewrite app_nil_r.
  destruct (EscalationFinalizer <=? maxEscalation p); [|reflexivity].
  rewrite (filter_level_const EscalationFinalizer _ _
             (finalizerRemoval_level _ _)).
  reflexivity.
Qed.

(** X13. With a ceiling of 2 or more, the plan for a target that is not
    healthy has exactly one level-2 action per blocker: the targets of its
    level-2 actions are, up to order, the blockers, each with the namespace
    of the diagnosed target where it has none of its own. Below a ceiling of
    2 the plan has no level-2 action. *)
Theorem X13_one_patch_per_blocker (Quote : string -> string) (p : Planner)
    (d : DiagnosisReport) :
  IsHealthy d = false ->
  exists plan,
    Plan Quote p (Some d) = Ok plan
    /\ Permutation
         (List.map act_Target
            (List.filter
               (fun a => act_EscalationLevel a =? EscalationFinalizer)
               (plan_Actions plan)))
         (if EscalationFinalizer <=? maxEscalation p
          then List.map
                 (fun b =>
                    {| ref_Kind := ref_Kind (blk_ResourceRef b);
                       ref_APIVersion := ref_APIVersion (blk_ResourceRef b);
                       ref_Namespace :=
                         if String.eqb (ref_Namespace (blk_ResourceRef b))
                                       EmptyString
                         then ref_Namespace (diag_Target d)
                         else ref_Namespace (blk_ResourceRef b);
                       ref_Name := ref_Name (blk_ResourceRef b) |})
                 (diag_Blockers d)
          else []).
Proof.
  intros Hh.
  destruct (Plan_unhealthy Quote p d Hh) as (plan & Hp & Ha).
  exists plan. split; [exact Hp|].
  rewrite Ha. unfold assignIDs.
  rewrite imap_setID_filter_map by reflexivity.
  transitivity
    (List.map act_Target
       (List.filter (fun a => act_EscalationLevel a =? EscalationFinalizer)
                    (levelActions Quote p d))).
  - apply Permutation_map, Permutation_filter_bool,
      OrderByDependencies_Permutation.
  - rewrite levelActions_patches.
    destruct (EscalationFinalizer <=? maxEscalation p); [|reflexivity].
    rewrite map_map. reflexivity.
Qed.

(** X13 on the stuck namespace, at a ceiling of 2. *)
Lemma X13_one_patch_per_blocker_witness :
  exists plan,
    Plan (fun s => s) (mkPlanner EscalationFinalizer false)
         (Some stuckNamespace) = Ok plan
    /\ Permutation
         (List.map act_Target
            (List.filter
               (fun a => act_EscalationLevel a =? EscalationFinalizer)
               (plan_Actions plan)))
         (if EscalationFinalizer <=? EscalationFinalizer
          then List.map
                 (fun b =>
                    {| ref_Kind := ref_Kind (blk_ResourceRef b);
                       ref_APIVersion := ref_APIVersion (blk_ResourceRef b);
                       ref_Namespace :=
                         if String.eqb (ref_Namespace (blk_ResourceRef b))
                                       EmptyString
                         then ref_Namespace (diag_Target stuckNamespace)
                         else ref_Namespace (blk_ResourceRef b);
                       ref_Name := ref_Name (blk_ResourceRef b) |})
                 (diag_Blockers stuckNamespace)
          else []).
Proof.
  apply (X13_one_patch_per_blocker (fun s => s)
           (mkPlanner EscalationFinalizer false) stuckNamespace).
  reflexivity.
Defined.

(** * Further properties of the run loop *)

Section RunLoopAccounting.

Context {Cluster : Type} (client : Client Cluster).

Lemma captureBefore_fields (a : Applier) (action : Action)
    (ar : ActionResult) (w : World Cluster) :
  let ar' := fst (captureBefore client a action ar w) in
  ar_Action ar' = ar_Action ar /\ ar_Success ar' = ar_Success ar
  /\ ar_Error ar' = ar_Error ar.
Proof.
  unfold captureBefore. destruct (verbose a && negb (dryRun a));
    [|repeat split].
  destruct (takeSnapshot client (act_Target action) w). repeat split.
Qed.

Lemma captureAfter_fields (a : Applier) (action : Action)
    (ar : ActionResult) (w : World Cluster) :
  let ar' := fst (captureAfter client a action ar w) in
  ar_Action ar' = ar_Action ar /\ ar_Success ar' = ar_Success ar
  /\ ar_Error ar' = ar_Error ar.
Proof.
  unfold captureAfter. destruct (verbose a); [|repeat split].
  destruct (takeSnapshot client (act_Target action) w). repeat split.
Qed.

Ltac outcome_success :=
  eexists; split; [reflexivity|]; split; [cbn; congruence|];
  split; [reflexivity|]; left; cbn; repeat split; congruence.

Ltac outcome_failure :=
  eexists; split; [reflexivity|]; split; [cbn; congruence|];
  split; [reflexivity|]; right; left; cbn; repeat split;
  try congruence; try discriminate.

Lemma runAction_outcome (a : Applier) (action : Action) (ar : ActionResult)
    (result : ApplyResult) (w : World Cluster) :
  ar_Action ar = action ->
  stepOutcome a action result
    (fst (fst (runAction client a action ar result w)))
    (snd (runAction client a action ar result w)).
Proof.
  intros Hact. unfold runAction.
  destruct (captureBefore_fields a action ar w) as (Hb1 & Hb2 & Hb3).
  destruct (captureBefore client a action ar w) as [ar1 w1].
  cbn [fst] in Hb1, Hb2, Hb3.
  destruct (dryRun a); [outcome_success|].
  destruct (Execute client action (cluster w1)) as [[e|] c1].
  - destruct (continueOnError a) eqn:Ec; cbn [negb]; outcome_failure.
  - cbn [cluster setCluster].
    destruct (Verify client action c1) as [[verified [e|]] c2].
    + match goal with
      | |- context [captureAfter client a action ?x ?y] =>
          destruct (captureAfter_fields a action x y) as (Ha1 & Ha2 & Ha3);
          destruct (captureAfter client a action x y) as [ar2 w2]
      end.
      cbn [fst] in Ha1, Ha2, Ha3. cbn in Ha1, Ha2.
      outcome_failure.
    + destruct verified; cbn [negb];
        match goal with
        | |- context [captureAfter client a action ?x ?y] =>
            destruct (captureAfter_fields a action x y) as (Ha1 & Ha2 & Ha3);
            destruct (captureAfter client a action x y) as [ar2 w2]
        end;
        cbn [fst] in Ha1, Ha2, Ha3; cbn in Ha1, Ha2;
        [outcome_success|outcome_failure].
Qed.

Lemma applyAction_outcome (a : Applier) (action : Action)
    (result : ApplyResult) (w : World Cluster) :
  stepOutcome a action result
    (fst (fst (applyAction client a action result w)))
    (snd (applyAction client a action result w)).
Proof.
  unfold applyAction.
  destruct (needsConfirm a action);
    [|now apply runAction_outcome].
  assert (Herr := confirm_no_error action w).
  destruct (confirm action w) as [[cf err] w1]. simpl in Herr. subst err.
  destruct cf; cbn [negb]; [now apply runAction_outcome|].
  eexists. split; [reflexivity|]. split; [reflexivity|].
  split; [reflexivity|]. right; right. cbn. repeat split.
Qed.

End RunLoopAccounting.

Section RunLoopWhole.

Context {Cluster : Type} (client : Client Cluster).

(** The whole loop: the results recorded are those of a prefix of the
    actions, in order; the counters grow by the successes and the failures
    among them; a proper prefix means the loop was stopped by a failure with
    [continueOnError] off. *)
Lemma applyLoop_account (a : Applier) (actions : list Action) :
  forall (result : ApplyResult) (w : World Cluster),
    let result' := fst (applyLoop client a actions result w) in
    exists results rest,
      res_Actions result' = (res_Actions result ++ results)%list
      /\ actions = (List.map ar_Action results ++ rest)%list
      /\ res_TotalActions result' = res_TotalActions result
      /\ res_Succeeded result'
         = res_Succeeded result
           + Z.of_nat (length (List.filter ar_Success results))
      /\ res_Failed result' + res_Skipped result'
         = res_Failed result + res_Skipped result
           + Z.of_nat (length (List.filter
                                 (fun ar => negb (ar_Success ar)) results))
      /\ res_Failed result <= res_Failed result'
      /\ res_Skipped result <= res_Skipped result'
      /\ (rest <> [] ->
          continueOnError a = false
          /\ res_Failed result < res_Failed result'
          /\ exists ar, last results = Some ar /\ ar_Success ar = false).
Proof.
  induction actions as [|action tail IH]; intros result w; cbn zeta.
  - exists [], []. cbn. rewrite app_nil_r.
    repeat split; try lia; try contradiction; intros; contradiction.
  - cbn [applyLoop].
    assert (Hout := applyAction_outcome client a action result w).
    destruct (applyAction client a action result w) as [[r1 w1] ctl].
    cbn [fst snd] in Hout.
    destruct Hout as (ar & Hres & Hact & Htot & Hcase).
    destruct ctl.
    + (* the loop goes on *)
      specialize (IH r1 w1). cbn zeta in IH.
      destruct IH as (results & rest & H1 & H2 & H3 & H4 & H5 & H6 & H7 & H8).
      exists (ar :: results), rest.
      split; [rewrite H1, Hres, <- app_assoc; reflexivity|].
      split; [cbn; now rewrite Hact, H2|].
      split; [congruence|].
      cbn [List.filter].
      destruct Hcase as [(Hs & Hc1 & Hc2 & Hc3 & _)
                        |[(Hs & Hc1 & Hc2 & Hc3 & _)
                         |(Hs & Hc1 & Hc2 & Hc3 & _)]].
      all: rewrite Hs; cbn [negb length].
      all: split; [lia|].
      all: split; [lia|].
      all: split; [lia|].
      all: split; [lia|].
      all: intros Hrest; destruct (H8 Hrest) as (Hc & Hf & ar' & Hl & Hs').
      all: split; [exact Hc|].
      all: split; [lia|].
      all: exists ar'; split; [|exact Hs'].
      all: destruct results; [discriminate Hl|exact Hl].
    + (* the loop stops *)
      exists [ar], tail. cbn [fst].
      split; [exact Hres|]. split; [cbn; now rewrite Hact|].
      split; [exact Htot|].
      destruct Hcase as [(_ & _ & _ & _ & Hn)
                        |[(Hs & Hc1 & Hc2 & Hc3 & Hb)
                         |(_ & _ & _ & _ & Hn)]]; try discriminate Hn.
      cbn [List.filter]. rewrite Hs. cbn [negb length].
      repeat split; try lia.
      * now apply Hb.
      * exists ar. split; [reflexivity|exact Hs].
Qed.

End RunLoopWhole.

(** X14. The counters of an [ApplyResult] account for the recorded results:
    [succeeded + failed + skipped] is the number of results recorded,
    [succeeded] is the number of results marked successful, no counter is
    negative, the results are never more than [totalActions], which is the
    number of actions of the plan, and with [continueOnError] on every action
    gets a result. *)
Theorem X14_apply_accounting {Cluster : Type} (client : Client Cluster)
    (a : Applier) (plan : types.Plan) (w : World Cluster) :
  exists (r : ApplyResult) (w' : World Cluster),
    Apply client a (Some plan) w = (Ok r, w')
    /\ res_TotalActions r = Z.of_nat (length (plan_Actions plan))
    /\ res_Succeeded r + res_Failed r + res_Skipped r
       = Z.of_nat (length (res_Actions r))
    /\ res_Succeeded r
       = Z.of_nat (length (List.filter ar_Success (res_Actions r)))
    /\ 0 <= res_Failed r /\ 0 <= res_Skipped r
    /\ Z.of_nat (length (res_Actions r)) <= res_TotalActions r
    /\ (continueOnError a = true ->
        Z.of_nat (length (res_Actions r)) = res_TotalActions r).
Proof.
  unfold Apply.
  set (r0 := {| res_TotalActions := Z.of_nat (length (plan_Actions plan));
                res_Succeeded := 0; res_Failed := 0; res_Skipped := 0;
                res_Actions := []; res_ExitCode := 0 |}).
  destruct (applyLoop_account client a (plan_Actions plan) r0 w)
    as (results & rest & H1 & H2 & H3 & H4 & H5 & H6 & H7 & H8).
  destruct (applyLoop client a (plan_Actions plan) r0 w) as [res w'].
  cbn [fst] in *. cbn in H1, H3, H4, H5, H6, H7.
  eexists. eexists. split; [reflexivity|]. cbn.
  assert (Hlen : length (plan_Actions plan)
                 = (length results + length rest)%nat)
    by (rewrite H2, length_app, length_map; reflexivity).
  assert (Hsplit : (length (List.filter ar_Success results)
                    + length (List.filter (fun ar => negb (ar_Success ar))
                                          results)
                    = length results)%nat).
  { clear. induction results as [|x r IH]; [reflexivity|].
    cbn [List.filter]. destruct (ar_Success x); cbn [negb length]; lia. }
  rewrite H1.
  repeat split; try lia.
  intros Hc.
  destruct rest as [|x rest']; [cbn [length] in Hlen; lia|].
  destruct (H8 ltac:(discriminate)) as (Hf & _). congruence.
Qed.

(** X15. The results of a run are those of a prefix of the plan, in plan
    order. If actions are left over, [continueOnError] is off, the last
    result recorded is a failure, and the exit code is not 0. *)
Theorem X15_apply_results_prefix {Cluster : Type} (client : Client Cluster)
    (a : Applier) (plan : types.Plan) (w : World Cluster) :
  exists (r : ApplyResult) (w' : World Cluster) (rest : list Action),
    Apply client a (Some plan) w = (Ok r, w')
    /\ plan_Actions plan
       = (List.map ar_Action (res_Actions r) ++ rest)%list
    /\ (rest <> [] ->
        continueOnError a = false
        /\ (exists ar, last (res_Actions r) = Some ar
                       /\ ar_Success ar = false)
        /\ 1 <= res_Failed r
        /\ res_ExitCode r <> 0).
Proof.
  unfold Apply.
  set (r0 := {| res_TotalActions := Z.of_nat (length (plan_Actions plan));
                res_Succeeded := 0; res_Failed := 0; res_Skipped := 0;
                res_Actions := []; res_ExitCode := 0 |}).
  destruct (applyLoop_account client a (plan_Actions plan) r0 w)
    as (results & rest & H1 & H2 & H3 & H4 & H5 & H6 & H7 & H8).
  destruct (applyLoop client a (plan_Actions plan) r0 w) as [res w'].
  cbn [fst] in *. cbn in H1, H6, H7, H8.
  exists {| res_TotalActions := res_TotalActions res;
            res_Succeeded := res_Succeeded res;
            res_Failed := res_Failed res;
            res_Skipped := res_Skipped res;
            res_Actions := res_Actions res;
            res_ExitCode := calculateExitCode res |}, w', rest.
  split; [reflexivity|]. cbn. rewrite H1.
  split; [exact H2|].
  intros Hrest. destruct (H8 Hrest) as (Hc & Hf & ar & Hl & Hs).
  split; [exact Hc|]. split; [now exists ar|]. split; [lia|].
  unfold calculateExitCode.
  destruct (Z.eqb_spec (res_Failed res) 0); [lia|]. cbn [andb].
  destruct (res_Succeeded res =? 0); discriminate.
Qed.

(** ** Runs without a prompt *)

Section NoPrompt.

Context {Cluster : Type} (client : Client Cluster).

Lemma noPrompt_refl (w : World Cluster) : noPrompt w w.
Proof.
  split; [reflexivity|]. exists []. split; [now rewrite app_nil_r|constructor].
Qed.

Lemma noPrompt_trans (w1 w2 w3 : World Cluster) :
  noPrompt w1 w2 -> noPrompt w2 w3 -> noPrompt w1 w3.
Proof.
  intros [Hs1 (a1 & Hc1 & Hf1)] [Hs2 (a2 & Hc2 & Hf2)].
  split; [congruence|]. exists (a1 ++ a2)%list.
  split; [rewrite Hc2, Hc1, app_assoc; reflexivity|].
  apply Forall_app. now split.
Qed.

Lemma noPrompt_call (c : Cluster) (call : Call) (w : World Cluster) :
  notConfirm call -> noPrompt w (setCluster c (logCall call w)).
Proof.
  intros Hc. split; [reflexivity|]. exists [call].
  split; [reflexivity|]. now constructor.
Qed.

Lemma takeSnapshot_noPrompt (target : ResourceRef) (w : World Cluster) :
  noPrompt w (snd (takeSnapshot client target w)).
Proof.
  unfold takeSnapshot.
  destruct (Snapshot client target (cluster w)) as [r c]. cbn [snd].
  now apply noPrompt_call.
Qed.

Lemma captureBefore_noPrompt (a : Applier) (action : Action)
    (ar : ActionResult) (w : World Cluster) :
  noPrompt w (snd (captureBefore client a action ar w)).
Proof.
  unfold captureBefore.
  destruct (verbose a && negb (dryRun a)); [|apply noPrompt_refl].
  assert (H := takeSnapshot_noPrompt (act_Target action) w).
  destruct (takeSnapshot client (act_Target action) w). exact H.
Qed.

Lemma captureAfter_noPrompt (a : Applier) (action : Action)
    (ar : ActionResult) (w : World Cluster) :
  noPrompt w (snd (captureAfter client a action ar w)).
Proof.
  unfold captureAfter. destruct (verbose a); [|apply noPrompt_refl].
  assert (H := takeSnapshot_noPrompt (act_Target action) w).
  destruct (takeSnapshot client (act_Target action) w). exact H.
Qed.

Lemma runAction_noPrompt (a : Applier) (action : Action) (ar : ActionResult)
    (result : ApplyResult) (w : World Cluster) :
  noPrompt w (snd (fst (runAction client a action ar result w))).
Proof.
  unfold runAction.
  assert (Hb := captureBefore_noPrompt a action ar w).
  destruct (captureBefore client a action ar w) as [ar1 w1].
  cbn [snd] in Hb.
  destruct (dryRun a); [exact Hb|].
  destruct (Execute client action (cluster w1)) as [[e|] c1].
  - destruct (negb (continueOnError a)); cbn [fst snd];
      (eapply noPrompt_trans; [exact Hb|now apply noPrompt_call]).
  - cbn [cluster setCluster].
    destruct (Verify client action c1) as [[verified verifyErr] c2].
    assert (Hw : noPrompt w
                   (setCluster c2
                      (logCall (CallVerify action)
                         (setCluster c1 (logCall (CallExecute action) w1))))).
    { eapply noPrompt_trans; [exact Hb|].
      eapply noPrompt_trans; now apply noPrompt_call. }
    destruct verifyErr as [e|]; [|destruct verified; cbn [negb]].
    all: cbv beta iota zeta.
    all: match goal with
         | |- context [captureAfter client ?a0 ?act ?x ?y] =>
             assert (Ha' := captureAfter_noPrompt a0 act x y);
             destruct (captureAfter client a0 act x y) as [ar2 w2]
         end.
    all: cbn [fst snd] in *; eapply noPrompt_trans; [exact Hw|exact Ha'].
Qed.

Lemma applyLoop_noPrompt (a : Applier) (actions : list Action) :
  Forall (fun action => needsConfirm a action = false) actions ->
  forall (result : ApplyResult) (w : World Cluster),
    noPrompt w (snd (applyLoop client a actions result w))
    /\ res_Skipped (fst (applyLoop client a actions result w))
       = res_Skipped result.
Proof.
  induction 1 as [|action tail Hn Ht IH]; intros result w.
  - split; [apply noPrompt_refl|reflexivity].
  - cbn [applyLoop]. unfold applyAction. rewrite Hn.
    assert (Hw := runAction_noPrompt a action (newActionResult action)
                    result w).
    assert (Hk := runAction_skipped client a action (newActionResult action)
                    result w).
    destruct (runAction client a action (newActionResult action) result w)
      as [[r1 w1] ctl].
    cbn [fst snd] in Hw, Hk. destruct ctl.
    + destruct (IH r1 w1) as [H1 H2]. split.
      * eapply noPrompt_trans; [exact Hw|exact H1].
      * now rewrite H2.
    + split; [exact Hw|exact Hk].
Qed.

End NoPrompt.

Lemma needsConfirm_false (a : Applier) (actions : list Action) :
  autoConfirm a = true \/ dryRun a = true
  \/ HasForceActions actions = false ->
  Forall (fun action => needsConfirm a action = false) actions.
Proof.
  intros H. unfold needsConfirm.
  destruct H as [H|[H|H]].
  - rewrite H. apply Forall_forall. intros x _.
    now rewrite andb_false_r.
  - rewrite H. apply Forall_forall. intros x _.
    now rewrite andb_false_r.
  - unfold HasForceActions in H.
    induction actions as [|x r IH]; [constructor|].
    cbn in H. apply orb_false_iff in H. destruct H as [Hx Hr].
    constructor; [now rewrite Hx|now apply IH].
Qed.

(** X16. A run with auto-confirm on, or a dry run, or a run of a plan
    without force actions asks nothing: no line is taken from standard input,
    no confirmation prompt is among the calls it makes, and no action is
    skipped. *)
Theorem X16_apply_without_prompt {Cluster : Type} (client : Client Cluster)
    (a : Applier) (plan : types.Plan) (w : World Cluster) :
  autoConfirm a = true \/ dryRun a = true
  \/ HasForceActions (plan_Actions plan) = false ->
  exists (r : ApplyResult) (w' : World Cluster) (added : list Call),
    Apply client a (Some plan) w = (Ok r, w')
    /\ stdin w' = stdin w
    /\ calls w' = (calls w ++ added)%list
    /\ (forall action, ~ List.In (CallConfirm action) added)
    /\ res_Skipped r = 0.
Proof.
  intros H. apply needsConfirm_false in H.
  unfold Apply.
  match goal with
  | |- context [applyLoop client a (plan_Actions plan) ?r0 w] =>
      destruct (applyLoop_noPrompt client a (plan_Actions plan) H r0 w)
        as [[Hs (added & Hc & Hf)] Hk];
      destruct (applyLoop client a (plan_Actions plan) r0 w) as [res w']
  end.
  cbn [fst snd] in *. cbn in Hk.
  eexists. exists w', added. split; [reflexivity|].
  split; [exact Hs|]. split; [exact Hc|]. split; [|exact Hk].
  intros action Hin. rewrite Forall_forall in Hf.
  apply list_elem_of_In in Hin. exact (Hf _ Hin).
Qed.

(** X16 on a live run with auto-confirm, of a plan with a force action. *)
Lemma X16_apply_without_prompt_witness :
  exists (r : ApplyResult) (w' : World unit) (added : list Call),
    Apply quietClient (mkApplier false false true false) (Some forcePlan)
          (freshWorld [mkScanResult "n" None])
    = (Ok r, w')
    /\ stdin w' = stdin (freshWorld [mkScanResult "n" None])
    /\ calls w' = (calls (freshWorld [mkScanResult "n" None]) ++ added)%list
    /\ (forall action, ~ List.In (CallConfirm action) added)
    /\ res_Skipped r = 0.
Proof.
  apply (X16_apply_without_prompt quietClient
           (mkApplier false false true false) forcePlan
           (freshWorld [mkScanResult "n" None])).
  left. reflexivity.
Defined.

(** ** Read-only actions *)

Section ReadOnly.

Context {Cluster : Type} (client : Client Cluster).

Lemma Execute_readOnly (action : Action) (c : Cluster) :
  readOnlyType (act_Type action) = true ->
  Execute client action c = (None, c).
Proof.
  unfold readOnlyType, Execute. intros H.
  apply orb_true_iff in H. destruct H as [H|H];
    [apply orb_true_iff in H; destruct H as [H|H]|];
    apply String.eqb_eq in H; rewrite H; reflexivity.
Qed.

Lemma Verify_readOnly (action : Action) (c : Cluster) :
  readOnlyType (act_Type action) = true ->
  Verify client action c = ((true, None), c).
Proof. unfold readOnlyType, Verify. intros H. now rewrite H. Qed.

Lemma runAction_readOnly (a : Applier) (action : Action)
    (result : ApplyResult) (w : World Cluster) :
  readOnlyType (act_Type action) = true ->
  verbose a = false ->
  exists w',
    runAction client a action (newActionResult action) result w
    = ((appendResult (countSucceeded result) (dryRunResult action), w'), Next)
    /\ cluster w' = cluster w /\ stdin w' = stdin w.
Proof.
  intros Hr Hv. unfold runAction, captureBefore. rewrite Hv. cbn [andb].
  destruct (dryRun a).
  - exists w. repeat split.
  - rewrite (Execute_readOnly action (cluster w) Hr).
    cbn [cluster setCluster logCall].
    rewrite (Verify_readOnly action (cluster w) Hr).
    unfold captureAfter. rewrite Hv. cbn [negb].
    eexists. repeat split.
Qed.

Lemma applyLoop_readOnly (a : Applier) (actions : list Action) :
  verbose a = false ->
  Forall (fun x => readOnlyType (act_Type x) = true
                   /\ needsConfirm a x = false) actions ->
  forall (result : ApplyResult) (w : World Cluster),
    exists w',
      applyLoop client a actions result w
      = ({| res_TotalActions := res_TotalActions result;
            res_Succeeded := res_Succeeded result
                             + Z.of_nat (length actions);
            res_Failed := res_Failed result;
            res_Skipped := res_Skipped result;
            res_Actions := res_Actions result
                           ++ List.map dryRunResult actions;
            res_ExitCode := res_ExitCode result |}, w')
      /\ cluster w' = cluster w /\ stdin w' = stdin w.
Proof.
  intros Hv. induction 1 as [|x r [Hx Hn] Hr IH]; intros result w.
  - exists w. cbn [applyLoop length List.map Z.of_nat].
    rewrite Z.add_0_r, app_nil_r. destruct result. repeat split.
  - cbn [applyLoop]. unfold applyAction. rewrite Hn.
    destruct (runAction_readOnly a x result w Hx Hv) as (w1 & E & Hc & Hs).
    rewrite E.
    destruct (IH (appendResult (countSucceeded result) (dryRunResult x)) w1)
      as (w2 & E2 & Hc2 & Hs2).
    exists w2. rewrite E2. split; [|split; congruence].
    cbn [res_TotalActions res_Succeeded res_Failed res_Skipped res_Actions
         res_ExitCode appendResult countSucceeded length List.map].
    rewrite <- app_assoc. cbn [app].
    replace (res_Succeeded result + 1 + Z.of_nat (length r))
      with (res_Succeeded result + Z.of_nat (S (length r))) by lia.
    reflexivity.
Qed.

Lemma Apply_readOnly (a : Applier) (plan : types.Plan) (w : World Cluster) :
  verbose a = false ->
  Forall (fun x => readOnlyType (act_Type x) = true
                   /\ needsConfirm a x = false) (plan_Actions plan) ->
  exists (r : ApplyResult) (w' : World Cluster),
    Apply client a (Some plan) w = (Ok r, w')
    /\ cluster w' = cluster w
    /\ stdin w' = stdin w
    /\ res_Actions r = List.map dryRunResult (plan_Actions plan)
    /\ res_Succeeded r = res_TotalActions r
    /\ res_Failed r = 0 /\ res_Skipped r = 0
    /\ res_ExitCode r = 0.
Proof.
  intros Hv Hall. unfold Apply.
  match goal with
  | |- context [applyLoop client a (plan_Actions plan) ?r0 w] =>
      destruct (applyLoop_readOnly a (plan_Actions plan) Hv Hall r0 w)
        as (w' & E & Hc & Hs)
  end.
  rewrite E. eexists. exists w'. split; [reflexivity|].
  cbn. repeat split; assumption.
Qed.

End ReadOnly.

Lemma Forall_and_intro {A : Type} (P Q : A -> Prop) (l : list A) :
  Forall P l -> Forall Q l -> Forall (fun x => P x /\ Q x) l.
Proof. intros HP HQ. apply Forall_and. now split. Qed.

(** X17. A plan whose actions are all of type inspect, list or wait, run
    without the verbose flag and with nothing to confirm, succeeds on every
    action and leaves the cluster as it was: each action is recorded as a
    success with no error, nothing fails or is skipped, and the exit code
    is 0. *)
Theorem X17_read_only_plan_is_harmless {Cluster : Type}
    (client : Client Cluster) (a : Applier) (plan : types.Plan)
    (w : World Cluster) :
  verbose a = false ->
  Forall (fun x => readOnlyType (act_Type x) = true) (plan_Actions plan) ->
  autoConfirm a = true \/ dryRun a = true
  \/ HasForceActions (plan_Actions plan) = false ->
  exists (r : ApplyResult) (w' : World Cluster),
    Apply client a (Some plan) w = (Ok r, w')
    /\ cluster w' = cluster w
    /\ stdin w' = stdin w
    /\ res_Actions r = List.map dryRunResult (plan_Actions plan)
    /\ res_Succeeded r = res_TotalActions r
    /\ res_Failed r = 0 /\ res_Skipped r = 0
    /\ res_ExitCode r = 0.
Proof.
  intros Hv Hr Hn. apply Apply_readOnly; [exact Hv|].
  apply Forall_and_intro; [exact Hr|]. now apply needsConfirm_false.
Qed.

(** X17 on a live run of the two inspection actions against a cluster whose
    finalizers never go away. *)
Lemma X17_read_only_plan_is_harmless_witness :
  exists (r : ApplyResult) (w' : World unit),
    Apply stubbornClient (mkApplier false false false false)
          (Some inspectPlan) (freshWorld [])
    = (Ok r, w')
    /\ cluster w' = cluster (freshWorld [])
    /\ stdin w' = stdin (freshWorld [])
    /\ res_Actions r = List.map dryRunResult (plan_Actions inspectPlan)
    /\ res_Succeeded r = res_TotalActions r
    /\ res_Failed r = 0 /\ res_Skipped r = 0
    /\ res_ExitCode r = 0.
Proof.
  apply (X17_read_only_plan_is_harmless stubbornClient
           (mkApplier false false false false) inspectPlan (freshWorld [])).
  - reflexivity.
  - repeat constructor.
  - right. right. reflexivity.
Defined.

Lemma levelActions_observe (Quote : string -> string) (p : Planner)
    (d : DiagnosisReport) :
  maxEscalation p <= 1 ->
  Forall (fun x => readOnlyType (act_Type x) = true
                   /\ act_RequiresForce x = false
                   /\ act_EscalationLevel x <= 1)
         (levelActions Quote p d).
Proof.
  intros Hm.
  eapply Forall_impl;
    [apply (Forall_and_intro _ _ _ (levelActions_gates Quote p d)
                                   (levelActions_byLevel Quote p d))|].
  unfold EscalationInfo, EscalationClean, EscalationFinalizer, EscalationCRD,
    EscalationForce.
  intros x [Hg (_ & _ & Hf & _ & H0 & H1 & _)].
  assert (Hl : act_EscalationLevel x = 0 \/ act_EscalationLevel x = 1).
  { destruct Hg as [H|[[H G]|[[H G]|[(H & G & F)|(H & G & F)]]]]; lia. }
  rewrite Hf. unfold RequiresForce, EscalationCRD, readOnlyType.
  destruct Hl as [Hl|Hl]; rewrite Hl; (split; [|split; [reflexivity|lia]]).
  - destruct (H0 Hl) as [E|E]; rewrite E; reflexivity.
  - rewrite (H1 Hl). reflexivity.
Qed.

(** X18. Planning with an escalation ceiling of 1 or below and applying the
    plan without the verbose flag cannot change the cluster: the plan carries
    no command, its run asks nothing, every action succeeds and the exit code
    is 0, whatever the diagnosis and whatever the cluster answers. *)
Theorem X18_observation_ceiling_is_harmless {Cluster : Type}
    (Quote : string -> string) (client : Client Cluster) (p : Planner)
    (d : DiagnosisReport) (a : Applier) (w : World Cluster) :
  maxEscalation p <= 1 ->
  verbose a = false ->
  exists (plan : types.Plan) (r : ApplyResult) (w' : World Cluster),
    Plan Quote p (Some d) = Ok plan
    /\ plan_Commands plan = []
    /\ HasForceActions (plan_Actions plan) = false
    /\ Apply client a (Some plan) w = (Ok r, w')
    /\ cluster w' = cluster w
    /\ stdin w' = stdin w
    /\ res_Succeeded r = res_TotalActions r
    /\ res_Failed r = 0 /\ res_Skipped r = 0
    /\ res_ExitCode r = 0.
Proof.
  intros Hm Hv.
  destruct (Plan_total Quote p d) as [plan Hp].
  assert (Hobs : Forall (fun x => readOnlyType (act_Type x) = true
                                  /\ act_RequiresForce x = false
                                  /\ act_EscalationLevel x <= 1)
                        (plan_Actions plan)).
  { apply (Plan_Forall Quote _ p d plan); [|now apply levelActions_observe|
                                           exact Hp].
    intros x id H. exact H. }
  assert (Hby : Forall byLevel (plan_Actions plan)).
  { apply (Plan_Forall Quote _ p d plan);
      [apply byLevel_setID|apply levelActions_byLevel|exact Hp]. }
  assert (Hforce : HasForceActions (plan_Actions plan) = false).
  { unfold HasForceActions. clear Hby.
    induction Hobs as [|x r (_ & Hf & _) Hr IH]; [reflexivity|].
    cbn. now rewrite Hf, IH. }
  destruct (Apply_readOnly client a plan w Hv)
    as (r & w' & E & Hc & Hs & _ & Hsucc & Hfail & Hskip & Hexit).
  { eapply Forall_impl; [exact Hobs|].
    intros x (Hr & Hf & _). split; [exact Hr|].
    unfold needsConfirm. now rewrite Hf. }
  exists plan, r, w'.
  split; [exact Hp|]. split.
  { destruct (Plan_fields Quote p d plan Hp) as (_ & _ & Hcmd & _).
    rewrite Hcmd.
    destruct (GenerateCommands_byLevel (plan_Actions plan) Hby) as [-> _].
    clear Hby Hforce E Hcmd.
    induction Hobs as [|x l (_ & _ & Hl) Hr IH]; [reflexivity|].
    cbn [List.filter].
    destruct (Z.leb_spec 2 (act_EscalationLevel x)); [lia|exact IH]. }
  repeat split; assumption.
Qed.

(** X18 on the stuck namespace with a ceiling of 1. *)
Lemma X18_observation_ceiling_is_harmless_witness :
  exists (plan : types.Plan) (r : ApplyResult) (w' : World unit),
    Plan (fun s => s) (mkPlanner 1 false) (Some stuckNamespace) = Ok plan
    /\ plan_Commands plan = []
    /\ HasForceActions (plan_Actions plan) = false
    /\ Apply stubbornClient (mkApplier false false false false) (Some plan)
             (freshWorld [])
       = (Ok r, w')
    /\ cluster w' = cluster (freshWorld [])
    /\ stdin w' = stdin (freshWorld [])
    /\ res_Succeeded r = res_TotalActions r
    /\ res_Failed r = 0 /\ res_Skipped r = 0
    /\ res_ExitCode r = 0.
Proof.
  apply (X18_observation_ceiling_is_harmless (fun s => s) stubbornClient
           (mkPlanner 1 false) stuckNamespace
           (mkApplier false false false false) (freshWorld [])).
  - unfold maxEscalation. lia.
  - reflexivity.
Defined.

(** * Further properties of GVR resolution *)

Lemma lowerByte_idem (c : ascii) :
  strings.lowerByte (strings.lowerByte c) = strings.lowerByte c.
Proof. destruct c as [[] [] [] [] [] [] [] []]; reflexivity. Qed.

Lemma ToLower_idem (s : string) :
  strings.ToLower (strings.ToLower s) = strings.ToLower s.
Proof.
  induction s as [|c r IH]; [reflexivity|].
  cbn [strings.ToLower]. now rewrite lowerByte_idem, IH.
Qed.

Lemma ToLower_append (s t : string) :
  strings.ToLower (s +:+ t) = strings.ToLower s +:+ strings.ToLower t.
Proof.
  induction s as [|c r IH]; [reflexivity|].
  simpl. now rewrite IH.
Qed.

Lemma ToLower_substring (s : string) :
  forall n m,
    strings.ToLower (substring n m s) = substring n m (strings.ToLower s).
Proof.
  induction s as [|c r IH]; intros n m.
  - destruct n, m; reflexivity.
  - destruct n as [|n]; [destruct m as [|m]|]; cbn [substring strings.ToLower];
      [reflexivity|now rewrite IH|apply IH].
Qed.

Lemma substring_all (t : string) : substring 0 (String.length t) t = t.
Proof. induction t as [|c r IH]; [reflexivity|]. cbn. now rewrite IH. Qed.

Lemma append_cons (c : ascii) (s t : string) :
  String c s +:+ t = String c (s +:+ t).
Proof. reflexivity. Qed.

Lemma substring_append_skip (s t : string) (k : nat) :
  substring (String.length s) k (s +:+ t) = substring 0 k t.
Proof.
  induction s as [|c r IH]; [reflexivity|].
  rewrite append_cons. cbn [String.length substring]. exact IH.
Qed.

Lemma length_append (s t : string) :
  String.length (s +:+ t) = (String.length s + String.length t)%nat.
Proof.
  induction s as [|c r IH]; [reflexivity|].
  rewrite append_cons. cbn [String.length]. now rewrite IH.
Qed.

Lemma append_assoc (s t u : string) : (s +:+ t) +:+ u = s +:+ (t +:+ u).
Proof.
  induction s as [|c r IH]; [reflexivity|].
  rewrite !append_cons. now rewrite IH.
Qed.

Lemma HasSuffix_append (s suffix : string) :
  strings.HasSuffix (s +:+ suffix) suffix = true.
Proof.
  unfold strings.HasSuffix. rewrite length_append.
  replace (String.length s + String.length suffix - String.length suffix)%nat
    with (String.length s) by lia.
  rewrite substring_append_skip, substring_all, String.eqb_refl.
  rewrite andb_true_r. apply Nat.leb_le. lia.
Qed.

Lemma HasSuffix_append_s (s t : string) :
  strings.HasSuffix (s +:+ (t +:+ "s")) "s" = true.
Proof. rewrite <- append_assoc. apply HasSuffix_append. Qed.

(** X19. The resource name [pluralize] makes of a kind always ends in "s", is
    in lower case, and does not depend on the case of the kind's letters. *)
Theorem X19_pluralize_shape (kind : string) :
  strings.HasSuffix (pluralize kind) "s" = true
  /\ strings.ToLower (pluralize kind) = pluralize kind
  /\ pluralize (strings.ToLower kind) = pluralize kind
  /\ pluralize kind <> EmptyString.
Proof.
  assert (Hs : strings.HasSuffix (pluralize kind) "s" = true).
  { unfold pluralize. cbv zeta.
    repeat (match goal with
            | |- context [if ?b then _ else _] => destruct b
            end; try reflexivity).
    - apply (HasSuffix_append_s _ "e").
    - apply (HasSuffix_append_s _ "ie").
    - apply HasSuffix_append. }
  split; [exact Hs|]. split; [|split].
  - unfold pluralize. cbv zeta.
    repeat (match goal with
            | |- context [if ?b then _ else _] => destruct b
            end; try reflexivity).
    + now rewrite ToLower_append, ToLower_idem.
    + now rewrite ToLower_append, ToLower_substring, ToLower_idem.
    + now rewrite ToLower_append, ToLower_idem.
  - unfold pluralize. now rewrite ToLower_idem.
  - intros E. rewrite E in Hs. discriminate Hs.
Qed.

Lemma append_nil_r (s : string) : s +:+ EmptyString = s.
Proof.
  induction s as [|c r IH]; [reflexivity|]. rewrite append_cons.
  now rewrite IH.
Qed.

Lemma Contains_sep_cons (c sep : ascii) (r : string) :
  strings.Contains (String c r) (String sep EmptyString)
  = Ascii.eqb c sep || strings.Contains r (String sep EmptyString).
Proof.
  cbn [strings.Contains String.prefix].
  destruct (ascii_dec sep c) as [E|N].
  - subst c. rewrite Ascii.eqb_refl. now destruct r.
  - destruct (Ascii.eqb_spec c sep) as [E|_]; [now subst|reflexivity].
Qed.

(** [strings.Split] cuts at the first separator: the first piece has no
    separator in it, and what follows the separator is split in turn. *)
Lemma Split_head (sep : ascii) (s : string) :
  exists p ps,
    strings.Split s sep = p :: ps
    /\ strings.Contains p (String sep EmptyString) = false
    /\ ((ps = [] /\ s = p)
        \/ exists r, s = p +:+ String sep r /\ ps = strings.Split r sep).
Proof.
  induction s as [|c r (p & ps & E & Hp & Hs)].
  - exists EmptyString, []. repeat split. now left.
  - cbn [strings.Split]. destruct (Ascii.eqb_spec c sep) as [->|Hne].
    + exists EmptyString, (strings.Split r sep). repeat split.
      right. exists r. split; reflexivity.
    + rewrite E. exists (String c p), ps. split; [reflexivity|]. split.
      * rewrite Contains_sep_cons, Hp.
        destruct (Ascii.eqb_spec c sep); [contradiction|reflexivity].
      * destruct Hs as [[-> ->]|(r' & -> & ->)]; [now left|].
        right. exists r'. split; reflexivity.
Qed.

(** X20. [resolveGVR] never fails and reads group and version off the API
    version (v1 when it is empty) at its slashes: neither contains a slash;
    without a slash the group is empty and the version is the whole string,
    otherwise the string is group, slash, version, and then nothing or a
    further slash and a rest that is dropped. The resource is the plural of
    the kind. *)
Theorem X20_resolveGVR_group_version (target : ResourceRef) :
  exists gvr,
    resolveGVR target = (gvr, None)
    /\ gvr_Resource gvr = pluralize (ref_Kind target)
    /\ strings.Contains (gvr_Group gvr) "/" = false
    /\ strings.Contains (gvr_Version gvr) "/" = false
    /\ ((gvr_Group gvr = EmptyString /\ gvr_Version gvr = gvOf target)
        \/ exists rest,
             gvOf target = gvr_Group gvr +:+ "/" +:+ gvr_Version gvr +:+ rest
             /\ (rest = EmptyString \/ exists r, rest = "/" +:+ r)).
Proof.
  unfold resolveGVR. cbv zeta.
  destruct (Split_head "/" (gvOf target)) as (p & ps & E & Hp & Hs).
  rewrite E. destruct Hs as [[-> Hgv]|(r & Hgv & ->)].
  - cbn. eexists. split; [reflexivity|]. cbn. repeat split; [exact Hp|].
    left. split; [reflexivity|now symmetry].
  - destruct (Split_head "/" r) as (p2 & ps2 & E2 & Hp2 & Hs2).
    rewrite E2. cbn [length Nat.eqb index nth].
    eexists. split; [reflexivity|]. cbn. repeat split; [exact Hp|exact Hp2|].
    right. destruct Hs2 as [[-> Hr]|(r2 & Hr & ->)].
    + exists EmptyString. split; [|now left].
      rewrite Hgv, Hr. now rewrite append_nil_r.
    + exists ("/" +:+ r2). split; [|right; now exists r2].
      rewrite Hgv, Hr. reflexivity.
Qed.

(** * Further properties of the topological ordering *)

(** What [TopologicalSort] returns when neither argument is empty. *)
Lemma TopologicalSort_kahn (actions : list Action) (ownerRefs : OwnerRefs) :
  actions <> [] -> ownerRefs <> [] ->
  exists sortedKeys,
    kahnKeys actions ownerRefs = Some sortedKeys
    /\ TopologicalSort actions ownerRefs
       = Some (fst (pickSorted (buildActionMap actions) (rev sortedKeys))
               ++ addUnseen actions
                    (snd (pickSorted (buildActionMap actions)
                                     (rev sortedKeys))))%list.
Proof.
  intros Ha Ho. destruct (kahnKeys_total actions ownerRefs) as (keys & Hk & _).
  exists keys. split; [exact Hk|].
  unfold TopologicalSort.
  destruct actions as [|a rest]; [contradiction|].
  destruct ownerRefs as [|e refs]; [contradiction|].
  rewrite Hk.
  now destruct (pickSorted (buildActionMap (a :: rest)) (rev keys)).
Qed.

(** The actions the loop over the sorted keys appends have their key marked
    as seen, and no two of them share a key. *)
Lemma pickSorted_keys (actionMap : gmap string Action) :
  (forall k b, actionMap !! k = Some b -> resourceKey (act_Target b) = k) ->
  forall (keys : list string) (result0 : list Action)
         (seen0 : gmap string bool),
    (forall b, List.In b result0 ->
               isSeen seen0 (resourceKey (act_Target b)) = true) ->
    List.NoDup (List.map (fun b => resourceKey (act_Target b)) result0) ->
    let st := fold_left (pickStep actionMap) keys (result0, seen0) in
    (forall b, List.In b (fst st) ->
               isSeen (snd st) (resourceKey (act_Target b)) = true)
    /\ List.NoDup (List.map (fun b => resourceKey (act_Target b)) (fst st)).
Proof.
  intros Hkey. induction keys as [|key rest IH]; intros result0 seen0 Hs Hn.
  - split; assumption.
  - cbn [fold_left pickStep].
    destruct (actionMap !! key) as [action|] eqn:Ea; [|now apply IH].
    destruct (isSeen seen0 key) eqn:Es; cbn [negb]; [now apply IH|].
    apply IH.
    + intros b Hb. apply isSeen_insert. apply in_app_or in Hb.
      destruct Hb as [Hb|[<-|[]]]; [right; now apply Hs|left].
      now apply Hkey.
    + rewrite List.map_app. cbn [List.map].
      apply List.NoDup_app; [exact Hn|repeat constructor; intros []|].
      intros k Hk [<-|[]].
      rewrite (Hkey _ _ Ea) in Hk.
      apply in_map_iff in Hk. destruct Hk as (b & Hb & Hin).
      apply Hs in Hin. rewrite Hb in Hin. congruence.
Qed.

(** X21. [TopologicalSort] always returns, also when the owner references
    form a cycle. It invents no action, and every key of an input action is
    the key of an action of the result; so the result is empty only for an
    empty input. *)
Theorem X21_topological_sort_covers (actions : list Action)
    (ownerRefs : OwnerRefs) :
  exists result,
    TopologicalSort actions ownerRefs = Some result
    /\ (forall b, List.In b result -> List.In b actions)
    /\ (forall a, List.In a actions ->
          exists b, List.In b result
                    /\ resourceKey (act_Target b) = resourceKey (act_Target a))
    /\ (result = [] <-> actions = []).
Proof.
  assert (H : exists result,
             TopologicalSort actions ownerRefs = Some result
             /\ (forall b, List.In b result -> List.In b actions)
             /\ (forall a, List.In a actions ->
                   exists b, List.In b result
                             /\ resourceKey (act_Target b)
                                = resourceKey (act_Target a))).
  { destruct actions as [|a0 rest] eqn:Eact.
    { exists []. split; [reflexivity|]. split; [auto|intros a []]. }
    destruct ownerRefs as [|e refs] eqn:Eref.
    { exists (OrderByDependencies (a0 :: rest)). split; [reflexivity|].
      split.
      - intros b. apply Permutation_in, OrderByDependencies_Permutation.
      - intros a Ha. exists a. split; [|reflexivity].
        revert Ha. apply Permutation_in. symmetry.
        apply OrderByDependencies_Permutation. }
    rewrite <- Eact, <- Eref.
    destruct (TopologicalSort_kahn actions ownerRefs) as (keys & _ & E);
      [congruence|congruence|].
    rewrite E. eexists. split; [reflexivity|].
    destruct (pickSorted_fold (buildActionMap actions) (rev keys) [] ∅)
      as (H1 & H2 & H3).
    fold (pickSorted (buildActionMap actions) (rev keys)) in H1, H2, H3.
    split.
    - intros b Hb. apply in_app_or in Hb. destruct Hb as [Hb|Hb].
      + destruct (H2 b Hb) as [[]|(k & _ & Hk)].
        now apply buildActionMap_key in Hk.
      + unfold addUnseen in Hb. now apply filter_In in Hb.
    - intros a Ha.
      destruct (isSeen (snd (pickSorted (buildActionMap actions) (rev keys)))
                       (resourceKey (act_Target a))) eqn:Es.
      + destruct (buildActionMap_Some actions a Ha) as [b Hb].
        exists b. split; [|now apply buildActionMap_key in Hb].
        apply in_or_app. left. apply (H3 ltac:(intros ? ? Hf; discriminate Hf)
                                         _ _ Es Hb).
      + exists a. split; [|reflexivity]. apply in_or_app. right.
        unfold addUnseen. apply filter_In. split; [exact Ha|].
        now rewrite Es. }
  destruct H as (result & E & Hsub & Hcov).
  exists result. split; [exact E|]. split; [exact Hsub|].
  split; [exact Hcov|]. split.
  - intros ->. destruct actions as [|a rest]; [reflexivity|].
    destruct (Hcov a (or_introl eq_refl)) as (b & [] & _).
  - intros ->. destruct result as [|b rest]; [reflexivity|].
    destruct (Hsub b (or_introl eq_refl)).
Qed.

(** X22. On actions with pairwise distinct resource keys [TopologicalSort]
    only reorders: its result is a permutation of the input. *)
Theorem X22_topological_sort_permutation (actions : list Action)
    (ownerRefs : OwnerRefs) :
  NoDup (List.map (fun a => resourceKey (act_Target a)) actions) ->
  exists result,
    TopologicalSort actions ownerRefs = Some result
    /\ Permutation result actions.
Proof.
  intros Hnd. apply NoDup_ListNoDup in Hnd.
  destruct actions as [|a0 rest] eqn:Eact.
  { exists []. split; reflexivity. }
  destruct ownerRefs as [|e refs] eqn:Eref.
  { exists (OrderByDependencies (a0 :: rest)). split; [reflexivity|].
    apply OrderByDependencies_Permutation. }
  rewrite <- Eact, <- Eref in *.
  destruct (TopologicalSort_kahn actions ownerRefs) as (keys & _ & E);
    [congruence|congruence|].
  rewrite E. eexists. split; [reflexivity|].
  destruct (pickSorted_fold (buildActionMap actions) (rev keys) [] ∅)
    as (H1 & H2 & H3).
  destruct (pickSorted_keys (buildActionMap actions)
              ltac:(intros k b Hk; now apply buildActionMap_key in Hk)
              (rev keys) [] ∅ ltac:(intros b []) ltac:(constructor))
    as [K1 K2].
  fold (pickSorted (buildActionMap actions) (rev keys)) in H1, H2, H3, K1, K2.
  set (st := pickSorted (buildActionMap actions) (rev keys)) in *.
  assert (Hinj : forall a b, List.In a actions -> List.In b actions ->
                   resourceKey (act_Target a) = resourceKey (act_Target b) ->
                   a = b).
  { clear -Hnd. induction actions as [|x r IH]; intros a b Ha Hb Hk;
      [destruct Ha|].
    inversion Hnd as [|? ? Hx Hr]; subst.
    destruct Ha as [<-|Ha]; destruct Hb as [<-|Hb].
    - reflexivity.
    - exfalso. apply Hx. rewrite Hk.
      now apply (in_map (fun a => resourceKey (act_Target a))).
    - exfalso. apply Hx. rewrite <- Hk.
      now apply (in_map (fun a => resourceKey (act_Target a))).
    - now apply IH. }
  apply Stdlib.Sorting.Permutation.NoDup_Permutation.
  - apply List.NoDup_app.
    + now apply NoDup_map_inv in K2.
    + unfold addUnseen. apply List.NoDup_filter.
      now apply NoDup_map_inv in Hnd.
    + intros b Hb Hb'. apply K1 in Hb.
      unfold addUnseen in Hb'. apply filter_In in Hb' as [_ Hb'].
      rewrite Hb in Hb'. discriminate Hb'.
  - now apply NoDup_map_inv in Hnd.
  - intros a. split.
    + intros Ha. apply in_app_or in Ha. destruct Ha as [Ha|Ha].
      * destruct (H2 a Ha) as [[]|(k & _ & Hk)].
        now apply buildActionMap_key in Hk.
      * unfold addUnseen in Ha. now apply filter_In in Ha.
    + intros Ha. apply in_or_app.
      destruct (isSeen (snd st) (resourceKey (act_Target a))) eqn:Es.
      * left. destruct (buildActionMap_Some actions a Ha) as [b Hb].
        assert (Hb' := Hb). apply buildActionMap_key in Hb' as [Hin Hk].
        rewrite (Hinj a b Ha Hin (eq_sym Hk)).
        apply (H3 ltac:(intros ? ? Hf; discriminate Hf) _ _ Es Hb).
      * right. unfold addUnseen. apply filter_In. split; [exact Ha|].
        now rewrite Es.
Qed.

(** X22 on the three pods, with pod a owned by pod b. *)
Lemma X22_topological_sort_permutation_witness :
  exists result,
    TopologicalSort threePods aOwnedByB = Some result
    /\ Permutation result threePods.
Proof.
  apply (X22_topological_sort_permutation threePods aOwnedByB).
  apply NoDup_ListNoDup. vm_compute.
  repeat constructor; cbn; intuition discriminate.
Defined.

(** * Further properties of the counting helpers *)

Section CountBy.

Context {K : Type} `{Countable K} (f : Action -> K) (eqb : K -> K -> bool).

Hypothesis eqb_eq : forall x y, eqb x y = true <-> x = y.

Lemma total_insert (m : gmap K Z) (k : K) (v : Z) :
  total (<[k := v]> m) = total m - default 0 (m !! k) + v.
Proof.
  unfold total. destruct (m !! k) as [u|] eqn:E; simpl.
  - rewrite <- (insert_delete_eq m k v).
    rewrite map_fold_insert_L; [|intros; cbn beta; lia|apply lookup_delete_eq].
    rewrite (map_fold_delete_L _ _ k u m); [|intros; cbn beta; lia|exact E].
    lia.
  - rewrite map_fold_insert_L; [|intros; cbn beta; lia|exact E]. lia.
Qed.

Lemma countBy_fold (actions : list Action) :
  forall m : gmap K Z,
    (forall k v, m !! k = Some v -> 0 < v) ->
    let m' :=
      fold_left
        (fun counts a => <[f a := default 0 (counts !! f a) + 1]> counts)
        actions m in
    (forall k,
        default 0 (m' !! k)
        = default 0 (m !! k)
          + Z.of_nat (length (List.filter (fun a => eqb (f a) k) actions)))
    /\ (forall k v, m' !! k = Some v -> 0 < v)
    /\ total m' = total m + Z.of_nat (length actions).
Proof.
  induction actions as [|a rest IH]; intros m Hpos.
  - cbn. split; [intros k; lia|]. split; [exact Hpos|lia].
  - cbn [fold_left].
    assert (Hd : 0 <= default 0 (m !! f a)).
    { destruct (m !! f a) as [u|] eqn:E; simpl; [|lia].
      apply Hpos in E. lia. }
    destruct (IH (<[f a := default 0 (m !! f a) + 1]> m)) as (H1 & H2 & H3).
    { intros k v. destruct (decide (f a = k)) as [<-|Hne].
      - rewrite lookup_insert_eq. intros [= <-]. lia.
      - rewrite lookup_insert_ne by exact Hne. apply Hpos. }
    split; [|split; [exact H2|]].
    + intros k. rewrite H1. cbn [List.filter].
      destruct (eqb (f a) k) eqn:E.
      * apply eqb_eq in E. subst k. rewrite lookup_insert_eq.
        cbn [default length]. unfold id. lia.
      * assert (Hne : f a <> k).
        { intros Heq. apply eqb_eq in Heq. congruence. }
        rewrite lookup_insert_ne by exact Hne. reflexivity.
    + rewrite H3, total_insert. cbn [length]. lia.
Qed.

Lemma countBy_lookup (actions : list Action) (k : K) :
  let m' :=
    fold_left
      (fun counts a => <[f a := default 0 (counts !! f a) + 1]> counts)
      actions ∅ in
  let n := Z.of_nat (length (List.filter (fun a => eqb (f a) k) actions)) in
  m' !! k = (if n =? 0 then None else Some n)
  /\ total m' = Z.of_nat (length actions).
Proof.
  destruct (countBy_fold actions ∅) as (H1 & H2 & H3).
  { intros k' v. rewrite lookup_empty. discriminate. }
  cbv zeta in *. split.
  - specialize (H1 k). rewrite lookup_empty in H1.
    set (n := Z.of_nat (length (List.filter (fun a => eqb (f a) k) actions)))
      in *.
    destruct (fold_left _ actions ∅ !! k) as [v|] eqn:E;
      cbn [default from_option] in H1; unfold id in H1.
    + apply H2 in E. destruct (Z.eqb_spec n 0); [lia|]. f_equal. lia.
    + destruct (Z.eqb_spec n 0); [reflexivity|lia].
  - rewrite H3. unfold total. rewrite map_fold_empty. lia.
Qed.

End CountBy.

(** X23. [CountActionsByLevel] maps each escalation level to the number of
    actions of that level; a level no action has is not a key of the map, and
    the counts add up to the number of actions. *)
Theorem X23_count_by_level (actions : list Action) (level : EscalationLevel) :
  CountActionsByLevel actions !! level
  = (if Z.of_nat
          (length (List.filter (fun a => act_EscalationLevel a =? level)
                               actions)) =? 0
     then None
     else Some (Z.of_nat
                  (length (List.filter (fun a => act_EscalationLevel a =? level)
                                       actions))))
  /\ total (CountActionsByLevel actions) = Z.of_nat (length actions).
Proof. apply (countBy_lookup act_EscalationLevel Z.eqb Z.eqb_eq). Qed.

(** X24. [SummaryByRisk] maps each risk level to the number of actions of
    that risk; a risk no action has is not a key of the map, and the counts
    add up to the number of actions. *)
Theorem X24_summary_by_risk (actions : list Action) (risk : RiskLevel) :
  SummaryByRisk actions !! risk
  = (if Z.of_nat
          (length (List.filter (fun a => String.eqb (act_Risk a) risk)
                               actions)) =? 0
     then None
     else Some (Z.of_nat
                  (length (List.filter (fun a => String.eqb (act_Risk a) risk)
                                       actions))))
  /\ total (SummaryByRisk actions) = Z.of_nat (length actions).
Proof. apply (countBy_lookup act_Risk String.eqb String.eqb_eq). Qed.

(** * The order Kahn's algorithm emits *)

Lemma degreeOf_insert (inDegree : gmap string Z) (key k : string) (v : Z) :
  degreeOf (<[key := v]> inDegree) k
  = if decide (k = key) then v else degreeOf inDegree k.
Proof.
  unfold degreeOf. destruct (decide (k = key)) as [->|Hne].
  - now rewrite lookup_insert_eq.
  - now rewrite lookup_insert_ne by congruence.
Qed.

Lemma release_cons (dep : string) (rest : list string)
    (inDegree : gmap string Z) (queue : list string) :
  release (dep :: rest) (inDegree, queue)
  = release rest
      (if degreeOf inDegree dep - 1 =? 0
       then (<[dep := degreeOf inDegree dep - 1]> inDegree,
             (queue ++ [dep])%list)
       else (<[dep := degreeOf inDegree dep - 1]> inDegree, queue)).
Proof. reflexivity. Qed.

(** One pass over the dependents of a key: every in-degree drops by the
    number of times its key is listed, and the keys that reach zero join the
    queue, once each. *)
Lemma release_spec (deps : list string) :
  forall (inDegree : gmap string Z) (queue : list string),
    (forall k, Z.of_nat (count_occ string_dec deps k) <= degreeOf inDegree k) ->
    exists added,
      snd (release deps (inDegree, queue)) = (queue ++ added)%list
      /\ (forall k,
            degreeOf (fst (release deps (inDegree, queue))) k
            = degreeOf inDegree k - Z.of_nat (count_occ string_dec deps k))
      /\ List.NoDup added
      /\ (forall k, List.In k added <->
                    List.In k deps
                    /\ degreeOf inDegree k
                       = Z.of_nat (count_occ string_dec deps k)).
Proof.
  induction deps as [|dep rest IH]; intros inDegree queue Hpre.
  - exists []. cbn. split; [now rewrite app_nil_r|].
    split; [intros k; lia|]. split; [constructor|]. intros k. tauto.
  - rewrite release_cons.
    set (degree := degreeOf inDegree dep - 1).
    set (inD1 := <[dep := degree]> inDegree).
    assert (Hcount : forall k,
               count_occ string_dec (dep :: rest) k
               = ((if decide (k = dep) then 1 else 0)
                  + count_occ string_dec rest k)%nat).
    { intros k. destruct (decide (k = dep)) as [->|Hne].
      - now rewrite count_occ_cons_eq.
      - now rewrite count_occ_cons_neq by congruence. }
    assert (Hd1 : forall k,
               degreeOf inD1 k
               = if decide (k = dep) then degree else degreeOf inDegree k).
    { intros k. apply degreeOf_insert. }
    assert (Hpre1 : forall k,
               Z.of_nat (count_occ string_dec rest k) <= degreeOf inD1 k).
    { intros k. specialize (Hpre k). rewrite Hcount in Hpre. rewrite Hd1.
      subst degree. destruct (decide (k = dep)) as [->|Hne]; lia. }
    assert (Hin0 : forall k, List.In k rest ->
                             (0 < count_occ string_dec rest k)%nat).
    { intros k. apply count_occ_In. }
    assert (Hin1 : forall k, (0 < count_occ string_dec rest k)%nat ->
                             List.In k rest).
    { intros k. apply count_occ_In. }
    destruct (Z.eqb_spec degree 0) as [Hz|Hz].
    + destruct (IH inD1 (queue ++ [dep])%list Hpre1)
        as (added & E & Hdeg & Hnd & Hin).
      exists (dep :: added). split; [|split; [|split]].
      * rewrite E, <- app_assoc. reflexivity.
      * intros k. rewrite Hdeg, Hd1, Hcount. subst degree.
        destruct (decide (k = dep)) as [->|Hne]; lia.
      * constructor; [|exact Hnd]. intros Hdep. apply Hin in Hdep as [Hr He].
        apply Hin0 in Hr. rewrite Hd1 in He.
        destruct (decide (dep = dep)); [lia|congruence].
      * intros k. cbn [List.In]. rewrite Hin, Hd1, Hcount.
        specialize (Hpre1 k). rewrite Hd1 in Hpre1.
        destruct (decide (k = dep)) as [->|Hne].
        -- split; [|now left]. intros _. split; [now left|]. subst degree. lia.
        -- split.
           ++ intros [Hk|[Hr He]]; [congruence|]. split; [now right|lia].
           ++ intros [[Hk|Hr] He]; [congruence|]. right. split; [exact Hr|lia].
    + destruct (IH inD1 queue Hpre1) as (added & E & Hdeg & Hnd & Hin).
      exists added. split; [exact E|]. split; [|split; [exact Hnd|]].
      * intros k. rewrite Hdeg, Hd1, Hcount. subst degree.
        destruct (decide (k = dep)) as [->|Hne]; lia.
      * intros k. cbn [List.In]. rewrite Hin, Hd1, Hcount.
        destruct (decide (k = dep)) as [->|Hne].
        -- split.
           ++ intros [Hr He]. split; [now left|]. subst degree. lia.
           ++ intros [_ He]. split; [|subst degree; lia].
              apply Hin1. subst degree. lia.
        -- split.
           ++ intros [Hr He]. split; [now right|lia].
           ++ intros [[Hk|Hr] He]; [congruence|]. split; [exact Hr|lia].
Qed.

Lemma precedes_snoc {A : Type} (l : list A) (x y z : A) :
  precedes l x y -> precedes (l ++ [z]) x y.
Proof.
  intros (l1 & l2 & l3 & ->). exists l1, l2, (l3 ++ [z])%list.
  now rewrite <- !app_assoc, <- !app_comm_cons, <- app_assoc.
Qed.

Lemma sortStrings_In (l : list string) (k : string) :
  List.In k (sortStrings l) <-> List.In k l.
Proof.
  split; apply Permutation_in;
    [apply sortStrings_Permutation|symmetry; apply sortStrings_Permutation].
Qed.

(** The loop keeps [kahnInv], so the keys it returns are distinct and each
    follows the owners it is listed under. *)
Lemma kahn_order (dependents : gmap string (list string)) (fuel : nat) :
  forall (queue : list string) (inDegree : gmap string Z)
         (done keys : list string),
    kahnInv dependents queue inDegree done ->
    kahn fuel dependents queue inDegree done = Some keys ->
    List.NoDup keys
    /\ (forall k o, List.In k keys ->
                    List.In k (dependentsOf dependents o) ->
                    precedes keys o k).
Proof.
  induction fuel as [|fuel IH]; intros queue inDegree done keys Hinv Hk.
  - destruct queue as [|current queue]; [|discriminate Hk].
    injection Hk as <-. destruct Hinv as (Ha & _ & _ & Hd).
    rewrite app_nil_r in Ha. now split.
  - destruct queue as [|current queue].
    + injection Hk as <-. destruct Hinv as (Ha & _ & _ & Hd).
      rewrite app_nil_r in Ha. now split.
    + cbn [kahn] in Hk. destruct Hinv as (Ha & Hb & Hc & Hd).
      assert (Hcur : ~ List.In current done).
      { apply NoDup_remove_2 in Ha. intros Hin. apply Ha.
        apply in_or_app. now left. }
      assert (Hpre : forall k,
                 Z.of_nat (count_occ string_dec
                             (dependentsOf dependents current) k)
                 <= degreeOf inDegree k).
      { intros k. specialize (Hc k [current]). cbn [sumOcc fold_right] in Hc.
        rewrite Nat.add_0_r in Hc. apply Hc.
        - constructor; [intros []|constructor].
        - intros o [<-|[]]. exact Hcur. }
      destruct (release_spec (dependentsOf dependents current) inDegree queue
                  Hpre) as (added & E & Hdeg & Hnd & Hin).
      destruct (release (dependentsOf dependents current) (inDegree, queue))
        as [inD' q'] eqn:Er.
      cbn [fst snd] in E, Hdeg. subst q'.
      refine (IH _ _ _ _ _ Hk). clear IH Hk.
      assert (Hadd : forall k, List.In k added ->
                               ~ List.In k (done ++ current :: queue)).
      { intros k Hka Hkd. apply Hin in Hka as [Hdep He].
        apply (count_occ_In string_dec) in Hdep.
        rewrite (Hb k Hkd) in He. lia. }
      split; [|split; [|split]].
      * apply (Permutation_NoDup
                 (l := ((done ++ current :: queue) ++ added)%list)).
        -- rewrite <- !app_assoc. apply Permutation_app_head.
           cbn [app]. apply Permutation_cons; [reflexivity|].
           symmetry. apply sortStrings_Permutation.
        -- apply List.NoDup_app; [exact Ha|exact Hnd|].
           intros k Hkd Hka. exact (Hadd k Hka Hkd).
      * intros k Hk. rewrite Hdeg.
        assert (Hk' : List.In k (done ++ current :: queue)
                      \/ List.In k added).
        { apply in_app_or in Hk. destruct Hk as [Hk|Hk].
          - left. apply in_app_or in Hk. apply in_or_app.
            destruct Hk as [Hk|[<-|[]]]; [now left|right; now left].
          - apply (proj1 (sortStrings_In _ _)) in Hk. apply in_app_or in Hk.
            destruct Hk as [Hk|Hk]; [|now right].
            left. apply in_or_app. right. now right. }
        destruct Hk' as [Hk'|Hk'].
        -- specialize (Hpre k). rewrite (Hb k Hk') in *. lia.
        -- apply Hin in Hk' as [_ He]. lia.
      * intros k os Hos Hav. rewrite Hdeg.
        specialize (Hc k (current :: os)). cbn [sumOcc fold_right] in Hc.
        fold (sumOcc dependents k os) in Hc.
        assert (Hc' : Z.of_nat
                        (count_occ string_dec
                           (dependentsOf dependents current) k
                         + sumOcc dependents k os)
                      <= degreeOf inDegree k).
        { apply Hc.
          - constructor; [|exact Hos]. intros Hco. apply (Hav _ Hco).
            apply in_or_app. right. now left.
          - intros o [<-|Ho]; [exact Hcur|]. intros Hod. apply (Hav _ Ho).
            apply in_or_app. now left. }
        lia.
      * intros k o Hk Hdep. apply in_app_or in Hk.
        destruct Hk as [Hk|[<-|[]]].
        -- apply precedes_snoc. now apply Hd.
        -- destruct (in_dec string_dec o done) as [Ho|Ho].
           ++ apply in_split in Ho as (l1 & l2 & ->).
              exists l1, l2, []. now rewrite <- app_assoc.
           ++ exfalso. specialize (Hc current [o]).
              cbn [sumOcc fold_right] in Hc.
              apply (count_occ_In string_dec) in Hdep.
              assert (Hz : degreeOf inDegree current = 0).
              { apply Hb. apply in_or_app. right. now left. }
              assert (Hc' : Z.of_nat
                              (count_occ string_dec
                                 (dependentsOf dependents o) current + 0)
                            <= degreeOf inDegree current).
              { apply Hc; [constructor; [intros []|constructor]|].
                intros o' [<-|[]]. exact Ho. }
              lia.
Qed.

(** ** The graph the second loop builds *)

Lemma addOwners_cons (key owner : string) (owners : list string)
    (inDegree : gmap string Z) (dependents : gmap string (list string)) :
  addOwners key (owner :: owners) (inDegree, dependents)
  = addOwners key owners
      (match inDegree !! owner with
       | Some _ =>
           (<[key := degreeOf inDegree key + 1]> inDegree,
            <[owner := (dependentsOf dependents owner ++ [key])%list]>
              dependents)
       | None => (inDegree, dependents)
       end).
Proof. reflexivity. Qed.

Lemma dependentsOf_insert (dependents : gmap string (list string))
    (owner o : string) (v : list string) :
  dependentsOf (<[owner := v]> dependents) o
  = if decide (o = owner) then v else dependentsOf dependents o.
Proof.
  unfold dependentsOf. destruct (decide (o = owner)) as [->|Hne].
  - now rewrite lookup_insert_eq.
  - now rewrite lookup_insert_ne by congruence.
Qed.

Lemma sumOcc_insert_notin (dependents : gmap string (list string))
    (owner k : string) (v : list string) (os : list string) :
  ~ List.In owner os ->
  sumOcc (<[owner := v]> dependents) k os = sumOcc dependents k os.
Proof.
  induction os as [|o os IH]; intros Hn; [reflexivity|].
  cbn [sumOcc fold_right]. fold (sumOcc (<[owner := v]> dependents) k os).
  fold (sumOcc dependents k os).
  rewrite IH by (intros Hin; apply Hn; now right).
  rewrite dependentsOf_insert.
  destruct (decide (o = owner)) as [->|Hne]; [|reflexivity].
  exfalso. apply Hn. now left.
Qed.

Lemma sumOcc_insert_le (dependents : gmap string (list string))
    (owner key k : string) (os : list string) :
  List.NoDup os ->
  (sumOcc (<[owner := (dependentsOf dependents owner ++ [key])%list]>
             dependents) k os
   <= sumOcc dependents k os + (if decide (k = key) then 1 else 0))%nat.
Proof.
  induction 1 as [|o os Hn Hnd IH]; [cbn; lia|].
  cbn [sumOcc fold_right].
  match goal with
  | |- context [fold_right ?g 0%nat os] =>
      change (fold_right g 0%nat os)
        with (sumOcc (<[owner := (dependentsOf dependents owner ++ [key])%list]>
                        dependents) k os)
  end.
  fold (sumOcc dependents k os).
  rewrite dependentsOf_insert.
  destruct (decide (o = owner)) as [->|Hne].
  - rewrite sumOcc_insert_notin by exact Hn.
    rewrite count_occ_app. cbn [count_occ].
    destruct (string_dec key k) as [Hk|Hk];
      destruct (decide (k = key)) as [E|E]; try congruence; lia.
  - lia.
Qed.

Lemma addOwners_graphInv (key : string) (owners : list string) :
  forall st, graphInv st -> graphInv (addOwners key owners st).
Proof.
  induction owners as [|owner rest IH]; intros [inDegree dependents] Hg;
    [exact Hg|].
  rewrite addOwners_cons. apply IH.
  destruct (inDegree !! owner) as [v|]; [|exact Hg].
  intros k os Hos. cbn [fst snd]. rewrite degreeOf_insert.
  assert (H1 := sumOcc_insert_le dependents owner key k os Hos).
  assert (H2 := Hg k os Hos). cbn [fst snd] in H2.
  destruct (decide (k = key)) as [->|Hne]; lia.
Qed.

Lemma initInDegree_values (actions : list Action) :
  forall (m : gmap string Z),
    (forall k v, m !! k = Some v -> v = 0) ->
    forall k v,
      fold_left
        (fun inDegree action =>
           let key := resourceKey (act_Target action) in
           match inDegree !! key with
           | Some _ => inDegree
           | None => <[key := 0]> inDegree
           end) actions m !! k = Some v ->
      v = 0.
Proof.
  induction actions as [|a rest IH]; intros m Hm; [exact Hm|].
  cbn [fold_left]. apply IH.
  destruct (m !! resourceKey (act_Target a)) as [u|] eqn:E; [exact Hm|].
  intros k v. destruct (decide (k = resourceKey (act_Target a))) as [->|Hne].
  - rewrite lookup_insert_eq. congruence.
  - rewrite lookup_insert_ne by congruence. apply Hm.
Qed.

Lemma sumOcc_empty (k : string) (os : list string) :
  sumOcc ∅ k os = 0%nat.
Proof.
  induction os as [|o os IH]; [reflexivity|].
  cbn [sumOcc fold_right]. fold (sumOcc ∅ k os). rewrite IH.
  unfold dependentsOf. now rewrite lookup_empty.
Qed.

Lemma buildGraph_graphInv (actions : list Action) (ownerRefs : OwnerRefs) :
  graphInv (buildGraph actions ownerRefs).
Proof.
  unfold buildGraph.
  assert (H0 : graphInv (initInDegree actions, ∅)).
  { intros k os _. cbn [fst snd]. rewrite sumOcc_empty. unfold degreeOf.
    destruct (initInDegree actions !! k) as [v|] eqn:E; cbn; [|lia].
    apply (initInDegree_values actions ∅) in E; [unfold id; lia|].
    intros k' v'. rewrite lookup_empty. discriminate. }
  revert H0. generalize (initInDegree actions, (∅ : gmap string (list string))).
  induction ownerRefs as [|[key owners] rest IH]; intros st Hg; [exact Hg|].
  cbn [fold_left]. apply IH. now apply addOwners_graphInv.
Qed.

Lemma addOwners_mono (key : string) (owners : list string) :
  forall st,
    (forall o, is_Some (fst st !! o) ->
               is_Some (fst (addOwners key owners st) !! o))
    /\ (forall o k, List.In k (dependentsOf (snd st) o) ->
                    List.In k (dependentsOf (snd (addOwners key owners st)) o)).
Proof.
  induction owners as [|owner rest IH]; intros [inDegree dependents];
    [split; auto|].
  rewrite addOwners_cons.
  destruct (inDegree !! owner) as [v|] eqn:E; [|apply IH].
  match goal with
  | |- context [addOwners key rest ?st1] => destruct (IH st1) as [M1 M2]
  end.
  split.
  - intros o Ho. apply M1. cbn [fst] in *.
    destruct (decide (o = key)) as [->|Hne];
      [rewrite lookup_insert_eq; now eexists|].
    now rewrite lookup_insert_ne by congruence.
  - intros o k Hk. apply M2. cbn [snd] in *. rewrite dependentsOf_insert.
    destruct (decide (o = owner)) as [->|Hne]; [|exact Hk].
    apply in_or_app. now left.
Qed.

Lemma addOwners_edge (key : string) (owners : list string) (o : string) :
  forall st,
    List.In o owners -> is_Some (fst st !! o) ->
    List.In key (dependentsOf (snd (addOwners key owners st)) o).
Proof.
  induction owners as [|owner rest IH]; intros [inDegree dependents] Hin Ho;
    [destruct Hin|].
  rewrite addOwners_cons. cbn [fst] in Ho.
  destruct (string_dec owner o) as [->|Hne].
  - destruct Ho as [v Ho]. rewrite Ho.
    apply addOwners_mono. cbn [snd]. rewrite dependentsOf_insert.
    destruct (decide (o = o)); [|congruence].
    apply in_or_app. right. now left.
  - destruct Hin as [Heq|Hin]; [congruence|].
    apply IH; [exact Hin|].
    destruct (inDegree !! owner) as [v|]; [|exact Ho].
    cbn [fst]. destruct (decide (o = key)) as [->|Hk];
      [rewrite lookup_insert_eq; now eexists|].
    now rewrite lookup_insert_ne by congruence.
Qed.

(** An owner reference to the key of an action is an edge of the graph. *)
Lemma buildGraph_edge (actions : list Action) (ownerRefs : OwnerRefs)
    (k o : string) (owners : list string) (b : Action) :
  List.In (k, owners) ownerRefs -> List.In o owners ->
  List.In b actions -> resourceKey (act_Target b) = o ->
  List.In k (dependentsOf (snd (buildGraph actions ownerRefs)) o).
Proof.
  intros He Ho Hb Hkey. unfold buildGraph.
  assert (H0 : is_Some (fst (initInDegree actions,
                             (∅ : gmap string (list string))) !! o)).
  { cbn [fst]. rewrite <- Hkey. rewrite (initInDegree_zero actions b Hb).
    now eexists. }
  revert H0. generalize (initInDegree actions, (∅ : gmap string (list string))).
  induction ownerRefs as [|[key owners'] rest IH]; intros st Hs;
    [destruct He|].
  cbn [fold_left]. destruct He as [[= -> ->]|He].
  - clear IH.
    assert (H1 := addOwners_edge k owners o st Ho Hs).
    revert H1. generalize (addOwners k owners st). clear.
    induction rest as [|[key owners'] rest IH]; intros st Hs; [exact Hs|].
    cbn [fold_left]. apply IH. now apply addOwners_mono.
  - apply IH; [exact He|]. now apply addOwners_mono.
Qed.

(** ** The start of the loop *)

Lemma NoDup_map_filter {A B : Type} (f : A -> B) (P : A -> bool)
    (l : list A) :
  List.NoDup (List.map f l) -> List.NoDup (List.map f (List.filter P l)).
Proof.
  induction l as [|a l IH]; intros Hn; [constructor|].
  cbn [List.map] in Hn. inversion Hn as [|? ? Ha Hl]; subst.
  cbn [List.filter]. destruct (P a); [|now apply IH].
  cbn [List.map]. constructor; [|now apply IH].
  intros Hin. apply Ha. apply in_map_iff in Hin as (x & Hx & Hin).
  apply filter_In in Hin as [Hin _]. rewrite <- Hx. now apply in_map.
Qed.

Lemma readyKeys_NoDup (inDegree : gmap string Z) :
  List.NoDup (readyKeys inDegree).
Proof.
  unfold readyKeys.
  eapply Permutation_NoDup; [symmetry; apply sortStrings_Permutation|].
  apply NoDup_map_filter. apply NoDup_ListNoDup.
  exact (NoDup_fst_map_to_list inDegree).
Qed.

Lemma readyKeys_zero (inDegree : gmap string Z) (k : string) :
  List.In k (readyKeys inDegree) -> degreeOf inDegree k = 0.
Proof.
  unfold readyKeys. intros Hk. apply (proj1 (sortStrings_In _ _)) in Hk.
  apply in_map_iff in Hk as ([k' v] & Hf & Hin). cbn in Hf. subst k'.
  apply filter_In in Hin as [Hin Hz].
  apply list_elem_of_In, elem_of_map_to_list in Hin.
  apply Z.eqb_eq in Hz. unfold degreeOf. now rewrite Hin, Hz.
Qed.

(** The keys Kahn's algorithm emits are distinct, and a key follows every
    owner it is listed under. *)
Lemma kahnKeys_order (actions : list Action) (ownerRefs : OwnerRefs)
    (keys : list string) :
  kahnKeys actions ownerRefs = Some keys ->
  List.NoDup keys
  /\ (forall k o,
        List.In k keys ->
        List.In k (dependentsOf (snd (buildGraph actions ownerRefs)) o) ->
        precedes keys o k).
Proof.
  unfold kahnKeys. assert (Hg := buildGraph_graphInv actions ownerRefs).
  destruct (buildGraph actions ownerRefs) as [inDegree dependents].
  cbn [snd]. apply kahn_order.
  split; [apply readyKeys_NoDup|]. split; [apply readyKeys_zero|].
  split; [|intros k o []].
  intros k os Hos _. exact (Hg k os Hos).
Qed.

(** ** From the keys back to the actions *)

Lemma precedes_rev {A : Type} (l : list A) (x y : A) :
  precedes l x y -> precedes (rev l) y x.
Proof.
  intros (l1 & l2 & l3 & ->). exists (rev l3), (rev l2), (rev l1).
  rewrite rev_app_distr. cbn [rev]. rewrite rev_app_distr. cbn [rev].
  now rewrite <- !app_assoc.
Qed.

Lemma precedes_flat_map {A B : Type} (f : A -> list B) (l : list A)
    (x y : A) (a b : B) :
  precedes l x y -> f x = [a] -> f y = [b] -> precedes (flat_map f l) a b.
Proof.
  intros (l1 & l2 & l3 & ->) Hx Hy.
  exists (flat_map f l1), (flat_map f l2), (flat_map f l3).
  rewrite flat_map_app. cbn [flat_map]. rewrite flat_map_app.
  cbn [flat_map]. now rewrite Hx, Hy.
Qed.

Lemma precedes_app {A : Type} (l t : list A) (x y : A) :
  precedes l x y -> precedes (l ++ t) x y.
Proof.
  intros (l1 & l2 & l3 & ->). exists l1, l2, (l3 ++ t)%list.
  now rewrite <- !app_assoc, <- !app_comm_cons, <- app_assoc.
Qed.

(** On distinct keys the [seen] test of the loop over the sorted keys never
    fires: the loop appends the action of each key that has one. *)
Lemma pickSorted_flat (actionMap : gmap string Action) (keys : list string) :
  forall (result0 : list Action) (seen0 : gmap string bool),
    List.NoDup keys ->
    (forall k, List.In k keys -> isSeen seen0 k = false) ->
    fst (fold_left (pickStep actionMap) keys (result0, seen0))
    = (result0 ++ flat_map (pick actionMap) keys)%list.
Proof.
  induction keys as [|key rest IH]; intros result0 seen0 Hn Hs.
  - cbn. now rewrite app_nil_r.
  - inversion Hn as [|? ? Hk Hr]; subst.
    cbn [fold_left pickStep flat_map]. unfold pick at 1.
    destruct (actionMap !! key) as [action|] eqn:E.
    + rewrite (Hs key (or_introl eq_refl)). cbn [negb].
      rewrite IH; [now rewrite <- app_assoc|exact Hr|].
      intros k Hin. destruct (isSeen (<[key := true]> seen0) k) eqn:Ek;
        [|reflexivity].
      apply isSeen_insert in Ek as [->|Ek]; [contradiction|].
      rewrite Hs in Ek by (now right). discriminate Ek.
    + rewrite IH; [reflexivity|exact Hr|].
      intros k Hin. apply Hs. now right.
Qed.

(** X25. The keys Kahn's algorithm emits (sortedKeys, before it is reversed)
    are pairwise distinct, and an emitted key whose entry in ownerRefs names
    the key of an action as an owner comes after that owner. *)
Theorem X25_kahn_owners_first (actions : list Action) (ownerRefs : OwnerRefs)
    (sortedKeys : list string) :
  kahnKeys actions ownerRefs = Some sortedKeys ->
  NoDup sortedKeys
  /\ (forall k owners o b,
        List.In (k, owners) ownerRefs -> List.In o owners ->
        List.In b actions -> resourceKey (act_Target b) = o ->
        List.In k sortedKeys ->
        precedes sortedKeys o k).
Proof.
  intros Hk. destruct (kahnKeys_order actions ownerRefs sortedKeys Hk)
    as [Hn Ho].
  split; [now apply NoDup_ListNoDup|].
  intros k owners o b He Hin Hb Hkey Hks. apply Ho; [exact Hks|].
  now apply (buildGraph_edge actions ownerRefs k o owners b).
Qed.

(** X25 on the three pods, with pod a owned by pod b. *)
Lemma X25_kahn_owners_first_witness :
  NoDup ["Pod/b"; "Pod/a"; "Pod/c"]
  /\ (forall k owners o b,
        List.In (k, owners) aOwnedByB -> List.In o owners ->
        List.In b threePods -> resourceKey (act_Target b) = o ->
        List.In k ["Pod/b"; "Pod/a"; "Pod/c"] ->
        precedes ["Pod/b"; "Pod/a"; "Pod/c"] o k).
Proof.
  apply (X25_kahn_owners_first threePods aOwnedByB).
  vm_compute. reflexivity.
Defined.

(** X26. Children first: when the entry of key k in ownerRefs names key o
    as an owner, both are keys of actions, and Kahn's algorithm emits k, the
    result of [TopologicalSort] has an action of key k before an action of
    key o. *)
Theorem X26_topological_children_first (actions : list Action)
    (ownerRefs : OwnerRefs) (sortedKeys : list string)
    (k o : string) (owners : list string) (a b : Action) :
  List.In (k, owners) ownerRefs -> List.In o owners ->
  List.In a actions -> resourceKey (act_Target a) = k ->
  List.In b actions -> resourceKey (act_Target b) = o ->
  kahnKeys actions ownerRefs = Some sortedKeys ->
  List.In k sortedKeys ->
  exists result a' b',
    TopologicalSort actions ownerRefs = Some result
    /\ precedes result a' b'
    /\ List.In a' actions /\ resourceKey (act_Target a') = k
    /\ List.In b' actions /\ resourceKey (act_Target b') = o.
Proof.
  intros He Ho Ha Hka Hb Hkb Hk Hks.
  destruct (kahnKeys_order actions ownerRefs sortedKeys Hk) as [Hn Hord].
  assert (Hp : precedes sortedKeys o k).
  { apply Hord; [exact Hks|].
    now apply (buildGraph_edge actions ownerRefs k o owners b). }
  destruct (TopologicalSort_kahn actions ownerRefs) as (keys & Hk' & E).
  { intros ->. destruct Ha. }
  { intros ->. destruct He. }
  rewrite Hk in Hk'. injection Hk' as <-.
  destruct (buildActionMap_Some actions a Ha) as [a' Ea].
  destruct (buildActionMap_Some actions b Hb) as [b' Eb].
  rewrite Hka in Ea. rewrite Hkb in Eb.
  exists (fst (pickSorted (buildActionMap actions) (rev sortedKeys))
          ++ addUnseen actions
               (snd (pickSorted (buildActionMap actions) (rev sortedKeys))))%list,
    a', b'.
  split; [exact E|].
  split; [|split; [|split; [|split]]];
    try (now apply buildActionMap_key in Ea);
    try (now apply buildActionMap_key in Eb).
  apply precedes_app. unfold pickSorted.
  rewrite pickSorted_flat;
    [|now apply NoDup_rev|intros; unfold isSeen; now rewrite lookup_empty].
  cbn [app].
  apply (precedes_flat_map (pick (buildActionMap actions)) _ k o).
  - now apply precedes_rev.
  - unfold pick. now rewrite Ea.
  - unfold pick. now rewrite Eb.
Qed.

(** X26 on the three pods, with pod a owned by pod b. *)
Lemma X26_topological_children_first_witness :
  exists result a' b',
    TopologicalSort threePods aOwnedByB = Some result
    /\ precedes result a' b'
    /\ List.In a' threePods /\ resourceKey (act_Target a') = "Pod/a"
    /\ List.In b' threePods /\ resourceKey (act_Target b') = "Pod/b".
Proof.
  apply (X26_topological_children_first threePods aOwnedByB
           ["Pod/b"; "Pod/a"; "Pod/c"] "Pod/a" "Pod/b" ["Pod/b"]
           (podPatch "action-001" "a") (podPatch "action-002" "b")).
  - left. reflexivity.
  - left. reflexivity.
  - left. reflexivity.
  - reflexivity.
  - right. left. reflexivity.
  - reflexivity.
  - vm_compute. reflexivity.
  - right. left. reflexivity.
Defined.

(** * Further properties of plans: order and execution *)

Lemma imap_setID_Forall_rel (R : Action -> Action -> Prop) (a : Action)
    (id : string) (r : list Action) :
  (forall a b id id', R a b -> R (setID a id) (setID b id')) ->
  Forall (R a) r ->
  forall mk, Forall (R (setID a id)) (imap (fun i b => setID b (mk i)) r).
Proof.
  intros HR. induction 1 as [|b r Hb Hr IH]; intros mk; cbn [imap];
    constructor.
  - now apply HR.
  - apply (IH (fun i => mk (S i))).
Qed.

Lemma imap_setID_sorted (R : Action -> Action -> Prop) (l : list Action) :
  (forall a b id id', R a b -> R (setID a id) (setID b id')) ->
  StronglySorted R l ->
  forall mk, StronglySorted R (imap (fun i a => setID a (mk i)) l).
Proof.
  intros HR. induction 1 as [|a r Hr IH Ha]; intros mk; [constructor|].
  cbn [imap]. constructor; [apply (IH (fun i => mk (S i)))|].
  apply (imap_setID_Forall_rel R a (mk 0%nat) r HR Ha (fun i => mk (S i))).
Qed.

(** X29. The actions of a plan stand in the order of the comparison of
    [OrderByDependencies]; in particular their escalation levels never
    decrease along the plan, so that read-only actions come first and the
    actions that require force come last. *)
Theorem X29_plan_in_escalation_order (Quote : string -> string) (p : Planner)
    (d : DiagnosisReport) :
  exists plan,
    Plan Quote p (Some d) = Ok plan
    /\ StronglySorted (fun a b => actionLess b a = false) (plan_Actions plan)
    /\ StronglySorted
         (fun a b => act_EscalationLevel a <= act_EscalationLevel b)
         (plan_Actions plan).
Proof.
  destruct (Plan_total Quote p d) as [plan Hp]. exists plan.
  split; [exact Hp|].
  assert (Hs : StronglySorted (notAfter actionLess) (plan_Actions plan)).
  { destruct (Plan_fields Quote p d plan Hp) as (_ & _ & _ & _ & Hh & Hu).
    destruct (IsHealthy d).
    - rewrite Hh by reflexivity. constructor.
    - rewrite Hu by reflexivity. unfold assignIDs.
      apply imap_setID_sorted; [|apply OrderByDependencies_sorted].
      intros a b id id' H. exact H. }
  split; [exact Hs|].
  eapply StronglySorted_impl; [|exact Hs]. apply notAfter_level.
Qed.

Section ExecutePlan.

Context {Cluster : Type} (client : Client Cluster).

Lemma Execute_executable (action : Action) (c : Cluster) :
  obliging client -> executable action ->
  fst (Execute client action c) = None.
Proof.
  intros (Hget & Hnp & Hfin & Hcp & Hdp) [Hr|[Hp|[Hf Hk]]].
  - now rewrite Execute_readOnly.
  - unfold Execute. rewrite Hp. cbn [String.eqb Ascii.eqb Bool.eqb].
    change (fst (executePatch client action c) = None).
    unfold executePatch. cbv zeta.
    destruct (String.eqb (ref_Kind (act_Target action)) "Namespace");
      [apply Hnp|].
    destruct (String.eqb (ref_Kind (act_Target action))
                         "CustomResourceDefinition"); [apply Hcp|].
    unfold patchDynamicResource. rewrite resolveGVR_ok. apply Hdp.
  - unfold Execute. rewrite Hf. cbn [String.eqb Ascii.eqb Bool.eqb].
    change (fst (executeFinalize client action c) = None).
    unfold executeFinalize. cbv zeta. rewrite Hk. cbn [negb].
    change (String.eqb "Namespace" "Namespace") with true. cbn [negb].
    destruct (Hget (ref_Name (act_Target action)) c) as (ns & c' & ->).
    apply Hfin.
Qed.

End ExecutePlan.

Lemma levelActions_executable (Quote : string -> string) (p : Planner)
    (d : DiagnosisReport) :
  Forall executable (levelActions Quote p d).
Proof.
  unfold levelActions.
  apply Forall_app; split; [|apply Forall_app; split;
    [|apply Forall_app; split; [|apply Forall_app; split]]].
  - unfold infoActions. apply Forall_app. split.
    + constructor; [|constructor]. now left.
    + destruct (0 <? length (diag_Blockers d))%nat; [|constructor].
      constructor; [|constructor]. now left.
  - destruct (_ && _); [|constructor].
    constructor; [|constructor]. now left.
  - destruct (EscalationFinalizer <=? maxEscalation p); [|constructor].
    induction (diag_Blockers d) as [|b r IH]; simpl; constructor;
      [|exact IH].
    right. now left.
  - destruct (_ && _); [|constructor].
    constructor; [|constructor]. right. now left.
  - destruct (_ && _); [|constructor].
    constructor; [|constructor]. right. right. now split.
Qed.

(** X28. The executor has a case for every action the planner emits: the
    type is one it knows, and a finalize action targets a namespace. So with
    a cluster client whose patch, get-namespace and finalize calls succeed,
    executing any action of any plan returns no error. *)
Theorem X28_plan_actions_execute {Cluster : Type} (client : Client Cluster)
    (Quote : string -> string) (p : Planner) (d : DiagnosisReport) :
  obliging client ->
  exists plan,
    Plan Quote p (Some d) = Ok plan
    /\ Forall (fun a => forall c, fst (Execute client a c) = None)
              (plan_Actions plan).
Proof.
  intros Hc. destruct (Plan_total Quote p d) as [plan Hp]. exists plan.
  split; [exact Hp|].
  eapply Forall_impl.
  - apply (Plan_Forall Quote executable p d plan);
      [|apply levelActions_executable|exact Hp].
    intros a id H. exact H.
  - intros a Ha c. now apply Execute_executable.
Qed.

(** X28 on the stuck namespace at the highest ceiling, with force allowed. *)
Lemma X28_plan_actions_execute_witness :
  exists plan,
    Plan (fun s => s) (mkPlanner 4 true) (Some stuckNamespace) = Ok plan
    /\ Forall (fun a => forall c, fst (Execute quietClient a c) = None)
              (plan_Actions plan).
Proof.
  apply (X28_plan_actions_execute quietClient (fun s => s)
           (mkPlanner 4 true) stuckNamespace).
  unfold obliging. cbn. repeat split; intros; try reflexivity.
  eexists. eexists. reflexivity.
Defined.

(** * Resource keys *)

Lemma Split_no_sep (sep : ascii) (s : string) :
  strings.Contains s (String sep EmptyString) = false ->
  strings.Split s sep = [s].
Proof.
  induction s as [|c r IH]; intros Hs; [reflexivity|].
  rewrite Contains_sep_cons in Hs. apply orb_false_iff in Hs as [Hc Hr].
  cbn [strings.Split]. rewrite Hc, (IH Hr). reflexivity.
Qed.

Lemma Split_append (sep : ascii) (p r : string) :
  strings.Contains p (String sep EmptyString) = false ->
  strings.Split (p +:+ String sep r) sep = p :: strings.Split r sep.
Proof.
  induction p as [|c p IH]; intros Hp.
  - change (strings.Split (String sep r) sep
            = EmptyString :: strings.Split r sep).
    cbn [strings.Split]. now rewrite Ascii.eqb_refl.
  - rewrite Contains_sep_cons in Hp. apply orb_false_iff in Hp as [Hc Hr].
    rewrite append_cons. cbn [strings.Split]. rewrite Hc, (IH Hr).
    reflexivity.
Qed.

Lemma resourceKey_Split (ref : ResourceRef) :
  slashFree ref ->
  strings.Split (resourceKey ref) "/"
  = if String.eqb (ref_Namespace ref) EmptyString
    then [ref_Kind ref; ref_Name ref]
    else [ref_Kind ref; ref_Namespace ref; ref_Name ref].
Proof.
  intros (Hk & Hns & Hn). unfold resourceKey.
  destruct (String.eqb (ref_Namespace ref) EmptyString); cbn [negb].
  - change (ref_Kind ref +:+ "/" +:+ ref_Name ref)
      with (ref_Kind ref +:+ String "/" (ref_Name ref)).
    rewrite (Split_append _ _ _ Hk), (Split_no_sep _ _ Hn). reflexivity.
  - change (ref_Kind ref +:+ "/" +:+ ref_Namespace ref +:+ "/" +:+ ref_Name ref)
      with (ref_Kind ref
            +:+ String "/" (ref_Namespace ref +:+ String "/" (ref_Name ref))).
    rewrite (Split_append _ _ _ Hk), (Split_append _ _ _ Hns),
      (Split_no_sep _ _ Hn).
    reflexivity.
Qed.

(** X27. On references whose kind, namespace and name hold no slash,
    [resourceKey] tells resources apart up to the API version: equal keys
    mean equal kind, namespace and name. *)
Theorem X27_resourceKey_injective (r1 r2 : ResourceRef) :
  slashFree r1 -> slashFree r2 ->
  resourceKey r1 = resourceKey r2 ->
  ref_Kind r1 = ref_Kind r2
  /\ ref_Namespace r1 = ref_Namespace r2
  /\ ref_Name r1 = ref_Name r2.
Proof.
  intros H1 H2 E.
  assert (Hs := resourceKey_Split r1 H1). rewrite E in Hs.
  rewrite (resourceKey_Split r2 H2) in Hs.
  destruct (String.eqb_spec (ref_Namespace r1) EmptyString) as [E1|E1];
    destruct (String.eqb_spec (ref_Namespace r2) EmptyString) as [E2|E2];
    try discriminate Hs.
  - injection Hs as Hk Hn. repeat split; congruence.
  - injection Hs as Hk Hns Hn. repeat split; congruence.
Qed.

(** X27 on two references to the same pod under different API versions. *)
Lemma X27_resourceKey_injective_witness :
  ref_Kind (mkResourceRef "Pod" "v1" "web" "a")
  = ref_Kind (mkResourceRef "Pod" "v2" "web" "a")
  /\ ref_Namespace (mkResourceRef "Pod" "v1" "web" "a")
     = ref_Namespace (mkResourceRef "Pod" "v2" "web" "a")
  /\ ref_Name (mkResourceRef "Pod" "v1" "web" "a")
     = ref_Name (mkResourceRef "Pod" "v2" "web" "a").
Proof.
  apply (X27_resourceKey_injective (mkResourceRef "Pod" "v1" "web" "a")
                                   (mkResourceRef "Pod" "v2" "web" "a")).
  - repeat split.
  - repeat split.
  - reflexivity.
Defined.

(** Without the condition the key is not unique: a slash in a name moves the
    border between namespace and name. *)
Example resourceKey_slash_collision :
  resourceKey (mkResourceRef "Pod" "v1" EmptyString "web/a")
  = resourceKey (mkResourceRef "Pod" "v1" "web" "a").
Proof. reflexivity. Qed.

(** * Lowering the ceiling *)

Section StableFilter.

Context {A : Type} (less : A -> A -> bool).

Hypothesis less_asym : forall a b, less a b = true -> less b a = false.
Hypothesis less_split :
  forall a b c, less c a = true -> less c b = true \/ less b a = true.

Lemma insertStable_filter (f : A -> bool) (x : A) (l : list A) :
  StronglySorted (notAfter less) l ->
  List.filter f (insertStable less x l)
  = if f x then insertStable less x (List.filter f l) else List.filter f l.
Proof.
  induction 1 as [|y r Hr IH Hy]; [cbn; now destruct (f x)|].
  cbn [insertStable]. destruct (less y x) eqn:E.
  - cbn [List.filter]. rewrite IH.
    destruct (f y), (f x); cbn [insertStable]; rewrite ?E; reflexivity.
  - cbn [List.filter]. destruct (f x) eqn:Ex; [|reflexivity].
    destruct (f y); [cbn [insertStable]; now rewrite E|].
    assert (Hz : Forall (fun z => less z x = false) (List.filter f r)).
    { apply Forall_forall. intros z Hz. apply list_elem_of_In in Hz.
      apply filter_In in Hz as [Hz _].
      rewrite Forall_forall in Hy. apply list_elem_of_In, Hy in Hz.
      unfold notAfter in Hz. destruct (less z x) eqn:Ez; [|reflexivity].
      destruct (less_split x y z Ez); congruence. }
    destruct (List.filter f r) as [|z r']; [reflexivity|].
    inversion Hz as [|? ? Hzx _]; subst. cbn [insertStable].
    now rewrite Hzx.
Qed.

(** A stable sort commutes with a filter. *)
Lemma SliceStable_filter (f : A -> bool) (l : list A) :
  List.filter f (SliceStable less l) = SliceStable less (List.filter f l).
Proof.
  induction l as [|a r IH]; [reflexivity|].
  cbn [SliceStable fold_right]. fold (SliceStable less r).
  rewrite insertStable_filter
    by (apply SliceStable_sorted; [exact less_asym|exact less_split]).
  cbn [List.filter]. destruct (f a); [|exact IH].
  cbn [SliceStable fold_right]. fold (SliceStable less (List.filter f r)).
  now rewrite IH.
Qed.

End StableFilter.

Lemma OrderByDependencies_filter (f : Action -> bool) (l : list Action) :
  List.filter f (OrderByDependencies l) = OrderByDependencies (List.filter f l).
Proof.
  assert (H : forall l, OrderByDependencies l = SliceStable actionLess l).
  { intros [|a r]; reflexivity. }
  rewrite !H. apply SliceStable_filter;
    [apply actionLess_asym|apply actionLess_split].
Qed.

Lemma filter_le_if (k L : EscalationLevel) (c : bool) (actions : list Action) :
  Forall (fun a => act_EscalationLevel a = k) actions ->
  List.filter (fun a => act_EscalationLevel a <=? L)
              (if c then actions else [])
  = if c && (k <=? L) then actions else [].
Proof.
  intros H. destruct c; [|reflexivity]. cbn [andb].
  induction H as [|a r Ha Hr IH]; [now destruct (k <=? L)|].
  cbn [List.filter]. rewrite Ha, IH. now destruct (k <=? L).
Qed.

(** The actions the levels emit under a lower ceiling are those of the
    higher ceiling that are within the lower one. *)
Lemma levelActions_filter (Quote : string -> string) (d : DiagnosisReport)
    (L M : EscalationLevel) (force : bool) :
  0 <= L <= M ->
  List.filter (fun a => act_EscalationLevel a <=? L)
              (levelActions Quote (mkPlanner M force) d)
  = levelActions Quote (mkPlanner L force) d.
Proof.
  intros HL. unfold levelActions. cbn [maxEscalation allowForce].
  rewrite !List.filter_app.
  rewrite (filter_le_if EscalationInfo L true _ (infoActions_level Quote d)).
  rewrite (filter_le_if EscalationClean L _ (cleanPathActions d))
    by (repeat constructor).
  rewrite (filter_le_if EscalationFinalizer L _ _ (finalizerRemoval_level _ _)).
  rewrite (filter_le_if EscalationCRD L _ [crdFinalizerAction (diag_Target d)])
    by (repeat constructor).
  rewrite (filter_le_if EscalationForce L _
             [forceFinalize (ref_Name (diag_Target d))])
    by (repeat constructor).
  unfold EscalationInfo, EscalationClean, EscalationFinalizer, EscalationCRD,
    EscalationForce.
  repeat match goal with
         | |- context [?a <=? ?b] => destruct (Z.leb_spec a b); try lia
         end;
    cbn [andb]; rewrite ?andb_true_r, ?andb_false_r; reflexivity.
Qed.

Lemma sorted_filter_prefix (L : EscalationLevel) (l : list Action) :
  StronglySorted (fun a b => act_EscalationLevel a <= act_EscalationLevel b) l ->
  exists rest,
    l = (List.filter (fun a => act_EscalationLevel a <=? L) l ++ rest)%list
    /\ Forall (fun a => L < act_EscalationLevel a) rest.
Proof.
  induction 1 as [|a r Hr (rest & E & Hrest) Ha].
  - exists []. split; [reflexivity|constructor].
  - cbn [List.filter]. destruct (Z.leb_spec (act_EscalationLevel a) L).
    + exists rest. split; [cbn [app]; now f_equal|exact Hrest].
    + exists (a :: r).
      assert (Hall : Forall (fun b => L < act_EscalationLevel b) (a :: r)).
      { constructor; [lia|]. eapply Forall_impl; [exact Ha|].
        intros b Hb. cbn in Hb. lia. }
      split; [|exact Hall].
      assert (Hnil : List.filter (fun a0 => act_EscalationLevel a0 <=? L) r
                     = []).
      { clear -Hall. inversion Hall as [|? ? _ Hr]; subst. clear Hall.
        induction Hr as [|b r Hb Hr IH]; [reflexivity|].
        cbn [List.filter].
        destruct (Z.leb_spec (act_EscalationLevel b) L); [lia|exact IH]. }
      now rewrite Hnil.
Qed.

Lemma imap_setID_filter_all (f : Action -> bool) (l : list Action) :
  (forall a id, f (setID a id) = f a) ->
  Forall (fun a => f a = true) l ->
  forall mk,
    List.filter f (imap (fun i a => setID a (mk i)) l)
    = imap (fun i a => setID a (mk i)) l.
Proof.
  intros Hf. induction 1 as [|a r Ha Hr IH]; intros mk; [reflexivity|].
  cbn [imap List.filter]. rewrite Hf, Ha. f_equal.
  apply (IH (fun i => mk (S i))).
Qed.

Lemma imap_setID_filter_none (f : Action -> bool) (l : list Action) :
  (forall a id, f (setID a id) = f a) ->
  Forall (fun a => f a = false) l ->
  forall mk, List.filter f (imap (fun i a => setID a (mk i)) l) = [].
Proof.
  intros Hf. induction 1 as [|a r Ha Hr IH]; intros mk; [reflexivity|].
  cbn [imap List.filter]. rewrite Hf, Ha.
  apply (IH (fun i => mk (S i))).
Qed.

Lemma assignIDs_app (l1 l2 : list Action) :
  assignIDs (l1 ++ l2)
  = (assignIDs l1
     ++ imap (fun i a => setID a ("action-" +:+ fmt.d03 (S (length l1 + i))))
             l2)%list.
Proof. unfold assignIDs. now rewrite imap_app. Qed.

(** X30. Raising the ceiling only appends: for ceilings [0 <= L <= M] and
    the same force flag, the plan at [L] is the plan at [M] cut down to the
    levels up to [L] by [FilterActionsByMaxLevel], with the same IDs, and it
    is a prefix of the plan at [M]; what follows it lies above [L]. *)
Theorem X30_lower_ceiling_is_prefix (Quote : string -> string)
    (d : DiagnosisReport) (L M : EscalationLevel) (force : bool) :
  0 <= L <= M ->
  exists planL planM rest,
    Plan Quote (mkPlanner L force) (Some d) = Ok planL
    /\ Plan Quote (mkPlanner M force) (Some d) = Ok planM
    /\ FilterActionsByMaxLevel (plan_Actions planM) L = plan_Actions planL
    /\ plan_Actions planM = (plan_Actions planL ++ rest)%list
    /\ Forall (fun a => L < act_EscalationLevel a) rest.
Proof.
  intros HL.
  destruct (Plan_total Quote (mkPlanner L force) d) as [planL HpL].
  destruct (Plan_total Quote (mkPlanner M force) d) as [planM HpM].
  destruct (Plan_fields Quote _ d planL HpL) as (_ & _ & _ & _ & HhL & HuL).
  destruct (Plan_fields Quote _ d planM HpM) as (_ & _ & _ & _ & HhM & HuM).
  assert (H : exists rest,
             FilterActionsByMaxLevel (plan_Actions planM) L
             = plan_Actions planL
             /\ plan_Actions planM = (plan_Actions planL ++ rest)%list
             /\ Forall (fun a => L < act_EscalationLevel a) rest);
    [|destruct H as (rest & H1 & H2 & H3); exists planL, planM, rest;
      repeat split; assumption].
  destruct (IsHealthy d).
  { exists []. rewrite HhL, HhM by reflexivity.
    repeat split; constructor. }
  rewrite HuL, HuM by reflexivity. clear HhL HhM HuL HuM HpL HpM.
  set (f := fun a => act_EscalationLevel a <=? L).
  set (sorted := OrderByDependencies (levelActions Quote (mkPlanner M force) d)).
  assert (Hs : StronglySorted
                 (fun a b => act_EscalationLevel a <= act_EscalationLevel b)
                 sorted).
  { eapply StronglySorted_impl; [|apply OrderByDependencies_sorted].
    apply notAfter_level. }
  destruct (sorted_filter_prefix L sorted Hs) as (rest & E & Hrest).
  fold f in E.
  assert (Hlow : OrderByDependencies (levelActions Quote (mkPlanner L force) d)
                 = List.filter f sorted).
  { unfold sorted. rewrite OrderByDependencies_filter. unfold f.
    now rewrite levelActions_filter. }
  rewrite Hlow.
  assert (Hcut : assignIDs sorted
                 = (assignIDs (List.filter f sorted)
                    ++ imap (fun i a =>
                               setID a ("action-"
                                        +:+ fmt.d03
                                              (S (length (List.filter f sorted)
                                                  + i))))
                            rest)%list).
  { rewrite E at 1. apply assignIDs_app. }
  exists (imap (fun i a =>
                  setID a ("action-"
                           +:+ fmt.d03 (S (length (List.filter f sorted) + i))))
               rest).
  split; [|split; [exact Hcut|]].
  - unfold FilterActionsByMaxLevel. fold f. rewrite Hcut, List.filter_app.
    unfold assignIDs at 1.
    rewrite imap_setID_filter_all;
      [|reflexivity|
       apply Forall_forall; intros a Ha; apply list_elem_of_In in Ha;
       now apply filter_In in Ha].
    rewrite imap_setID_filter_none; [now rewrite app_nil_r|reflexivity|].
    eapply Forall_impl; [exact Hrest|]. intros a Ha. unfold f.
    cbn beta in Ha |- *.
    destruct (Z.leb_spec (act_EscalationLevel a) L); [lia|reflexivity].
  - apply imap_setID_Forall; [|exact Hrest]. intros a id H. exact H.
Qed.

(** X30 on the stuck namespace, for the ceilings 1 and 4. *)
Lemma X30_lower_ceiling_is_prefix_witness :
  exists planL planM rest,
    Plan (fun s => s) (mkPlanner 1 true) (Some stuckNamespace) = Ok planL
    /\ Plan (fun s => s) (mkPlanner 4 true) (Some stuckNamespace) = Ok planM
    /\ FilterActionsByMaxLevel (plan_Actions planM) 1 = plan_Actions planL
    /\ plan_Actions planM = (plan_Actions planL ++ rest)%list
    /\ Forall (fun a => 1 < act_EscalationLevel a) rest.
Proof.
  apply (X30_lower_ceiling_is_prefix (fun s => s) stuckNamespace 1 4 true).
  lia.
Defined.
